(** * Call lifecycle and call-permission ledger of the WhatsApp/HubSpot calling backend

    A shallow embedding of the request handlers in
    [backend/src/routes/calls.js], the provider webhooks
    ([/voice/inbound], [/call-status], [/messaging], ...), the CRM event
    route of [backend/src/routes/hubspot.js] and the model methods of
    [CallPermission], followed by theorems about them.

    Conventions of the embedding.
    - The database is a record of row lists, one list per table, in
      insertion order.  The ORM calls the handlers make ([findOne],
      [findByPk], [create], [update], [increment]) are functions on it.
      The constraints the model files declare (primary keys, [unique: true]
      columns, the partial unique index of [call_permissions]) are checked
      by [create] / [update] and raise [SequelizeUniqueConstraintError].
    - Foreign keys are enforced: the sqlite dialect of the ORM switches
      them on.  The [contactId] columns of [calls] and of
      [call_permissions] reference a table ['HubSpotContacts'], which the
      schema does not have (the contact table is [hubspot_contacts]), so
      the store refuses every insert into these two tables ([Schema]).
      Updates of their other columns are not affected.  The rows of the
      two tables are therefore part of the state a handler meets.
    - [update] writes the named columns of the row whose primary key is the
      instance's, nothing else.
    - A handler is a computation in the monad [M]: it threads the database
      and may throw.  Nothing is transactional: what was written before a
      throw stays written.
    - The store is the one the repository configures: [dialect: 'sqlite']
      in [models/index.js], [sqlite:./database.sqlite] in
      [config/config.js].
    - Dates are milliseconds since the epoch ([Z]); identifiers and status
      values are strings, as in the request bodies and in the columns.  A
      string is the sequence of bytes of its UTF-8 form.
    - A property of a JSON object is absent ([undefined]), [null] or a
      value ([JS.Field]) where a handler passes it to [update]: the ORM
      leaves a column alone whose new value is [undefined].  A nullable
      column is an [option], [None] being NULL.
    - ENUM columns are text columns on this store and the ORM validates
      them only under its [typeValidation] option, which the repository
      leaves off: a status column holds whatever string the handler
      writes.
    - Everything the handlers obtain from outside (clock readings, generated
      UUIDs, the outcome of a call to the telephony, messaging or CRM
      service) is an explicit argument.
    - A request is taken once the middleware in front of its handler has let
      it through (the signature check of the webhooks, the express-validator
      checks of the API routes); a request rejected there reaches no
      handler.  Handlers run one after the other: no two requests interleave
      at their [await] points.
    - Logging through [logger], the WebSocket broadcasts and the CRM
      activity log of [/call-status] (whose failure is caught and logged)
      change no persistent state and are left out.  So is the [updatedAt]
      column that the ORM keeps for every table: no handler reads it. *)

From Stdlib Require Import String Ascii List ZArith Lia Bool.
Import ListNotations.

Local Open Scope string_scope.
Local Open Scope Z_scope.

(** ** JavaScript primitives used by the handlers *)

Module JS.

(** [s.startsWith(p)] *)
Definition startsWith (s p : string) : bool := String.prefix p s.

Fixpoint drop (n : nat) (s : string) : string :=
  match n, s with
  | O, _ => s
  | S _, EmptyString => EmptyString
  | S n', String _ s' => drop n' s'
  end.

(** [s.replace(pat, rep)] with a string pattern: the first occurrence of
    [pat] is replaced, the rest of [s] is kept. *)
Fixpoint replace (pat rep s : string) : string :=
  if String.prefix pat s then rep ++ drop (String.length pat) s
  else match s with
       | EmptyString => EmptyString
       | String c s' => String c (replace pat rep s')
       end.

(** Truthiness of an optional string field of a request body:
    [undefined] and the empty string are falsy. *)
Definition truthy (v : option string) : bool :=
  match v with
  | None => false
  | Some s => negb (s =? "")%string
  end.

(** The white space and line terminators of the language, which
    [parseInt] skips and [trim] strips.  In the ASCII range: space, tab,
    line feed, vertical tab, form feed, carriage return. *)
Definition is_space (c : ascii) : bool :=
  let n := nat_of_ascii c in
  (Nat.eqb n 32 || Nat.eqb n 9 || Nat.eqb n 10 || Nat.eqb n 11
   || Nat.eqb n 12 || Nat.eqb n 13)%bool.

(** U+00A0, in UTF-8. *)
Definition is_space2 (c d : ascii) : bool :=
  (Nat.eqb (nat_of_ascii c) 194 && Nat.eqb (nat_of_ascii d) 160)%bool.

(** U+1680, U+2000 to U+200A, U+2028, U+2029, U+202F, U+205F, U+3000 and
    U+FEFF, in UTF-8. *)
Definition is_space3 (c d f : ascii) : bool :=
  let c := nat_of_ascii c in
  let d := nat_of_ascii d in
  let f := nat_of_ascii f in
  (Nat.eqb c 225 && Nat.eqb d 154 && Nat.eqb f 128
   || Nat.eqb c 226
      && (Nat.eqb d 128
          && (Nat.leb 128 f && Nat.leb f 138 || Nat.eqb f 168 || Nat.eqb f 169
              || Nat.eqb f 175)
          || Nat.eqb d 129 && Nat.eqb f 159)
   || Nat.eqb c 227 && Nat.eqb d 128 && Nat.eqb f 128
   || Nat.eqb c 239 && Nat.eqb d 187 && Nat.eqb f 191)%bool.

(** [s] without the white space it starts with. *)
Fixpoint skip_spaces (s : string) : string :=
  match s with
  | String c s1 =>
      if is_space c then skip_spaces s1
      else match s1 with
           | String d s2 =>
               if is_space2 c d then skip_spaces s2
               else match s2 with
                    | String f s3 => if is_space3 c d f then skip_spaces s3 else s
                    | EmptyString => s
                    end
           | EmptyString => s
           end
  | EmptyString => s
  end.

Definition digit (radix : Z) (c : ascii) : option Z :=
  let n := Z.of_nat (nat_of_ascii c) in
  let d := if (48 <=? n) && (n <=? 57) then Some (n - 48)
           else if (97 <=? n) && (n <=? 122) then Some (n - 87)
           else if (65 <=? n) && (n <=? 90) then Some (n - 55)
           else None in
  match d with
  | Some v => if v <? radix then Some v else None
  | None => None
  end.

(** Longest prefix of digits; [None] when there is no digit at all. *)
Fixpoint digits (radix : Z) (acc : option Z) (s : string) : option Z :=
  match s with
  | EmptyString => acc
  | String c s' =>
      match digit radix c with
      | Some d =>
          digits radix (Some (radix * match acc with Some a => a | None => 0 end + d)) s'
      | None => acc
      end
  end.

(** [parseInt(s)] without a radix argument; [None] is [NaN]. *)
Definition parseInt (s : string) : option Z :=
  let s := skip_spaces s in
  let '(neg, s) :=
    match s with
    | String "-" s' => (true, s')
    | String "+" s' => (false, s')
    | _ => (false, s)
    end in
  let r :=
    if String.prefix "0x" s || String.prefix "0X" s
    then digits 16 None (drop 2 s)
    else digits 10 None s in
  match r with
  | Some v => Some (if neg then - v else v)
  | None => None
  end.

(** A property of a JSON object as a handler reads it. *)
Inductive Field (A : Type) :=
| undefined
| null
| value (a : A).
Arguments undefined {A}.
Arguments null {A}.
Arguments value {A} a.

(** The column [create] stores for a property: an absent property takes
    the default of the column, which is NULL for the columns concerned. *)
Definition stored {A} (f : Field A) : option A :=
  match f with
  | value a => Some a
  | undefined | null => None
  end.

(** The column after [update] with a property, [old] being the column
    before: an [undefined] value is not written. *)
Definition updated {A} (f : Field A) (old : option A) : option A :=
  match f with
  | undefined => old
  | null => None
  | value a => Some a
  end.

(** [a || b] on string properties. *)
Definition or_else (a b : Field string) : Field string :=
  match a with
  | value s => if (s =? "")%string then b else a
  | undefined | null => b
  end.

End JS.

(** ** Configuration ([config/config.js], [callPermissions]) *)

Module Config.
Definition maxRequestsPerDay : Z := 1.
Definition maxRequestsPer7Days : Z := 2.
Definition maxCallsPerDay : Z := 5.
Definition permissionExpiryDays : Z := 7.
Definition consecutiveMissedCallLimit : Z := 4.
End Config.

Definition hour_ms : Z := 60 * 60 * 1000.
Definition day_ms : Z := 24 * 60 * 60 * 1000.
Definition week_ms : Z := 7 * 24 * 60 * 60 * 1000.

(** ** Rows *)

Module HubSpotProps.
(** The [properties] of a CRM contact, as [getContact] returns them. *)
Record t := mk {
  email : JS.Field string;
  phone : JS.Field string;
  whatsapp_number : JS.Field string;
  mobilephone : JS.Field string;
  firstname : JS.Field string;
  lastname : JS.Field string;
  company : JS.Field string
}.
End HubSpotProps.

Module HubSpotContact.
(** [deleted] is the key of the [metadata] column that the handlers
    write; [hubspotProperties] is [None] for the default [{}]. *)
Record t := mk {
  id : string;
  hubspotContactId : string;
  email : option string;
  phone : option string;
  whatsappNumber : option string;
  firstName : option string;
  lastName : option string;
  company : option string;
  lastSyncedAt : Z;
  hubspotProperties : option HubSpotProps.t;
  deleted : bool
}.

Definition set_deleted (d : bool) (c : t) : t :=
  mk (id c) (hubspotContactId c) (email c) (phone c) (whatsappNumber c) (firstName c)
     (lastName c) (company c) (lastSyncedAt c) (hubspotProperties c) d.

Definition set_lastSyncedAt (now : Z) (c : t) : t :=
  mk (id c) (hubspotContactId c) (email c) (phone c) (whatsappNumber c) (firstName c)
     (lastName c) (company c) now (hubspotProperties c) (deleted c).
End HubSpotContact.

Inductive Direction := inbound | outbound.

Definition Direction_eqb (a b : Direction) : bool :=
  match a, b with
  | inbound, inbound | outbound, outbound => true
  | _, _ => false
  end.

Module Call.
Record t := mk {
  id : string;
  twilioCallSid : string;
  hubspotCallId : option string;
  contactId : string;
  direction : Direction;
  status : string;
  fromNumber : string;
  toNumber : string;
  duration : option Z;
  startTime : option Z;
  endTime : option Z;
  recordingUrl : option string;
  notes : option string;
  agentIdentity : option string;
  outcome : option string
}.

(** The values of the [status] ENUM of the model. *)
Definition status_values : list string :=
  ["initiated"; "ringing"; "in-progress"; "completed"; "failed"; "busy";
   "no-answer"; "canceled"].

Definition set_status (s : string) (c : t) : t :=
  mk (id c) (twilioCallSid c) (hubspotCallId c) (contactId c) (direction c) s
     (fromNumber c) (toNumber c) (duration c) (startTime c) (endTime c)
     (recordingUrl c) (notes c) (agentIdentity c) (outcome c).

Definition set_twilioCallSid (s : string) (c : t) : t :=
  mk (id c) s (hubspotCallId c) (contactId c) (direction c) (status c)
     (fromNumber c) (toNumber c) (duration c) (startTime c) (endTime c)
     (recordingUrl c) (notes c) (agentIdentity c) (outcome c).

Definition set_hubspotCallId (h : option string) (c : t) : t :=
  mk (id c) (twilioCallSid c) h (contactId c) (direction c) (status c)
     (fromNumber c) (toNumber c) (duration c) (startTime c) (endTime c)
     (recordingUrl c) (notes c) (agentIdentity c) (outcome c).

Definition set_duration (d : option Z) (c : t) : t :=
  mk (id c) (twilioCallSid c) (hubspotCallId c) (contactId c) (direction c)
     (status c) (fromNumber c) (toNumber c) d (startTime c) (endTime c)
     (recordingUrl c) (notes c) (agentIdentity c) (outcome c).

Definition set_endTime (e : option Z) (c : t) : t :=
  mk (id c) (twilioCallSid c) (hubspotCallId c) (contactId c) (direction c)
     (status c) (fromNumber c) (toNumber c) (duration c) (startTime c) e
     (recordingUrl c) (notes c) (agentIdentity c) (outcome c).

Definition set_recordingUrl (r : option string) (c : t) : t :=
  mk (id c) (twilioCallSid c) (hubspotCallId c) (contactId c) (direction c)
     (status c) (fromNumber c) (toNumber c) (duration c) (startTime c)
     (endTime c) r (notes c) (agentIdentity c) (outcome c).

Definition set_notes (n : option string) (c : t) : t :=
  mk (id c) (twilioCallSid c) (hubspotCallId c) (contactId c) (direction c)
     (status c) (fromNumber c) (toNumber c) (duration c) (startTime c)
     (endTime c) (recordingUrl c) n (agentIdentity c) (outcome c).

Definition set_outcome (o : option string) (c : t) : t :=
  mk (id c) (twilioCallSid c) (hubspotCallId c) (contactId c) (direction c)
     (status c) (fromNumber c) (toNumber c) (duration c) (startTime c)
     (endTime c) (recordingUrl c) (notes c) (agentIdentity c) o.
End Call.

Module CallPermission.
Record t := mk {
  id : string;
  contactId : string;
  whatsappNumber : string;
  status : string;
  requestedAt : Z;
  respondedAt : option Z;
  expiresAt : Z;
  callsUsed : Z;
  maxCalls : Z;
  consecutiveMissedCalls : Z;
  twilioMessageSid : option string;
  createdAt : Z
}.

(** The values of the [status] ENUM of the model. *)
Definition status_values : list string :=
  ["pending"; "approved"; "rejected"; "expired"].

Definition set_status (s : string) (p : t) : t :=
  mk (id p) (contactId p) (whatsappNumber p) s (requestedAt p)
     (respondedAt p) (expiresAt p) (callsUsed p) (maxCalls p)
     (consecutiveMissedCalls p) (twilioMessageSid p) (createdAt p).

Definition set_respondedAt (r : option Z) (p : t) : t :=
  mk (id p) (contactId p) (whatsappNumber p) (status p) (requestedAt p)
     r (expiresAt p) (callsUsed p) (maxCalls p)
     (consecutiveMissedCalls p) (twilioMessageSid p) (createdAt p).

Definition set_callsUsed (n : Z) (p : t) : t :=
  mk (id p) (contactId p) (whatsappNumber p) (status p) (requestedAt p)
     (respondedAt p) (expiresAt p) n (maxCalls p)
     (consecutiveMissedCalls p) (twilioMessageSid p) (createdAt p).

Definition set_consecutiveMissedCalls (n : Z) (p : t) : t :=
  mk (id p) (contactId p) (whatsappNumber p) (status p) (requestedAt p)
     (respondedAt p) (expiresAt p) (callsUsed p) (maxCalls p)
     n (twilioMessageSid p) (createdAt p).

Definition set_twilioMessageSid (m : option string) (p : t) : t :=
  mk (id p) (contactId p) (whatsappNumber p) (status p) (requestedAt p)
     (respondedAt p) (expiresAt p) (callsUsed p) (maxCalls p)
     (consecutiveMissedCalls p) m (createdAt p).

(** [CallPermission.prototype.isExpired], with the clock reading
    [new Date()] as [now]. *)
Definition isExpired (now : Z) (p : t) : bool := expiresAt p <? now.

(** [CallPermission.prototype.canMakeCall] *)
Definition canMakeCall (now : Z) (p : t) : bool :=
  (status p =? "approved")%string
  && negb (isExpired now p)
  && (callsUsed p <? maxCalls p)
  && (consecutiveMissedCalls p <? 4).
End CallPermission.

Module CallLog.
Record t := mk {
  callId : string;
  event : string;
  status : option string;
  source : string
}.
End CallLog.

(** ** The database and the monad of the handlers *)

Record DB := mkDB {
  contacts : list HubSpotContact.t;
  calls : list Call.t;
  permissions : list CallPermission.t;
  logs : list CallLog.t
}.

Inductive Exn :=
| SequelizeUniqueConstraintError
| SequelizeDatabaseError
| SequelizeValidationError
| TwilioError
| HubSpotError
| TypeError.

Inductive Outcome (A : Type) :=
| Ok (a : A)
| Throw (e : Exn).
Arguments Ok {A} a.
Arguments Throw {A} e.

(** A computation reads and writes the database and either returns or
    throws; the database it leaves behind is kept in both cases. *)
Definition M (A : Type) : Type := DB -> Outcome A * DB.

Definition ret {A} (a : A) : M A := fun db => (Ok a, db).

Definition throw {A} (e : Exn) : M A := fun db => (Throw e, db).

Definition bind {A B} (m : M A) (k : A -> M B) : M B :=
  fun db =>
    match m db with
    | (Ok a, db') => k a db'
    | (Throw e, db') => (Throw e, db')
    end.

(** [try { m } catch (e) { h e }] *)
Definition try_catch {A} (m : M A) (h : Exn -> M A) : M A :=
  fun db =>
    match m db with
    | (Ok a, db') => (Ok a, db')
    | (Throw e, db') => h e db'
    end.

(** An awaited call to an external service whose outcome is given. *)
Definition await {A} (o : Outcome A) : M A := fun db => (o, db).

Declare Scope monad_scope.
Delimit Scope monad_scope with monad.
Notation "x <- c ;; k" := (bind c (fun x => k))
  (at level 61, c at next level, right associativity) : monad_scope.
Notation "c ;;; k" := (bind c (fun _ => k))
  (at level 61, right associativity) : monad_scope.
Local Open Scope monad_scope.

(** The HTTP response of a handler: status code and the text that
    identifies the body ([error] field, ['OK'], ...). *)
Record Response := mkResp { res_status : Z; res_body : string }.

Definition is_some {A} (o : option A) : bool :=
  match o with Some _ => true | None => false end.

(** ** The schema *)

Module Schema.

(** The [tableName] of the four models, which [sequelize.sync()]
    creates. *)
Definition tables : list string :=
  ["hubspot_contacts"; "calls"; "call_permissions"; "call_logs"].

(** [references: { model: 'HubSpotContacts', key: 'id' }] of the column
    [contactId], in [Call] and in [CallPermission] alike. *)
Definition contactId_references : string := "HubSpotContacts".

(** The sqlite dialect of the ORM opens the database with
    [PRAGMA FOREIGN_KEYS=ON]. *)
Definition foreign_keys : bool := true.

(** sqlite takes table names without regard to the case of their ASCII
    letters; no name here differs from another in case only. *)
Definition has_table (name : string) : bool := existsb (String.eqb name) tables.

(** With foreign keys enforced, an [INSERT] into a table whose foreign key
    names a parent table that does not exist is refused ("no such
    table"), whatever the row. *)
Definition insert_refused (parent : string) : bool :=
  foreign_keys && negb (has_table parent).

End Schema.

(** ** ORM operations *)

Module Contacts.
Import HubSpotContact.

Definition findByPk (k : string) : M (option t) :=
  fun db => (Ok (find (fun c => (id c =? k)%string) (contacts db)), db).

Definition findOne_whatsappNumber (n : string) : M (option t) :=
  fun db =>
    (Ok (find (fun c => match whatsappNumber c with
                        | Some m => (m =? n)%string
                        | None => false
                        end) (contacts db)), db).

Definition findOne_hubspotContactId (h : string) : M (option t) :=
  fun db => (Ok (find (fun c => (hubspotContactId c =? h)%string) (contacts db)), db).

(** [create]: the primary key and [hubspotContactId] are unique. *)
Definition create (c : t) : M t :=
  fun db =>
    if existsb (fun c' => (id c' =? id c)%string
                          || (hubspotContactId c' =? hubspotContactId c)%string)
               (contacts db)
    then (Throw SequelizeUniqueConstraintError, db)
    else (Ok c, mkDB (contacts db ++ [c]) (calls db) (permissions db) (logs db)).

(** [update] of the columns [f] writes, on the row with key [k]. *)
Definition update (k : string) (f : t -> t) : M unit :=
  fun db =>
    (Ok tt,
     mkDB (map (fun c => if (id c =? k)%string then f c else c) (contacts db))
          (calls db) (permissions db) (logs db)).

(** The validation of the model, which [create] and [update] run before
    they write: [validate: { isEmail: true }] on [email], applied to a
    value and to neither [null] nor an absent property.  [isEmail] is the
    predicate of the validation library. *)
Definition validate (isEmail : string -> bool) (email : JS.Field string) : M unit :=
  match email with
  | JS.value s => if isEmail s then ret tt else throw SequelizeValidationError
  | JS.undefined | JS.null => ret tt
  end.
End Contacts.

Module Calls.
Import Call.

Definition findOne_twilioCallSid (sid : string) : M (option t) :=
  fun db => (Ok (find (fun c => (twilioCallSid c =? sid)%string) (calls db)), db).

Definition findByPk (k : string) : M (option t) :=
  fun db => (Ok (find (fun c => (id c =? k)%string) (calls db)), db).

Definition hubspotCallId_clash (h : option string) (c' : t) : bool :=
  match h, hubspotCallId c' with
  | Some a, Some b => (a =? b)%string
  | _, _ => false
  end.

(** Does a stored row hold the primary key, the [twilioCallSid] or the
    non-null [hubspotCallId] of [c]? *)
Definition clashes (c : t) (db : DB) : bool :=
  existsb (fun c' => (id c' =? id c)%string
                     || (twilioCallSid c' =? twilioCallSid c)%string
                     || hubspotCallId_clash (hubspotCallId c) c')
          (calls db).

(** [create].  The insert is refused by the foreign key of [contactId]
    when its parent table is missing; otherwise the primary key,
    [twilioCallSid] and a non-null [hubspotCallId] are unique. *)
Definition create (c : t) : M t :=
  fun db =>
    if Schema.insert_refused Schema.contactId_references
    then (Throw SequelizeDatabaseError, db)
    else if clashes c db
    then (Throw SequelizeUniqueConstraintError, db)
    else (Ok c, mkDB (contacts db) (calls db ++ [c]) (permissions db) (logs db)).

Definition write (k : string) (f : t -> t) (db : DB) : DB :=
  mkDB (contacts db)
       (map (fun c => if (id c =? k)%string then f c else c) (calls db))
       (permissions db) (logs db).

(** [update] of columns that carry no constraint. *)
Definition update (k : string) (f : t -> t) : M unit :=
  fun db => (Ok tt, write k f db).

(** [update({ twilioCallSid: sid })]: refused when another row holds
    [sid]. *)
Definition update_twilioCallSid (k sid : string) : M unit :=
  fun db =>
    if existsb (fun c' => negb (id c' =? k)%string
                          && (twilioCallSid c' =? sid)%string) (calls db)
    then (Throw SequelizeUniqueConstraintError, db)
    else (Ok tt, write k (set_twilioCallSid sid) db).

(** [update({ hubspotCallId: h, ... })] with further unconstrained
    columns [f]: refused when another row holds the value [h]; an
    [undefined] [h] leaves the column as it is. *)
Definition update_hubspotCallId (k : string) (h : JS.Field string) (f : t -> t) : M unit :=
  fun db =>
    if existsb (fun c' => negb (id c' =? k)%string
                          && hubspotCallId_clash (JS.stored h) c') (calls db)
    then (Throw SequelizeUniqueConstraintError, db)
    else (Ok tt,
          write k (fun c => f (set_hubspotCallId (JS.updated h (hubspotCallId c)) c)) db).
End Calls.

Module Permissions.
Import CallPermission.

(** The row a query with [order: [['createdAt', 'DESC']]] returns first:
    the one with the greatest [createdAt], the earliest inserted among
    equals. *)
Fixpoint latest (l : list t) : option t :=
  match l with
  | [] => None
  | p :: l' =>
      match latest l' with
      | Some q => if createdAt p <? createdAt q then Some q else Some p
      | None => Some p
      end
  end.

Definition findOne (where_ : t -> bool) : M (option t) :=
  fun db => (Ok (latest (filter where_ (permissions db))), db).

Definition findAll (where_ : t -> bool) : M (list t) :=
  fun db => (Ok (filter where_ (permissions db)), db).

(** The partial unique index on [(contactId, whatsappNumber)] over the
    rows with [status = 'approved']: does a row other than [k] already
    hold the pair? *)
Definition approved_clash (k contact number : string) (db : DB) : bool :=
  existsb (fun p' => negb (id p' =? k)%string
                     && (status p' =? "approved")%string
                     && (contactId p' =? contact)%string
                     && (whatsappNumber p' =? number)%string)
          (permissions db).

(** [create].  The insert is refused by the foreign key of [contactId]
    when its parent table is missing; otherwise the primary key and the
    partial unique index are checked. *)
Definition create (p : t) : M t :=
  fun db =>
    if Schema.insert_refused Schema.contactId_references
    then (Throw SequelizeDatabaseError, db)
    else if existsb (fun p' => (id p' =? id p)%string) (permissions db)
            || ((status p =? "approved")%string
                && approved_clash (id p) (contactId p) (whatsappNumber p) db)
    then (Throw SequelizeUniqueConstraintError, db)
    else (Ok p, mkDB (contacts db) (calls db) (permissions db ++ [p]) (logs db)).

Definition write (k : string) (f : t -> t) (db : DB) : DB :=
  mkDB (contacts db) (calls db)
       (map (fun p => if (id p =? k)%string then f p else p) (permissions db))
       (logs db).

(** [instance.update({ status: s, ... })] with further unconstrained
    columns [f]; the instance and its row are both written. *)
Definition update_status (p : t) (s : string) (f : t -> t) : M t :=
  fun db =>
    if (s =? "approved")%string
       && approved_clash (id p) (contactId p) (whatsappNumber p) db
    then (Throw SequelizeUniqueConstraintError, db)
    else (Ok (f (set_status s p)), write (id p) (fun r => f (set_status s r)) db).

(** [instance.update] of columns that carry no constraint. *)
Definition update (p : t) (f : t -> t) : M t :=
  fun db => (Ok (f p), write (id p) f db).

(** [instance.increment(column)].  The ORM performs it in the database,
    as [UPDATE ... SET column = column + 1 WHERE id = ...], without using
    the values held by the instance; on the sqlite dialect the statement
    returns no row, so the instance the caller holds keeps the values it
    was loaded with until it is reloaded.  [bump] is the column
    arithmetic on the row; the result is the caller's instance. *)
Definition increment (p : t) (bump : t -> t) : M t :=
  fun db => (Ok p, write (id p) bump db).

(** [CallPermission.prototype.incrementCallsUsed] *)
Definition incrementCallsUsed (p : t) : M t :=
  increment p (fun r => set_callsUsed (callsUsed r + 1) r).

(** [CallPermission.prototype.incrementMissedCalls] *)
Definition incrementMissedCalls (p : t) : M t :=
  increment p (fun r => set_consecutiveMissedCalls (consecutiveMissedCalls r + 1) r).

(** [CallPermission.prototype.resetMissedCalls] *)
Definition resetMissedCalls (p : t) : M t :=
  update p (set_consecutiveMissedCalls 0).
End Permissions.

Module Logs.
Definition create (l : CallLog.t) : M unit :=
  fun db => (Ok tt, mkDB (contacts db) (calls db) (permissions db) (logs db ++ [l])).
End Logs.

(** ** Request bodies and what each handler receives from outside *)

Module StatusBody.
(** Body of [POST /webhook/call-status]. *)
Record t := mk {
  CallSid : string;
  CallStatus : string;
  CallDuration : option string;
  RecordingUrl : option string
}.
End StatusBody.

Module InboundBody.
(** Body of [POST /webhook/voice/inbound]. *)
Record t := mk {
  CallSid : string;
  From : string;
  To : string;
  CallStatus : string
}.
End InboundBody.

Module InboundEnv.
Record t := mk {
  now : Z;
  call_uuid : string;
  contact_uuid : string;
  (** [hubspotService.searchContactsByWhatsApp]: the ids of the results *)
  search : Outcome (list string);
  (** [hubspotService.getContact], called by [syncContact] *)
  getContact : Outcome HubSpotProps.t;
  (** [hubspotService.createContact]: the id of the new CRM contact *)
  createContact : Outcome string;
  (** [new Date()] for [lastSyncedAt], in [syncFromHubSpot] or as the
      default of the column at [create] *)
  now_synced : Z;
  (** [isEmail] of the validation library *)
  isEmail : string -> bool
}.
End InboundEnv.

Module MessagingBody.
(** Body of [POST /webhook/messaging]. *)
Record t := mk {
  From : string;
  Body : option string;
  ButtonPayload : option string
}.
End MessagingBody.

Module OutboundBody.
(** Body of [POST /api/calls/outbound], after validation. *)
Record t := mk {
  contactId : string;
  toNumber : string;
  agentIdentity : string;
  notes : option string
}.
End OutboundBody.

Module OutboundEnv.
Record t := mk {
  (** [new Date()] inside [canMakeCall] *)
  now_check : Z;
  (** [new Date()] for [startTime] *)
  now_start : Z;
  call_uuid : string;
  (** [twilioService.whatsappNumber] *)
  whatsappNumber : string;
  (** [twilioService.makeOutboundCall]: the sid of the new call *)
  dial : Outcome string
}.
End OutboundEnv.

Module PermissionBody.
(** Body of [POST /api/calls/permission/request], after validation. *)
Record t := mk {
  contactId : string;
  whatsappNumber : string
}.
End PermissionBody.

Module PermissionEnv.
Record t := mk {
  (** [Date.now()] of the 24-hour query *)
  now_day : Z;
  (** [Date.now()] of the 7-day query *)
  now_week : Z;
  (** [new Date()] for [requestedAt] *)
  now_requested : Z;
  (** the [createdAt] timestamp the ORM gives the new row *)
  now_created : Z;
  (** [Date.now()] for [expiresAt] *)
  now_expires : Z;
  permission_uuid : string;
  (** [twilioService.sendCallPermissionRequest]: the sid of the message *)
  send : Outcome string
}.
End PermissionEnv.

Module TwilioCall.
(** What [twilioService.getCall] returns, as far as it is read.  The
    provider reports [duration] as a numeric string or null; it is kept
    here by its numeric value, and any present value is truthy. *)
Record t := mk {
  status : string;
  duration : option Z;
  endTime : option Z
}.
End TwilioCall.

(** ** The handlers *)

Module Webhooks.

(** [whatsapp_number || mobilephone] *)
Definition synced_number (p : HubSpotProps.t) : JS.Field string :=
  JS.or_else (HubSpotProps.whatsapp_number p) (HubSpotProps.mobilephone p).

(** [HubSpotContact.prototype.syncFromHubSpot]: the row after
    [this.update(updates)], [now] being the [new Date()] of
    [lastSyncedAt]. *)
Definition syncFromHubSpot (p : HubSpotProps.t) (now : Z) (r : HubSpotContact.t)
  : HubSpotContact.t :=
  HubSpotContact.mk (HubSpotContact.id r) (HubSpotContact.hubspotContactId r)
    (JS.updated (HubSpotProps.email p) (HubSpotContact.email r))
    (JS.updated (HubSpotProps.phone p) (HubSpotContact.phone r))
    (JS.updated (synced_number p) (HubSpotContact.whatsappNumber r))
    (JS.updated (HubSpotProps.firstname p) (HubSpotContact.firstName r))
    (JS.updated (HubSpotProps.lastname p) (HubSpotContact.lastName r))
    (JS.updated (HubSpotProps.company p) (HubSpotContact.company r))
    now (Some p) (HubSpotContact.deleted r).

(** The row [syncContact] creates for a contact it does not hold. *)
Definition new_synced_contact (e : InboundEnv.t) (hubspotContactId : string)
           (p : HubSpotProps.t) : HubSpotContact.t :=
  HubSpotContact.mk (InboundEnv.contact_uuid e) hubspotContactId
    (JS.stored (HubSpotProps.email p)) (JS.stored (HubSpotProps.phone p))
    (JS.stored (synced_number p)) (JS.stored (HubSpotProps.firstname p))
    (JS.stored (HubSpotProps.lastname p)) (JS.stored (HubSpotProps.company p))
    (InboundEnv.now_synced e) (Some p) false.

(** [hubspotService.syncContact] *)
Definition syncContact (e : InboundEnv.t) (hubspotContactId : string)
  : M HubSpotContact.t :=
  hubspotContact <- await (InboundEnv.getContact e) ;;
  localContact <- Contacts.findOne_hubspotContactId hubspotContactId ;;
  match localContact with
  | Some c =>
      Contacts.validate (InboundEnv.isEmail e) (HubSpotProps.email hubspotContact) ;;;
      Contacts.update (HubSpotContact.id c)
        (syncFromHubSpot hubspotContact (InboundEnv.now_synced e)) ;;;
      ret (syncFromHubSpot hubspotContact (InboundEnv.now_synced e) c)
  | None =>
      Contacts.validate (InboundEnv.isEmail e) (HubSpotProps.email hubspotContact) ;;;
      Contacts.create (new_synced_contact e hubspotContactId hubspotContact)
  end.

(** The row [/voice/inbound] creates for a caller the CRM does not
    know. *)
Definition new_caller (e : InboundEnv.t) (hubspotContact From : string)
  : HubSpotContact.t :=
  HubSpotContact.mk (InboundEnv.contact_uuid e) hubspotContact None None
    (Some (JS.replace "whatsapp:" "" From)) (Some "WhatsApp") (Some "Caller") None
    (InboundEnv.now_synced e) None false.

(** The find-or-create of the contact at the head of [/voice/inbound]. *)
Definition resolve_contact (e : InboundEnv.t) (From : string)
  : M HubSpotContact.t :=
  contact <- Contacts.findOne_whatsappNumber (JS.replace "whatsapp:" "" From) ;;
  match contact with
  | Some c => ret c
  | None =>
      hubspotContacts <- await (InboundEnv.search e) ;;
      match hubspotContacts with
      | h :: _ => syncContact e h
      | [] =>
          hubspotContact <- await (InboundEnv.createContact e) ;;
          Contacts.create (new_caller e hubspotContact From)
      end
  end.

(** The row [/voice/inbound] creates. *)
Definition new_inbound_call (e : InboundEnv.t) (b : InboundBody.t)
           (contact : HubSpotContact.t) : Call.t :=
  Call.mk (InboundEnv.call_uuid e) (InboundBody.CallSid b) None
    (HubSpotContact.id contact) inbound "ringing"
    (InboundBody.From b) (InboundBody.To b) (Some 0)
    (Some (InboundEnv.now e)) None None None None None.

(** [POST /voice/inbound] *)
Definition voice_inbound (e : InboundEnv.t) (b : InboundBody.t) : M Response :=
  try_catch
    (contact <- resolve_contact e (InboundBody.From b) ;;
     call <- Calls.create (new_inbound_call e b contact) ;;
     Logs.create (CallLog.mk (Call.id call) "inbound_call_received"
                    (Some "ringing") "twilio") ;;;
     ret (mkResp 200 "<Dial><Conference>"))
    (fun _ => ret (mkResp 200 "<Say>We are currently unable to take your call")).

(** The column writes of [call.update(updates)] in [/call-status]. *)
Definition status_updates (now : Z) (b : StatusBody.t) (call : Call.t)
  : Call.t -> Call.t :=
  fun r =>
    let r := Call.set_status (StatusBody.CallStatus b) r in
    let r := match StatusBody.CallDuration b with
             | Some d => if JS.truthy (Some d)
                         then Call.set_duration (JS.parseInt d) r else r
             | None => r
             end in
    let r := if JS.truthy (StatusBody.RecordingUrl b)
             then Call.set_recordingUrl (StatusBody.RecordingUrl b) r else r in
    if (StatusBody.CallStatus b =? "completed")%string
       && negb (is_some (Call.endTime call))
    then Call.set_endTime (Some now) r else r.

(** The permission looked up in both branches of [/call-status]:
    [{ contactId: call.contactId, status: 'approved' }], newest first. *)
Definition approved_for_contact (contact : string) (p : CallPermission.t) : bool :=
  (CallPermission.contactId p =? contact)%string
  && (CallPermission.status p =? "approved")%string.

(** The missed-call branch of [/call-status].  The threshold test reads
    [permission.consecutiveMissedCalls] from the instance that
    [incrementMissedCalls] hands back (see [Permissions.increment]). *)
Definition record_no_answer (call : Call.t) : M unit :=
  permission <- Permissions.findOne (approved_for_contact (Call.contactId call)) ;;
  match permission with
  | Some permission =>
      permission <- Permissions.incrementMissedCalls permission ;;
      if 4 <=? CallPermission.consecutiveMissedCalls permission
      then Permissions.update_status permission "expired" (fun r => r) ;;; ret tt
      else ret tt
  | None => ret tt
  end.

(** The answered branch of [/call-status]. *)
Definition record_answered (call : Call.t) : M unit :=
  permission <- Permissions.findOne (approved_for_contact (Call.contactId call)) ;;
  match permission with
  | Some permission => Permissions.resetMissedCalls permission ;;; ret tt
  | None => ret tt
  end.

(** [POST /call-status].  [now] is the [new Date()] written to
    [endTime]. *)
Definition call_status (now : Z) (b : StatusBody.t) : M Response :=
  try_catch
    (call <- Calls.findOne_twilioCallSid (StatusBody.CallSid b) ;;
     match call with
     | Some call =>
         Calls.update (Call.id call) (status_updates now b call) ;;;
         Logs.create (CallLog.mk (Call.id call) "status_update"
                        (Some (StatusBody.CallStatus b)) "twilio") ;;;
         (if (StatusBody.CallStatus b =? "no-answer")%string
             && Direction_eqb (Call.direction call) outbound
          then record_no_answer call
          else if (StatusBody.CallStatus b =? "answered")%string
                  && Direction_eqb (Call.direction call) outbound
          then record_answered call
          else ret tt) ;;;
         ret (mkResp 200 "OK")
     | None => ret (mkResp 200 "OK")
     end)
    (fun _ => ret (mkResp 500 "Error")).

(** The [where] clause of the permission lookup of [/messaging]. *)
Definition pending_for_number (number : string) (p : CallPermission.t) : bool :=
  (CallPermission.whatsappNumber p =? number)%string
  && (CallPermission.status p =? "pending")%string.

(** Is the message a reply to a consent prompt? *)
Definition is_consent_reply (b : MessagingBody.t) : bool :=
  match MessagingBody.Body b with
  | Some s => (s =? "VOICE_CALL_REQUEST")%string
  | None => false
  end && JS.truthy (MessagingBody.ButtonPayload b).

(** The status a consent reply asks for. *)
Definition reply_status (b : MessagingBody.t) : string :=
  match MessagingBody.ButtonPayload b with
  | Some "ACCEPTED" => "approved"
  | _ => "rejected"
  end.

(** [POST /messaging] *)
Definition messaging (now : Z) (b : MessagingBody.t) : M Response :=
  try_catch
    ((if is_consent_reply b
      then
        let cleanNumber := JS.replace "whatsapp:" "" (MessagingBody.From b) in
        permission <- Permissions.findOne (pending_for_number cleanNumber) ;;
        match permission with
        | Some permission =>
            let newStatus := reply_status b in
            Permissions.update_status permission newStatus
              (CallPermission.set_respondedAt (Some now)) ;;;
            ret tt
        | None => ret tt
        end
      else ret tt) ;;;
     ret (mkResp 200 "OK"))
    (fun _ => ret (mkResp 500 "Error")).

(** [POST /conference/:callId] *)
Definition conference (callId StatusCallbackEvent : string) : M Response :=
  try_catch
    (call <- Calls.findByPk callId ;;
     match call with
     | Some call =>
         Logs.create (CallLog.mk (Call.id call)
                        ("conference_" ++ StatusCallbackEvent) None "twilio")
     | None => ret tt
     end ;;;
     ret (mkResp 200 "OK"))
    (fun _ => ret (mkResp 500 "Error")).

(** [POST /recording/:callId] *)
Definition recording (callId : string) (RecordingUrl : option string) : M Response :=
  try_catch
    (call <- Calls.findByPk callId ;;
     match call with
     | Some call =>
         if JS.truthy RecordingUrl
         then Calls.update (Call.id call) (Call.set_recordingUrl RecordingUrl) ;;;
              Logs.create (CallLog.mk (Call.id call) "recording_available" None "twilio")
         else ret tt
     | None => ret tt
     end ;;;
     ret (mkResp 200 "OK"))
    (fun _ => ret (mkResp 500 "Error")).

End Webhooks.

Module Api.

(** The number [/outbound] dials: [toNumber] with the [whatsapp:] prefix. *)
Definition outbound_number (b : OutboundBody.t) : string :=
  if JS.startsWith (OutboundBody.toNumber b) "whatsapp:"
  then OutboundBody.toNumber b
  else "whatsapp:" ++ OutboundBody.toNumber b.

(** The [where] clause of the permission check of [/outbound]. *)
Definition approved_for_pair (contact number : string) (p : CallPermission.t) : bool :=
  (CallPermission.contactId p =? contact)%string
  && (CallPermission.whatsappNumber p =? number)%string
  && (CallPermission.status p =? "approved")%string.

(** The row [/outbound] creates, before the provider has assigned a sid. *)
Definition new_outbound_call (e : OutboundEnv.t) (b : OutboundBody.t) : Call.t :=
  Call.mk (OutboundEnv.call_uuid e) "" None
    (OutboundBody.contactId b) outbound "initiated"
    (OutboundEnv.whatsappNumber e) (outbound_number b) (Some 0)
    (Some (OutboundEnv.now_start e)) None None
    (OutboundBody.notes b)
    (Some (OutboundBody.agentIdentity b)) None.

(** [POST /outbound] *)
Definition outbound (e : OutboundEnv.t) (b : OutboundBody.t) : M Response :=
  try_catch
    (contact <- Contacts.findByPk (OutboundBody.contactId b) ;;
     match contact with
     | None => ret (mkResp 404 "Contact not found")
     | Some contact =>
         let whatsappNumber := outbound_number b in
         permission <- Permissions.findOne
                         (approved_for_pair (OutboundBody.contactId b)
                            (JS.replace "whatsapp:" "" whatsappNumber)) ;;
         match permission with
         | None => ret (mkResp 403 "Call permission required")
         | Some permission =>
             if negb (CallPermission.canMakeCall (OutboundEnv.now_check e) permission)
             then ret (mkResp 403 "Call permission required")
             else
               call <- Calls.create (new_outbound_call e b) ;;
               try_catch
                 (twilioCall <- await (OutboundEnv.dial e) ;;
                  Calls.update_twilioCallSid (Call.id call) twilioCall ;;;
                  Logs.create (CallLog.mk (Call.id call) "call_initiated"
                                 (Some "initiated") "system") ;;;
                  Permissions.incrementCallsUsed permission ;;;
                  ret (mkResp 200 "initiated"))
                 (fun twilioError =>
                    Calls.update (Call.id call) (Call.set_status "failed") ;;;
                    Logs.create (CallLog.mk (Call.id call) "call_failed"
                                   (Some "failed") "twilio") ;;;
                    throw twilioError)
         end
     end)
    (fun _ => ret (mkResp 500 "Failed to initiate call")).

(** The [where] clause of both rate-limit queries of
    [/permission/request]: the rows of the pair requested at or after
    [since]. *)
Definition requested_since (contact number : string) (since : Z)
           (p : CallPermission.t) : bool :=
  (CallPermission.contactId p =? contact)%string
  && (CallPermission.whatsappNumber p =? number)%string
  && (since <=? CallPermission.requestedAt p).

(** The row [/permission/request] creates. *)
Definition new_permission (e : PermissionEnv.t) (b : PermissionBody.t)
  : CallPermission.t :=
  CallPermission.mk (PermissionEnv.permission_uuid e)
    (PermissionBody.contactId b)
    (JS.replace "whatsapp:" "" (PermissionBody.whatsappNumber b)) "pending"
    (PermissionEnv.now_requested e) None
    (PermissionEnv.now_expires e + 7 * 24 * 60 * 60 * 1000)
    0 5 0 None (PermissionEnv.now_created e).

(** The inner [try] of [/permission/request]: the consent message for the
    row [permission] just created. *)
Definition dispatch_consent (e : PermissionEnv.t) (permission : CallPermission.t)
  : M Response :=
  try_catch
    (message <- await (PermissionEnv.send e) ;;
     Permissions.update permission
       (CallPermission.set_twilioMessageSid (Some message)) ;;;
     ret (mkResp 200 "pending"))
    (fun twilioError =>
       Permissions.update_status permission "failed" (fun r => r) ;;;
       throw twilioError).

(** [POST /permission/request] *)
Definition permission_request (e : PermissionEnv.t) (b : PermissionBody.t)
  : M Response :=
  try_catch
    (contact <- Contacts.findByPk (PermissionBody.contactId b) ;;
     match contact with
     | None => ret (mkResp 404 "Contact not found")
     | Some contact =>
         let cleanNumber := JS.replace "whatsapp:" "" (PermissionBody.whatsappNumber b) in
         recentPermissions <-
           Permissions.findAll
             (requested_since (PermissionBody.contactId b) cleanNumber
                (PermissionEnv.now_day e - 24 * 60 * 60 * 1000)) ;;
         if Config.maxRequestsPerDay <=? Z.of_nat (length recentPermissions)
         then ret (mkResp 429 "Rate limit exceeded")
         else
           weeklyPermissions <-
             Permissions.findAll
               (requested_since (PermissionBody.contactId b) cleanNumber
                  (PermissionEnv.now_week e - 7 * 24 * 60 * 60 * 1000)) ;;
           if Config.maxRequestsPer7Days <=? Z.of_nat (length weeklyPermissions)
           then ret (mkResp 429 "Rate limit exceeded")
           else
             permission <- Permissions.create (new_permission e b) ;;
             dispatch_consent e permission
     end)
    (fun _ => ret (mkResp 500 "Failed to send permission request")).

(** [GET /status/:callSid]; [getCall] is the outcome of
    [twilioService.getCall]. *)
Definition get_status (getCall : Outcome TwilioCall.t) (callSid : string)
  : M Response :=
  try_catch
    (call <- Calls.findOne_twilioCallSid callSid ;;
     match call with
     | None => ret (mkResp 404 "Call not found")
     | Some call =>
         try_catch
           (twilioCall <- await getCall ;;
            if negb (Call.status call =? TwilioCall.status twilioCall)%string
            then
              Calls.update (Call.id call)
                (fun r =>
                   Call.set_endTime
                     (match TwilioCall.endTime twilioCall with
                      | Some t => Some t
                      | None => Call.endTime call
                      end)
                     (Call.set_duration
                        (match TwilioCall.duration twilioCall with
                         | Some n => Some n
                         | None => Call.duration call
                         end)
                        (Call.set_status (TwilioCall.status twilioCall) r)))
            else ret tt)
           (fun twilioError => ret tt) ;;;
         contact <- Contacts.findByPk (Call.contactId call) ;;
         match contact with
         | Some _ => ret (mkResp 200 "status")
         | None => throw TypeError
         end
     end)
    (fun _ => ret (mkResp 500 "Failed to get call status")).

(** [POST /:callSid/hangup]; [hangupCall] is the outcome of
    [twilioService.hangupCall], [now] the [new Date()] for [endTime]. *)
Definition hangup (hangupCall : Outcome unit) (now : Z) (callSid : string)
  : M Response :=
  try_catch
    (call <- Calls.findOne_twilioCallSid callSid ;;
     match call with
     | None => ret (mkResp 404 "Call not found")
     | Some call =>
         await hangupCall ;;;
         Calls.update (Call.id call)
           (fun r => Call.set_endTime (Some now) (Call.set_status "completed" r)) ;;;
         Logs.create (CallLog.mk (Call.id call) "call_hangup"
                        (Some "completed") "system") ;;;
         ret (mkResp 200 "completed")
     end)
    (fun _ => ret (mkResp 500 "Failed to hang up call")).

(** Case ['onCallEnded'] of [POST /calling/events]. *)
Definition onCallEnded (now : Z) (callId : string) (engagementId : JS.Field string)
  : M Response :=
  try_catch
    (call <- Calls.findByPk callId ;;
     match call with
     | Some call =>
         Calls.update_hubspotCallId (Call.id call) engagementId
           (Call.set_endTime (Some now))
     | None => ret tt
     end ;;;
     ret (mkResp 200 "acknowledged"))
    (fun _ => ret (mkResp 500 "Failed to process event")).

(** Case ['onCallCompleted'] of [POST /calling/events].  The [metadata]
    column is written whole: the keys the call holds, with [outcome] set
    or, when the payload has none, gone. *)
Definition onCallCompleted (callId : string) (notes outcome : JS.Field string)
  : M Response :=
  try_catch
    (completedCall <- Calls.findByPk callId ;;
     match completedCall with
     | Some completedCall =>
         Calls.update (Call.id completedCall)
           (fun r => Call.set_outcome (JS.stored outcome)
                       (Call.set_notes (JS.updated notes (Call.notes r)) r))
     | None => ret tt
     end ;;;
     ret (mkResp 200 "acknowledged"))
    (fun _ => ret (mkResp 500 "Failed to process event")).

End Api.

(** ** Requests as events, and runs of the server *)

Inductive Request :=
| ReqVoiceInbound (e : InboundEnv.t) (b : InboundBody.t)
| ReqCallStatus (now : Z) (b : StatusBody.t)
| ReqMessaging (now : Z) (b : MessagingBody.t)
| ReqConference (callId StatusCallbackEvent : string)
| ReqRecording (callId : string) (RecordingUrl : option string)
| ReqOutbound (e : OutboundEnv.t) (b : OutboundBody.t)
| ReqPermissionRequest (e : PermissionEnv.t) (b : PermissionBody.t)
| ReqGetStatus (getCall : Outcome TwilioCall.t) (callSid : string)
| ReqHangup (hangupCall : Outcome unit) (now : Z) (callSid : string)
| ReqOnCallEnded (now : Z) (callId : string) (engagementId : JS.Field string)
| ReqOnCallCompleted (callId : string) (notes outcome : JS.Field string).

Definition handle (r : Request) : M Response :=
  match r with
  | ReqVoiceInbound e b => Webhooks.voice_inbound e b
  | ReqCallStatus now b => Webhooks.call_status now b
  | ReqMessaging now b => Webhooks.messaging now b
  | ReqConference k ev => Webhooks.conference k ev
  | ReqRecording k u => Webhooks.recording k u
  | ReqOutbound e b => Api.outbound e b
  | ReqPermissionRequest e b => Api.permission_request e b
  | ReqGetStatus g sid => Api.get_status g sid
  | ReqHangup h now sid => Api.hangup h now sid
  | ReqOnCallEnded now k g => Api.onCallEnded now k g
  | ReqOnCallCompleted k n o => Api.onCallCompleted k n o
  end.

(** The database after a request, and after a sequence of requests handled
    one after the other. *)
Definition step (r : Request) (db : DB) : DB := snd (handle r db).

Definition run (rs : list Request) (db : DB) : DB :=
  fold_left (fun db r => step r db) rs db.

(** ** Vocabulary of the properties *)

(** The terminal call statuses. *)
Definition terminal (s : string) : bool :=
  existsb (String.eqb s) ["completed"; "failed"; "busy"; "no-answer"; "canceled"].

Definition call_by_sid (sid : string) (db : DB) : option Call.t :=
  find (fun c => (Call.twilioCallSid c =? sid)%string) (calls db).

Definition contact_by_id (k : string) (db : DB) : option HubSpotContact.t :=
  find (fun c => (HubSpotContact.id c =? k)%string) (contacts db).

Definition permission_by_id (k : string) (db : DB) : option CallPermission.t :=
  find (fun p => (CallPermission.id p =? k)%string) (permissions db).

(** The newest approved permission of a contact, whatever its number. *)
Definition newest_approved (contact : string) (db : DB) : option CallPermission.t :=
  Permissions.latest (filter (Webhooks.approved_for_contact contact) (permissions db)).

(** Rewriting the rows with key [k] of the permission table. *)
Definition on_permission (k : string) (f : CallPermission.t -> CallPermission.t)
           (l : list CallPermission.t) : list CallPermission.t :=
  map (fun p => if (CallPermission.id p =? k)%string then f p else p) l.

Definition on_call (k : string) (f : Call.t -> Call.t) (l : list Call.t) : list Call.t :=
  map (fun c => if (Call.id c =? k)%string then f c else c) l.

(** The declared keys: primary keys of [calls], and the unique column
    [twilioCallSid]. *)
Definition calls_keys_ok (db : DB) : Prop :=
  NoDup (map Call.id (calls db)) /\ NoDup (map Call.twilioCallSid (calls db)).

(** The number of rate-limit-relevant requests of a pair since [since]. *)
Definition requests_since (contact number : string) (since : Z) (db : DB) : Z :=
  Z.of_nat (length (filter (Api.requested_since contact number since) (permissions db))).

(** The requests that are deliveries of provider events (the webhooks). *)
Definition provider_event (r : Request) : bool :=
  match r with
  | ReqVoiceInbound _ _ | ReqCallStatus _ _ | ReqMessaging _ _
  | ReqConference _ _ | ReqRecording _ _ => true
  | _ => false
  end.

(** The pending permissions a consent reply from [From] may be matched
    with. *)
Definition pending_requests (b : MessagingBody.t) (db : DB) : list CallPermission.t :=
  filter (Webhooks.pending_for_number (JS.replace "whatsapp:" "" (MessagingBody.From b)))
         (permissions db).

(** The net effect of [/call-status] on the permission table, for an event
    [b] resolved to the call [c]. *)
Definition status_event_permissions (b : StatusBody.t) (c : Call.t)
           (l : list CallPermission.t) : list CallPermission.t :=
  let newest := Permissions.latest
                  (filter (Webhooks.approved_for_contact (Call.contactId c)) l) in
  if (StatusBody.CallStatus b =? "no-answer")%string
     && Direction_eqb (Call.direction c) outbound
  then match newest with
       | Some p =>
           let l1 := on_permission (CallPermission.id p)
                       (fun r => CallPermission.set_consecutiveMissedCalls
                                   (CallPermission.consecutiveMissedCalls r + 1) r) l in
           if 4 <=? CallPermission.consecutiveMissedCalls p
           then on_permission (CallPermission.id p) (CallPermission.set_status "expired") l1
           else l1
       | None => l
       end
  else if (StatusBody.CallStatus b =? "answered")%string
          && Direction_eqb (Call.direction c) outbound
  then match newest with
       | Some p => on_permission (CallPermission.id p)
                     (CallPermission.set_consecutiveMissedCalls 0) l
       | None => l
       end
  else l.

(** All permission requests ever made for a pair, oldest first. *)
Definition pair_requests (contact number : string) (db : DB) : list CallPermission.t :=
  filter (fun p => (CallPermission.contactId p =? contact)%string
                   && (CallPermission.whatsappNumber p =? number)%string)
         (permissions db).

(** The permission [/outbound] checks: the newest approved one of the
    contact for the number to dial. *)
Definition outbound_permission (b : OutboundBody.t) (db : DB) : option CallPermission.t :=
  Permissions.latest
    (filter (Api.approved_for_pair (OutboundBody.contactId b)
               (JS.replace "whatsapp:" "" (Api.outbound_number b)))
       (permissions db)).

(** Is [b] a missed-call event, that is a [no-answer] status for a known
    outbound call? *)
Definition counts_as_missed (b : StatusBody.t) (db : DB) : bool :=
  match call_by_sid (StatusBody.CallSid b) db with
  | Some c => (StatusBody.CallStatus b =? "no-answer")%string
              && Direction_eqb (Call.direction c) outbound
  | None => false
  end.

(** The deliveries that may be repeated without a further effect on calls
    and permissions: every provider event except a missed-call event, and
    except a consent reply while more than one request is pending for the
    number. *)
Definition redelivery_safe (r : Request) (db : DB) : bool :=
  match r with
  | ReqCallStatus _ b => negb (counts_as_missed b db)
  | ReqMessaging _ b => (length (pending_requests b db) <=? 1)%nat
  | _ => true
  end.

(** A computation keeps a property of the database. *)
Definition preserves {A} (I : DB -> Prop) (m : M A) : Prop :=
  forall db, I db -> I (snd (m db)).

(** ** Sample data *)

Module Sample.

Definition ada : HubSpotContact.t :=
  HubSpotContact.mk "c-ada" "hs-101" (Some "ada@example.org") None (Some "+15550001")
    (Some "Ada") (Some "Lovelace") None 100 None false.

(** An outbound call to Ada's first number, already completed. *)
Definition completed_call : Call.t :=
  Call.mk "call-1" "CA1" None "c-ada" outbound "completed"
    "whatsapp:+15559999" "whatsapp:+15550001" (Some 42) (Some 1000) (Some 43000)
    None None (Some "agent-7") None.

(** The same call while it is still ringing. *)
Definition ringing_call : Call.t := Call.set_endTime None (Call.set_status "ringing" completed_call).

(** An approved permission for Ada's first number. *)
Definition perm (missed : Z) : CallPermission.t :=
  CallPermission.mk "perm-1" "c-ada" "+15550001" "approved" 500 (Some 600)
    (500 + week_ms) 0 5 missed None 500.

(** A newer approved permission for another number of the same contact. *)
Definition perm_other : CallPermission.t :=
  CallPermission.mk "perm-2" "c-ada" "+15550002" "approved" 700 (Some 800)
    (700 + week_ms) 0 5 0 None 700.

Definition db_completed : DB := mkDB [ada] [completed_call] [perm 0] [].
Definition db_ringing (missed : Z) : DB := mkDB [ada] [ringing_call] [perm missed] [].
Definition db_two_numbers : DB := mkDB [ada] [ringing_call] [perm 0; perm_other] [].
Definition db_contact_only : DB := mkDB [ada] [] [] [].

Definition status_event (s : string) : StatusBody.t := StatusBody.mk "CA1" s None None.

(** A request to call Ada's first number, and a provider that accepts it. *)
Definition dial_request : OutboundBody.t :=
  OutboundBody.mk "c-ada" "+15550001" "agent-7" None.

Definition dial_env (dial : Outcome string) : OutboundEnv.t :=
  OutboundEnv.mk 1000 1000 "call-9" "whatsapp:+15559999" dial.

Definition db_approved : DB := mkDB [ada] [] [perm 0] [].

(** Two consent requests for Ada's first number, both still pending, and
    her reply declining. *)
Definition pending (k : string) (at_ : Z) : CallPermission.t :=
  CallPermission.mk k "c-ada" "+15550001" "pending" at_ None (at_ + week_ms)
    0 5 0 None at_.

Definition db_two_pending : DB :=
  mkDB [ada] [] [pending "perm-a" 1000; pending "perm-b" (1000 + 25 * hour_ms)] [].

Definition decline : MessagingBody.t :=
  MessagingBody.mk "whatsapp:+15550001" (Some "VOICE_CALL_REQUEST") (Some "REJECTED").

(** An inbound call from Ada's first number. *)
Definition inbound_body (sid : string) : InboundBody.t :=
  InboundBody.mk sid "whatsapp:+15550001" "whatsapp:+15559999" "ringing".

Definition inbound_env (uuid : string) : InboundEnv.t :=
  InboundEnv.mk 90000 uuid "c-new" (Throw HubSpotError) (Throw HubSpotError)
    (Throw HubSpotError) 90000 (fun _ => true).

(** Permission requests for Ada's first number.  [t0] is the time of a
    first request, [now] the time of the request at hand. *)
Definition permission_body : PermissionBody.t :=
  PermissionBody.mk "c-ada" "whatsapp:+15550001".

Definition permission_env (uuid : string) (now : Z) (send : Outcome string)
  : PermissionEnv.t :=
  PermissionEnv.mk now now now now now uuid send.

Definition t0 : Z := 1700000000000.

(** A request of [permission_body] on record, made at [t0] and still
    pending, and the state that holds it. *)
Definition pending_request : CallPermission.t :=
  CallPermission.mk "perm-a" "c-ada" "+15550001" "pending" t0 None (t0 + week_ms)
    0 5 0 (Some "SM1") t0.

Definition db_requested_once : DB := mkDB [ada] [] [pending_request] [].

End Sample.

(** * The rest of the routes

    The read-only API routes, the remaining webhook, the CRM routes that
    write, and the model methods of [HubSpotContact]; then the transition
    systems against which whole runs are stated. *)

From Stdlib Require Import Sorted.

(** ** More JavaScript primitives *)

Module Text.

Definition is_digit (c : ascii) : bool :=
  let n := nat_of_ascii c in (Nat.leb 48 n && Nat.leb n 57)%bool.

(** [s.replace(/\D/g, '')]: the decimal digits of [s], in order. *)
Fixpoint digits_only (s : string) : string :=
  match s with
  | EmptyString => EmptyString
  | String c s' => if is_digit c then String c (digits_only s') else digits_only s'
  end.

(** [s.includes(sub)] *)
Fixpoint includes (s sub : string) : bool :=
  if String.prefix sub s then true
  else match s with
       | EmptyString => false
       | String _ s' => includes s' sub
       end.

(** What follows the white-space character [s] starts with, if it starts
    with one; a character takes one to three bytes. *)
Definition space_head (s : string) : option string :=
  match s with
  | String c s1 =>
      if JS.is_space c then Some s1
      else match s1 with
           | String d s2 =>
               if JS.is_space2 c d then Some s2
               else match s2 with
                    | String f s3 => if JS.is_space3 c d f then Some s3 else None
                    | EmptyString => None
                    end
           | EmptyString => None
           end
  | EmptyString => None
  end.

(** [s.trimStart()]: the white space is that of [JS.skip_spaces]. *)
Definition trim_start (s : string) : string := JS.skip_spaces s.

(** [s.trimEnd()]: [s] up to the point from which only white space
    follows. *)
Fixpoint trim_end (s : string) : string :=
  match s with
  | EmptyString => EmptyString
  | String c s' =>
      match JS.skip_spaces s with
      | EmptyString => EmptyString
      | String _ _ => String c (trim_end s')
      end
  end.

(** [s.trim()] *)
Definition trim (s : string) : string := trim_end (trim_start s).

(** [v || ''] for an optional string column. *)
Definition or_empty (v : option string) : string :=
  match v with Some s => s | None => "" end.

(** [parseInt(v) || d] for an optional query parameter: [undefined], a
    value that is not a number, and 0 all give the default. *)
Definition number_or (v : option string) (d : Z) : Z :=
  match v with
  | Some s => match JS.parseInt s with
              | Some 0 | None => d
              | Some n => n
              end
  | None => d
  end.

End Text.

(** ** Ordered queries *)

Module Order.

Section Sorting.

Context {A : Type}.

(** [goes_before x y]: in the order asked for, [x] may stand before [y]. *)
Variable goes_before : A -> A -> bool.

Fixpoint insert (x : A) (l : list A) : list A :=
  match l with
  | [] => [x]
  | y :: l' => if goes_before x y then x :: l else y :: insert x l'
  end.

(** The rows in the order asked for; rows the order does not separate stay
    in insertion order. *)
Fixpoint sort (l : list A) : list A :=
  match l with
  | [] => []
  | x :: l' => insert x (sort l')
  end.

End Sorting.

(** [order: [['createdAt', 'DESC']]] *)
Definition createdAt_desc (p q : CallPermission.t) : bool :=
  CallPermission.createdAt q <=? CallPermission.createdAt p.

(** [order: [['startTime', 'DESC']]]; a null [startTime] sorts below every
    date, hence last. *)
Definition startTime_desc (c d : Call.t) : bool :=
  match Call.startTime c, Call.startTime d with
  | Some a, Some b => b <=? a
  | Some _, None => true
  | None, Some _ => false
  | None, None => true
  end.

(** [LIMIT n]: a negative limit is no limit. *)
Definition limit {A} (n : Z) (l : list A) : list A :=
  if n <? 0 then l else firstn (Z.to_nat n) l.

(** [OFFSET n]: a negative offset is no offset. *)
Definition offset {A} (n : Z) (l : list A) : list A := skipn (Z.to_nat n) l.

End Order.

(** ** Instance methods of [HubSpotContact] *)

Module ContactMethods.

(** [HubSpotContact.prototype.getFullName] *)
Definition getFullName (c : HubSpotContact.t) : string :=
  Text.trim (Text.or_empty (HubSpotContact.firstName c) ++ " "
             ++ Text.or_empty (HubSpotContact.lastName c)).

(** [HubSpotContact.prototype.getWhatsAppFormatted]; [None] is [null]. *)
Definition getWhatsAppFormatted (c : HubSpotContact.t) : option string :=
  match HubSpotContact.whatsappNumber c with
  | None => None
  | Some n =>
      if (n =? "")%string then None
      else Some (if JS.startsWith n "whatsapp:" then n else "whatsapp:" ++ n)
  end.

End ContactMethods.

(** ** Replies that carry data *)

(** The reply of a route: the JSON body of a 200, or an error status with
    its [error] text. *)
Inductive Reply (A : Type) :=
| Json (a : A)
| Failed (status : Z) (error : string).
Arguments Json {A} a.
Arguments Failed {A} status error.

(** [try { ... res.json(a) } catch { res.status(500).json({ error }) }] *)
Definition route {A} (m : M (Reply A)) (error : string) : M (Reply A) :=
  try_catch m (fun _ => ret (Failed 500 error)).

Definition count {A} (P : A -> bool) (l : list A) : Z := Z.of_nat (length (filter P l)).

(** ** The read-only routes of [routes/calls.js] *)

Module History.

(** [Call.findAll({ where: { contactId }, order: [['startTime', 'DESC']],
    limit, offset })] *)
Definition page (contactId : string) (limit offset : Z) (db : DB) : list Call.t :=
  Order.limit limit
    (Order.offset offset
       (Order.sort Order.startTime_desc
          (filter (fun c => (Call.contactId c =? contactId)%string) (calls db)))).

(** [Call.count({ where: { contactId } })] *)
Definition count_of (contactId : string) (db : DB) : Z :=
  count (fun c => (Call.contactId c =? contactId)%string) (calls db).

Record t := mk {
  calls : list Call.t;
  total : Z;
  limit : Z;
  offset : Z;
  hasMore : bool
}.

(** [GET /history/:contactId]; [limit] and [offset] are the query
    parameters as received. *)
Definition history (contactId : string) (limit offset : option string) : M (Reply t) :=
  route
    (let limit := Text.number_or limit 20 in
     let offset := Text.number_or offset 0 in
     fun db =>
       (Ok (Json (mk (page contactId limit offset db) (count_of contactId db)
                     limit offset (offset + limit <? count_of contactId db))), db))
    "Failed to get call history".

End History.

(** ** The remaining webhook *)

Module Webhooks2.

(** [CallStatus === s || DialCallStatus === s] *)
Definition either_is (CallStatus DialCallStatus : option string) (s : string) : bool :=
  match CallStatus with Some a => (a =? s)%string | None => false end
  || match DialCallStatus with Some a => (a =? s)%string | None => false end.

(** The TwiML of [/voice/outbound/:callId], by its first verb. *)
Definition outbound_twiml (CallStatus DialCallStatus : option string) : string :=
  if either_is CallStatus DialCallStatus "answered" then "<Dial><Conference>"
  else if either_is CallStatus DialCallStatus "busy"
  then "<Say>The number you are calling is busy"
  else if either_is CallStatus DialCallStatus "no-answer"
  then "<Say>There was no answer"
  else if either_is CallStatus DialCallStatus "failed"
  then "<Say>The call could not be completed"
  else "".

(** [POST /voice/outbound/:callId] *)
Definition voice_outbound (callId : string) (CallStatus DialCallStatus : option string)
  : M Response :=
  try_catch
    (call <- Calls.findByPk callId ;;
     match call with
     | None => ret (mkResp 404 "Call not found")
     | Some call => ret (mkResp 200 (outbound_twiml CallStatus DialCallStatus))
     end)
    (fun _ => ret (mkResp 200 "<Say>An error occurred")).

End Webhooks2.

(** ** The routes of [routes/hubspot.js] *)

Module PermissionsView.
(** Body of [GET /contacts/:contactId/permissions]. *)
Record t := mk {
  hasPermission : bool;
  canMakeCall : bool;
  activePermission : option CallPermission.t;
  recentPermissions : list CallPermission.t
}.
End PermissionsView.

Module Analytics.
(** Body of [GET /analytics/calls], without [averageDuration] (the
    floating-point quotient of [totalDuration] by [totalCalls]).  A recent
    call is listed with the full name and number of its contact. *)
Record t := mk {
  totalCalls : Z;
  inboundCalls : Z;
  outboundCalls : Z;
  completedCalls : Z;
  failedCalls : Z;
  totalDuration : Z;
  by_completed : Z;
  by_failed : Z;
  by_busy : Z;
  by_no_answer : Z;
  by_canceled : Z;
  recentCalls : list (Call.t * (string * option string))
}.
End Analytics.

Module WebhookBody.
(** Body of [POST /api/hubspot/webhooks], after validation. *)
Record t := mk {
  objectId : option string;
  subscriptionType : string;
  propertyName : option string
}.
End WebhookBody.

Inductive DialAction :=
| requestPermission (contactId whatsappNumber : string)
| initiateCall (contactId whatsappNumber : string)
| unsupported.

Module Crm.

(** [CallPermission.findAll({ where: { contactId }, order: [['createdAt',
    'DESC']] })] *)
Definition permissions_of (contactId : string) (db : DB) : list CallPermission.t :=
  Order.sort Order.createdAt_desc
    (filter (fun p => (CallPermission.contactId p =? contactId)%string) (permissions db)).

(** The test of both [permissions.find] calls. *)
Definition usable (now : Z) (p : CallPermission.t) : bool :=
  (CallPermission.status p =? "approved")%string && CallPermission.canMakeCall now p.

(** [GET /contacts/:contactId/permissions].  [now_find] is the clock while
    the list is searched, [now_again] the clock of the second
    [canMakeCall()] for the reply. *)
Definition contact_permissions (now_find now_again : Z) (contactId : string)
  : M (Reply PermissionsView.t) :=
  route
    (fun db =>
       let permissions := permissions_of contactId db in
       let activePermission := find (usable now_find) permissions in
       (Ok (Json (PermissionsView.mk
                    (is_some activePermission)
                    match activePermission with
                    | Some p => CallPermission.canMakeCall now_again p
                    | None => false
                    end
                    activePermission
                    (firstn 5 permissions))), db))
    "Failed to get permissions".

(** The [where] clause of [GET /analytics/calls]. *)
Definition in_scope (startDate endDate : option Z) (contactId : option string)
           (c : Call.t) : bool :=
  match contactId with
  | Some k => if (k =? "")%string then true else (Call.contactId c =? k)%string
  | None => true
  end
  && match startDate, endDate with
     | None, None => true
     | _, _ =>
         match Call.startTime c with
         | Some t =>
             match startDate with Some lo => lo <=? t | None => true end
             && match endDate with Some hi => t <=? hi | None => true end
         | None => false
         end
     end.

(** [c.duration || 0] *)
Definition duration_or_0 (c : Call.t) : Z :=
  match Call.duration c with Some d => d | None => 0 end.

Definition has_status (s : string) (c : Call.t) : bool := (Call.status c =? s)%string.

(** One entry of [recentCalls]: it reads [call.contact], the joined contact
    row, and throws when there is none. *)
Definition recent_entry (db : DB) (c : Call.t)
  : Outcome (Call.t * (string * option string)) :=
  match find (fun k => (HubSpotContact.id k =? Call.contactId c)%string) (contacts db) with
  | Some k => Ok (c, (ContactMethods.getFullName k, HubSpotContact.whatsappNumber k))
  | None => Throw TypeError
  end.

Fixpoint map_outcome {A B} (f : A -> Outcome B) (l : list A) : Outcome (list B) :=
  match l with
  | [] => Ok []
  | x :: l' =>
      match f x with
      | Ok y => match map_outcome f l' with
                | Ok ys => Ok (y :: ys)
                | Throw e => Throw e
                end
      | Throw e => Throw e
      end
  end.

(** [GET /analytics/calls]; the dates are the query parameters as
    [new Date(...)] reads them. *)
Definition analytics (startDate endDate : option Z) (contactId : option string)
  : M (Reply Analytics.t) :=
  route
    (fun db =>
       let calls := Order.sort Order.startTime_desc
                      (filter (in_scope startDate endDate contactId) (calls db)) in
       match map_outcome (recent_entry db) (firstn 10 calls) with
       | Ok recent =>
           (Ok (Json (Analytics.mk
                        (Z.of_nat (length calls))
                        (count (fun c => Direction_eqb (Call.direction c) inbound) calls)
                        (count (fun c => Direction_eqb (Call.direction c) outbound) calls)
                        (count (has_status "completed") calls)
                        (count (fun c => existsb (String.eqb (Call.status c))
                                           ["failed"; "busy"; "no-answer"]) calls)
                        (fold_left (fun sum c => sum + duration_or_0 c) calls 0)
                        (count (has_status "completed") calls)
                        (count (has_status "failed") calls)
                        (count (has_status "busy") calls)
                        (count (has_status "no-answer") calls)
                        (count (has_status "canceled") calls)
                        recent)), db)
       | Throw e => (Throw e, db)
       end)
    "Failed to get analytics".

(** [POST /contacts/:hubspotContactId/sync].  Of the environment only
    [getContact], [contact_uuid], [now_synced] and [isEmail] are read. *)
Definition contact_sync (e : InboundEnv.t) (hubspotContactId : string)
  : M (Reply HubSpotContact.t) :=
  route
    (contact <- Webhooks.syncContact e hubspotContactId ;;
     ret (Json contact))
    "Failed to sync contact".

(** Case ['onDialNumber'] of [POST /calling/events]; [objectId] is
    [calleeInfo.objectId], [now] the clock of [canMakeCall()]. *)
Definition onDialNumber (e : InboundEnv.t) (now : Z) (phoneNumber objectId : string)
  : M (Reply DialAction) :=
  route
    (found <- Contacts.findOne_hubspotContactId objectId ;;
     contact <- match found with
                | Some c => ret c
                | None => Webhooks.syncContact e objectId
                end ;;
     let isWhatsApp :=
       Text.includes phoneNumber "whatsapp"
       || match HubSpotContact.whatsappNumber contact with
          | Some n => (n =? Text.digits_only phoneNumber)%string
          | None => false
          end in
     if isWhatsApp
     then
       let whatsappNumber :=
         if JS.startsWith phoneNumber "whatsapp:" then phoneNumber
         else "whatsapp:" ++ Text.digits_only phoneNumber in
       permission <- Permissions.findOne
                       (Api.approved_for_pair (HubSpotContact.id contact)
                          (JS.replace "whatsapp:" "" whatsappNumber)) ;;
       match permission with
       | Some p =>
           if CallPermission.canMakeCall now p
           then ret (Json (initiateCall (HubSpotContact.id contact) whatsappNumber))
           else ret (Json (requestPermission (HubSpotContact.id contact) whatsappNumber))
       | None => ret (Json (requestPermission (HubSpotContact.id contact) whatsappNumber))
       end
     else ret (Json unsupported))
    "Failed to process event".

(** [hubspotService.syncContact(objectId)] with the [objectId] of a webhook,
    which validation lets be absent: the lookup by an undefined key
    throws. *)
Definition sync_object (e : InboundEnv.t) (objectId : option string) : M unit :=
  match objectId with
  | Some h => Webhooks.syncContact e h ;;; ret tt
  | None => await (InboundEnv.getContact e) ;;; throw TypeError
  end.

(** [CallPermission.update({ status: 'expired' }, { where: { contactId,
    status: 'pending' } })] *)
Definition expire_pending (contactId : string) (l : list CallPermission.t)
  : list CallPermission.t :=
  map (fun p => if (CallPermission.contactId p =? contactId)%string
                   && (CallPermission.status p =? "pending")%string
                then CallPermission.set_status "expired" p else p) l.

(** [POST /webhooks].  The deletion case marks the contact in its
    [metadata] column. *)
Definition webhooks (e : InboundEnv.t) (b : WebhookBody.t) : M Response :=
  try_catch
    ((if (WebhookBody.subscriptionType b =? "contact.propertyChange")%string
      then
        match WebhookBody.propertyName b with
        | Some "whatsapp_number" => sync_object e (WebhookBody.objectId b)
        | _ => ret tt
        end
      else if (WebhookBody.subscriptionType b =? "contact.creation")%string
      then sync_object e (WebhookBody.objectId b)
      else if (WebhookBody.subscriptionType b =? "contact.deletion")%string
      then
        match WebhookBody.objectId b with
        | None => throw TypeError
        | Some objectId =>
            deletedContact <- Contacts.findOne_hubspotContactId objectId ;;
            match deletedContact with
            | Some deletedContact =>
                (fun db =>
                   (Ok tt, mkDB (contacts db) (calls db)
                                (expire_pending (HubSpotContact.id deletedContact)
                                   (permissions db))
                                (logs db))) ;;;
                Contacts.update (HubSpotContact.id deletedContact)
                  (HubSpotContact.set_deleted true)
            | None => ret tt
            end
        end
      else ret tt) ;;;
     ret (mkResp 200 "processed"))
    (fun _ => ret (mkResp 500 "Failed to process webhook")).

End Crm.

(** ** All requests *)

Inductive CrmRequest :=
| ReqVoiceOutbound (callId : string) (CallStatus DialCallStatus : option string)
| ReqHistory (contactId : string) (limit offset : option string)
| ReqContactPermissions (now_find now_again : Z) (contactId : string)
| ReqAnalytics (startDate endDate : option Z) (contactId : option string)
| ReqContactSync (e : InboundEnv.t) (hubspotContactId : string)
| ReqOnDialNumber (e : InboundEnv.t) (now : Z) (phoneNumber objectId : string)
| ReqWebhooks (e : InboundEnv.t) (b : WebhookBody.t).

Inductive AnyRequest :=
| Core (r : Request)
| Other (r : CrmRequest).

(** The database a request leaves behind. *)
Definition step_any (r : AnyRequest) (db : DB) : DB :=
  match r with
  | Core r => step r db
  | Other (ReqVoiceOutbound k s d) => snd (Webhooks2.voice_outbound k s d db)
  | Other (ReqHistory k l o) => snd (History.history k l o db)
  | Other (ReqContactPermissions n1 n2 k) => snd (Crm.contact_permissions n1 n2 k db)
  | Other (ReqAnalytics s e k) => snd (Crm.analytics s e k db)
  | Other (ReqContactSync e h) => snd (Crm.contact_sync e h db)
  | Other (ReqOnDialNumber e now p o) => snd (Crm.onDialNumber e now p o db)
  | Other (ReqWebhooks e b) => snd (Crm.webhooks e b db)
  end.

Definition run_any (rs : list AnyRequest) (db : DB) : DB :=
  fold_left (fun db r => step_any r db) rs db.

Definition call_by_id (k : string) (db : DB) : option Call.t :=
  find (fun c => (Call.id c =? k)%string) (calls db).

Definition contact_by_hubspot_id (h : string) (db : DB) : option HubSpotContact.t :=
  find (fun c => (HubSpotContact.hubspotContactId c =? h)%string) (contacts db).

(** The declared keys of [hubspot_contacts]: the primary key and the
    unique column [hubspotContactId]. *)
Definition contacts_keys_ok (db : DB) : Prop :=
  NoDup (map HubSpotContact.id (contacts db))
  /\ NoDup (map HubSpotContact.hubspotContactId (contacts db)).

(** Every call row points to a stored contact. *)
Definition calls_have_contacts (db : DB) : Prop :=
  forall c, In c (calls db) -> contact_by_id (Call.contactId c) db <> None.

(** The contact keys of [db] are keys of [db1]. *)
Definition contacts_kept (db db1 : DB) : Prop :=
  forall k, contact_by_id k db <> None -> contact_by_id k db1 <> None.

(** [db'] is [db] but for the [lastSyncedAt] of its contacts. *)
Definition same_but_sync_time (db db' : DB) : Prop :=
  map (HubSpotContact.set_lastSyncedAt 0) (contacts db')
  = map (HubSpotContact.set_lastSyncedAt 0) (contacts db)
  /\ calls db' = calls db
  /\ permissions db' = permissions db
  /\ logs db' = logs db.

(** [db] with [lastSyncedAt] set to [now] on the contact with key [k]. *)
Definition synced_at (now : Z) (k : string) (db : DB) : DB :=
  mkDB (map (fun r => if (HubSpotContact.id r =? k)%string
                      then HubSpotContact.set_lastSyncedAt now r else r) (contacts db))
       (calls db) (permissions db) (logs db).

(** ** The tables as transition systems *)

(** The columns of a call that identify it. *)
Definition same_call_identity (c c' : Call.t) : Prop :=
  Call.id c' = Call.id c
  /\ Call.twilioCallSid c' = Call.twilioCallSid c
  /\ Call.contactId c' = Call.contactId c
  /\ Call.direction c' = Call.direction c
  /\ Call.fromNumber c' = Call.fromNumber c
  /\ Call.toNumber c' = Call.toNumber c
  /\ Call.startTime c' = Call.startTime c.

(** [l'] holds the rows of [l], in place and with their identity. *)
Definition calls_kept (l l' : list Call.t) : Prop := Forall2 same_call_identity l l'.




(** The partial unique index, on a list of rows. *)
Definition approved_clash_in (k contact number : string) (l : list CallPermission.t) : bool :=
  existsb (fun p' => negb (CallPermission.id p' =? k)%string
                     && (CallPermission.status p' =? "approved")%string
                     && (CallPermission.contactId p' =? contact)%string
                     && (CallPermission.whatsappNumber p' =? number)%string) l.

(** The single writes a request can make to the permission table. *)
Inductive perm_step : list CallPermission.t -> list CallPermission.t -> Prop :=
| ps_same l : perm_step l l
| ps_missed l p :
    In p l -> CallPermission.status p = "approved" ->
    perm_step l
      (on_permission (CallPermission.id p)
         (fun r => CallPermission.set_consecutiveMissedCalls
                     (CallPermission.consecutiveMissedCalls r + 1) r) l)
| ps_missed_expired l p :
    In p l -> CallPermission.status p = "approved" ->
    perm_step l
      (on_permission (CallPermission.id p) (CallPermission.set_status "expired")
         (on_permission (CallPermission.id p)
            (fun r => CallPermission.set_consecutiveMissedCalls
                        (CallPermission.consecutiveMissedCalls r + 1) r) l))
| ps_reset l p :
    In p l -> CallPermission.status p = "approved" ->
    perm_step l
      (on_permission (CallPermission.id p)
         (CallPermission.set_consecutiveMissedCalls 0) l)
| ps_reply l p s now :
    In p l -> CallPermission.status p = "pending" ->
    s = "approved" \/ s = "rejected" ->
    (s = "approved" ->
     approved_clash_in (CallPermission.id p) (CallPermission.contactId p)
       (CallPermission.whatsappNumber p) l = false) ->
    perm_step l
      (on_permission (CallPermission.id p)
         (fun r => CallPermission.set_respondedAt (Some now)
                     (CallPermission.set_status s r)) l)
| ps_contact_deleted l contact :
    perm_step l (Crm.expire_pending contact l).

(** Writes in sequence. *)
Inductive perm_steps : list CallPermission.t -> list CallPermission.t -> Prop :=
| steps_done l : perm_steps l l
| steps_next l1 l2 l3 : perm_step l1 l2 -> perm_steps l2 l3 -> perm_steps l1 l3.

(** The key of a permission with its two counters of calls. *)
Definition permission_counters (p : CallPermission.t) : string * Z * Z :=
  (CallPermission.id p, CallPermission.callsUsed p, CallPermission.maxCalls p).

(** At most one approved permission per contact and number. *)
Definition one_approved_per_pair (l : list CallPermission.t) : Prop :=
  forall p q,
    In p l -> In q l ->
    CallPermission.status p = "approved" -> CallPermission.status q = "approved" ->
    CallPermission.contactId p = CallPermission.contactId q ->
    CallPermission.whatsappNumber p = CallPermission.whatsappNumber q ->
    CallPermission.id p = CallPermission.id q.

(** ** More sample data *)

Module Cases.

(** U+00A0 NO-BREAK SPACE and U+2003 EM SPACE. *)
Definition nbsp : string := String (ascii_of_nat 194) (String (ascii_of_nat 160) "").
Definition em_space : string :=
  String (ascii_of_nat 226) (String (ascii_of_nat 128) (String (ascii_of_nat 131) "")).

(** Grace has no WhatsApp number and no names on record. *)
Definition grace : HubSpotContact.t :=
  HubSpotContact.mk "c-grace" "hs-202" None None None None None None 100 None false.

Definition call (k sid contact : string) (d : Direction) (status : string)
           (startTime : option Z) (duration : option Z) : Call.t :=
  Call.mk k sid None contact d status "whatsapp:+15559999" "whatsapp:+15550001"
    duration startTime None None None None None.

(** Five calls of Ada and one of Grace. *)
Definition db_history : DB :=
  mkDB [Sample.ada; grace]
       [call "k1" "CA1" "c-ada" outbound "completed" (Some 100) (Some 30);
        call "k2" "CA2" "c-ada" inbound "no-answer" (Some 300) (Some 0);
        call "k3" "CA3" "c-grace" inbound "completed" (Some 200) (Some 12);
        call "k4" "CA4" "c-ada" outbound "busy" (Some 200) None;
        call "k5" "CA5" "c-ada" outbound "failed" (Some 500) (Some 0);
        call "k6" "CA6" "c-ada" inbound "completed" (Some 400) (Some 45)]
       [] [].

Definition accept : MessagingBody.t :=
  MessagingBody.mk "whatsapp:+15550001" (Some "VOICE_CALL_REQUEST") (Some "ACCEPTED").

Definition deletion (objectId : string) : WebhookBody.t :=
  WebhookBody.mk (Some objectId) "contact.deletion" None.

(** The properties the CRM holds for contact hs-303: no e-mail address
    on record, no last name in the reply. *)
Definition props : HubSpotProps.t :=
  HubSpotProps.mk JS.null JS.undefined (JS.value "15550001") JS.null (JS.value "Ada")
    JS.undefined JS.undefined.

Definition sync_env : InboundEnv.t :=
  InboundEnv.mk 0 "" "c-new" (Throw HubSpotError) (Ok props) (Throw HubSpotError)
    7000 (fun _ => true).

End Cases.
(** * Theorems *)

(** ** The JavaScript primitives on sample inputs *)

Example parseInt_samples :
  JS.parseInt "42" = Some 42
  /\ JS.parseInt " 12abc" = Some 12
  /\ JS.parseInt "-7" = Some (-7)
  /\ JS.parseInt "0x1f" = Some 31
  /\ JS.parseInt "abc" = None.
Proof. vm_compute. repeat split. Qed.

Example replace_samples :
  JS.replace "whatsapp:" "" "whatsapp:+15550001" = "+15550001"
  /\ JS.replace "whatsapp:" "" "+15550001" = "+15550001"
  /\ JS.replace "whatsapp:" "" "a-whatsapp:b-whatsapp:c" = "a-b-whatsapp:c".
Proof. vm_compute. repeat split. Qed.

(** ** Generic facts about lists of rows *)

Lemma find_map_stable {A} (P : A -> bool) (g : A -> A) (l : list A) :
  (forall x, P (g x) = P x) ->
  find P (map g l) = option_map g (find P l).
Proof.
  intros Hg. induction l as [|x l IH]; simpl; [reflexivity|].
  rewrite Hg. destruct (P x); [reflexivity | exact IH].
Qed.

Lemma find_some_id {A} (P : A -> bool) (l : list A) (x : A) :
  find P l = Some x -> P x = true.
Proof. intros H. apply find_some in H. tauto. Qed.

(** ** The eligibility predicate (C4) *)

(** C4, counterexample: at the very instant [expiresAt] an approved
    permission with calls left and no missed call may still be used, although
    [now < expiresAt] is false; the stated equivalence fails there. *)
Lemma canMakeCall_true_at_expiry_instant :
  let p := Sample.perm 0 in
  let now := CallPermission.expiresAt p in
  CallPermission.canMakeCall now p = true
  /\ ~ (CallPermission.canMakeCall now p = true <->
        CallPermission.status p = "approved"
        /\ now < CallPermission.expiresAt p
        /\ CallPermission.callsUsed p < CallPermission.maxCalls p
        /\ CallPermission.consecutiveMissedCalls p < 4).
Proof.
  cbv zeta. split; [vm_compute; reflexivity|].
  intros [H _]. assert (E : CallPermission.canMakeCall
    (CallPermission.expiresAt (Sample.perm 0)) (Sample.perm 0) = true)
    by (vm_compute; reflexivity).
  apply H in E. lia.
Qed.

(** C4, as the code has it: [canMakeCall] holds exactly when the status is
    approved, the clock has not passed [expiresAt] (the expiry instant itself
    still counts as valid), calls remain, and fewer than 4 consecutive calls
    were missed; it is a function of the permission and the clock reading
    only. *)
Theorem canMakeCall_iff (p : CallPermission.t) (now : Z) :
  CallPermission.canMakeCall now p = true <->
  CallPermission.status p = "approved"
  /\ now <= CallPermission.expiresAt p
  /\ CallPermission.callsUsed p < CallPermission.maxCalls p
  /\ CallPermission.consecutiveMissedCalls p < 4.
Proof.
  unfold CallPermission.canMakeCall, CallPermission.isExpired.
  rewrite !andb_true_iff, negb_true_iff, String.eqb_eq, Z.ltb_ge, !Z.ltb_lt.
  tauto.
Qed.

(** ** What [/call-status] does to the tables *)

Lemma call_status_unknown_sid now b db :
  call_by_sid (StatusBody.CallSid b) db = None ->
  Webhooks.call_status now b db = (Ok (mkResp 200 "OK"), db).
Proof.
  unfold call_by_sid, Webhooks.call_status, try_catch, bind, Calls.findOne_twilioCallSid.
  intros ->. reflexivity.
Qed.

Lemma call_status_effect now b db c :
  call_by_sid (StatusBody.CallSid b) db = Some c ->
  Webhooks.call_status now b db =
  (Ok (mkResp 200 "OK"),
   mkDB (contacts db)
        (on_call (Call.id c) (Webhooks.status_updates now b c) (calls db))
        (status_event_permissions b c (permissions db))
        (logs db ++ [CallLog.mk (Call.id c) "status_update"
                       (Some (StatusBody.CallStatus b)) "twilio"])).
Proof.
  unfold call_by_sid, Webhooks.call_status, try_catch, bind, Calls.findOne_twilioCallSid.
  intros ->. cbn [Calls.update Calls.write Logs.create ret snd fst
                   contacts calls permissions logs].
  unfold status_event_permissions.
  destruct ((StatusBody.CallStatus b =? "no-answer")%string
            && Direction_eqb (Call.direction c) outbound) eqn:Ena.
  - unfold Webhooks.record_no_answer, bind, Permissions.findOne.
    cbn [permissions].
    destruct (Permissions.latest _) as [p|]; [|reflexivity].
    unfold Permissions.incrementMissedCalls, Permissions.increment, Permissions.write.
    cbn [CallPermission.id contacts calls permissions logs].
    destruct (4 <=? CallPermission.consecutiveMissedCalls p); reflexivity.
  - destruct ((StatusBody.CallStatus b =? "answered")%string
              && Direction_eqb (Call.direction c) outbound) eqn:Ean; [|reflexivity].
    unfold Webhooks.record_answered, bind, Permissions.findOne.
    cbn [permissions].
    destruct (Permissions.latest _) as [p|]; reflexivity.
Qed.

Lemma status_updates_sid now b c r :
  Call.twilioCallSid (Webhooks.status_updates now b c r) = Call.twilioCallSid r.
Proof.
  unfold Webhooks.status_updates.
  destruct (StatusBody.CallDuration b) as [d|];
    [destruct (JS.truthy (Some d))|];
    destruct (JS.truthy (StatusBody.RecordingUrl b));
    destruct ((StatusBody.CallStatus b =? "completed")%string
              && negb (is_some (Call.endTime c))); reflexivity.
Qed.

Lemma status_updates_id now b c r :
  Call.id (Webhooks.status_updates now b c r) = Call.id r.
Proof.
  unfold Webhooks.status_updates.
  destruct (StatusBody.CallDuration b) as [d|];
    [destruct (JS.truthy (Some d))|];
    destruct (JS.truthy (StatusBody.RecordingUrl b));
    destruct ((StatusBody.CallStatus b =? "completed")%string
              && negb (is_some (Call.endTime c))); reflexivity.
Qed.

Lemma status_updates_status now b c r :
  Call.status (Webhooks.status_updates now b c r) = StatusBody.CallStatus b.
Proof.
  unfold Webhooks.status_updates.
  destruct (StatusBody.CallDuration b) as [d|];
    [destruct (JS.truthy (Some d))|];
    destruct (JS.truthy (StatusBody.RecordingUrl b));
    destruct ((StatusBody.CallStatus b =? "completed")%string
              && negb (is_some (Call.endTime c))); reflexivity.
Qed.

(** A row update that leaves [twilioCallSid] alone does not disturb the
    lookup by sid: the call found afterwards is the updated one. *)
Lemma call_by_sid_on_call sid k f db db' :
  (forall r, Call.twilioCallSid (f r) = Call.twilioCallSid r) ->
  calls db' = on_call k f (calls db) ->
  forall c, call_by_sid sid db = Some c -> Call.id c = k ->
  call_by_sid sid db' = Some (f c).
Proof.
  intros Hf Hdb c Hc Hk. unfold call_by_sid in *. rewrite Hdb. unfold on_call.
  rewrite find_map_stable.
  - rewrite Hc. cbn. subst k. rewrite String.eqb_refl. reflexivity.
  - intros x. destruct (Call.id x =? k)%string; [rewrite Hf|]; reflexivity.
Qed.

(** ** Terminal statuses and status updates (C1) *)

(** C1, counterexample: a completed call that receives a [ringing] status
    event is ringing again. *)
Lemma terminal_status_overwritten :
  let db := Sample.db_completed in
  let db' := step (ReqCallStatus 50000 (Sample.status_event "ringing")) db in
  option_map Call.status (call_by_sid "CA1" db) = Some "completed"
  /\ terminal "completed" = true
  /\ option_map Call.status (call_by_sid "CA1" db') = Some "ringing".
Proof. vm_compute. repeat split. Qed.

(** C1, as the code has it: a status event for a known call writes the
    event's status over the call's status, whatever that was; hence the
    status of a call (terminal or not) survives an event exactly when the
    event carries that same status. *)
Theorem call_status_overwrites_status now b db c :
  call_by_sid (StatusBody.CallSid b) db = Some c ->
  exists c',
    call_by_sid (StatusBody.CallSid b) (step (ReqCallStatus now b) db) = Some c'
    /\ Call.id c' = Call.id c
    /\ Call.status c' = StatusBody.CallStatus b
    /\ (Call.status c' = Call.status c <-> StatusBody.CallStatus b = Call.status c).
Proof.
  intros Hc. unfold step, handle. rewrite (call_status_effect now b db c Hc).
  cbn [snd]. exists (Webhooks.status_updates now b c c).
  split; [|split; [|split]].
  - apply (call_by_sid_on_call _ (Call.id c) _ db); auto using status_updates_sid.
  - apply status_updates_id.
  - apply status_updates_status.
  - rewrite status_updates_status. tauto.
Qed.

Lemma call_status_overwrites_status_witness :
  exists c',
    call_by_sid "CA1" (step (ReqCallStatus 50000 (Sample.status_event "ringing"))
                         Sample.db_completed) = Some c'
    /\ Call.id c' = "call-1"
    /\ Call.status c' = "ringing"
    /\ (Call.status c' = "completed" <-> "ringing" = "completed").
Proof.
  apply (call_status_overwrites_status 50000 (Sample.status_event "ringing")
           Sample.db_completed Sample.completed_call).
  reflexivity.
Defined.

(** The reconciliation in [GET /status/:callSid] overwrites likewise: when
    the provider reports a status other than the stored one, the stored
    one is replaced, terminal or not. *)
Lemma get_status_overwrites_status tw sid db c :
  call_by_sid sid db = Some c ->
  Call.status c <> TwilioCall.status tw ->
  exists c',
    call_by_sid sid (step (ReqGetStatus (Ok tw) sid) db) = Some c'
    /\ Call.status c' = TwilioCall.status tw.
Proof.
  intros Hc Hne. unfold step, handle, Api.get_status, try_catch, bind,
    Calls.findOne_twilioCallSid.
  pose proof Hc as Hc'. unfold call_by_sid in Hc'. rewrite Hc'.
  cbn [await]. apply String.eqb_neq in Hne. rewrite Hne. cbn [negb].
  cbn [Calls.update Calls.write Contacts.findByPk contacts].
  set (f := fun r : Call.t => Call.set_endTime _ (Call.set_duration _ _)).
  exists (f c). split.
  - destruct (find _ (contacts db)); cbn [snd ret throw];
      apply (call_by_sid_on_call sid (Call.id c) f db); auto.
  - reflexivity.
Qed.

(** ** Rows written a second time *)

Lemma status_updates_keeps now b c r :
  Call.contactId (Webhooks.status_updates now b c r) = Call.contactId r
  /\ Call.direction (Webhooks.status_updates now b c r) = Call.direction r.
Proof.
  unfold Webhooks.status_updates.
  destruct (StatusBody.CallDuration b) as [d|];
    [destruct (JS.truthy (Some d))|];
    destruct (JS.truthy (StatusBody.RecordingUrl b));
    destruct ((StatusBody.CallStatus b =? "completed")%string
              && negb (is_some (Call.endTime c))); split; reflexivity.
Qed.

(** Writing the columns of an event a second time, at a later clock
    reading, changes nothing: [endTime] is only written while it is null. *)
Lemma status_updates_twice now1 now2 b c r :
  Webhooks.status_updates now2 b (Webhooks.status_updates now1 b c c)
    (Webhooks.status_updates now1 b c r)
  = Webhooks.status_updates now1 b c r.
Proof.
  unfold Webhooks.status_updates.
  destruct c as [? ? ? ? ? ? ? ? ? ? cend ? ? ? ?], r.
  destruct (StatusBody.CallDuration b) as [d|];
    [destruct (JS.truthy (Some d))|];
    destruct (JS.truthy (StatusBody.RecordingUrl b));
    destruct (StatusBody.CallStatus b =? "completed")%string;
    destruct cend; reflexivity.
Qed.

Lemma on_call_twice k f g l :
  (forall r, Call.id (f r) = Call.id r) ->
  (forall r, g (f r) = f r) ->
  on_call k g (on_call k f l) = on_call k f l.
Proof.
  intros Hid Hg. unfold on_call. rewrite map_map. apply map_ext. intros r.
  destruct (Call.id r =? k)%string eqn:E.
  - rewrite Hid, E. apply Hg.
  - rewrite E. reflexivity.
Qed.

Lemma filter_map_stable {A} (w : A -> bool) (g : A -> A) (l : list A) :
  (forall x, w (g x) = w x) ->
  filter w (map g l) = map g (filter w l).
Proof.
  intros Hw. induction l as [|x l IH]; simpl; [reflexivity|].
  rewrite Hw. destruct (w x); simpl; rewrite IH; reflexivity.
Qed.

Lemma latest_map_stable (g : CallPermission.t -> CallPermission.t) l :
  (forall x, CallPermission.createdAt (g x) = CallPermission.createdAt x) ->
  Permissions.latest (map g l) = option_map g (Permissions.latest l).
Proof.
  intros Hg. induction l as [|x l IH]; simpl; [reflexivity|].
  rewrite IH. destruct (Permissions.latest l) as [q|]; simpl; [|reflexivity].
  rewrite !Hg. destruct (CallPermission.createdAt x <? CallPermission.createdAt q);
    reflexivity.
Qed.

(** A rewrite of rows that keeps contact, status and creation time does
    not change which permission is the newest approved one. *)
Lemma newest_on_permission contact k f l :
  (forall r, CallPermission.contactId (f r) = CallPermission.contactId r
             /\ CallPermission.status (f r) = CallPermission.status r
             /\ CallPermission.createdAt (f r) = CallPermission.createdAt r) ->
  Permissions.latest (filter (Webhooks.approved_for_contact contact) (on_permission k f l))
  = option_map (fun p => if (CallPermission.id p =? k)%string then f p else p)
      (Permissions.latest (filter (Webhooks.approved_for_contact contact) l)).
Proof.
  intros Hf. unfold on_permission.
  rewrite filter_map_stable.
  - apply latest_map_stable. intros x.
    destruct (CallPermission.id x =? k)%string; [apply Hf | reflexivity].
  - intros x. unfold Webhooks.approved_for_contact.
    destruct (CallPermission.id x =? k)%string; [|reflexivity].
    destruct (Hf x) as (-> & -> & _). reflexivity.
Qed.

Lemma on_permission_twice k f l :
  (forall r, CallPermission.id (f r) = CallPermission.id r) ->
  (forall r, f (f r) = f r) ->
  on_permission k f (on_permission k f l) = on_permission k f l.
Proof.
  intros Hid Hf. unfold on_permission. rewrite map_map. apply map_ext. intros r.
  destruct (CallPermission.id r =? k)%string eqn:E.
  - rewrite Hid, E. apply Hf.
  - rewrite E. reflexivity.
Qed.

Lemma permission_by_id_on_permission k f db db' r :
  (forall x, CallPermission.id (f x) = CallPermission.id x) ->
  permissions db' = on_permission k f (permissions db) ->
  permission_by_id k db = Some r ->
  permission_by_id k db' = Some (f r).
Proof.
  intros Hf Hdb Hr. unfold permission_by_id in *. rewrite Hdb. unfold on_permission.
  rewrite find_map_stable.
  - rewrite Hr. cbn. apply find_some_id in Hr. rewrite Hr. reflexivity.
  - intros x. destruct (CallPermission.id x =? k)%string eqn:E; [rewrite Hf|]; exact E.
Qed.

Lemma status_event_permissions_ext b c1 c2 l :
  Call.contactId c1 = Call.contactId c2 ->
  Call.direction c1 = Call.direction c2 ->
  status_event_permissions b c1 l = status_event_permissions b c2 l.
Proof. unfold status_event_permissions. intros -> ->. reflexivity. Qed.

Lemma run_one r db : run [r] db = step r db.
Proof. reflexivity. Qed.

Lemma run_two r1 r2 db : run [r1; r2] db = step r2 (step r1 db).
Proof. reflexivity. Qed.

(** The tables after a status event for a known call. *)
Lemma call_status_tables now b db c :
  call_by_sid (StatusBody.CallSid b) db = Some c ->
  calls (step (ReqCallStatus now b) db)
  = on_call (Call.id c) (Webhooks.status_updates now b c) (calls db)
  /\ permissions (step (ReqCallStatus now b) db)
     = status_event_permissions b c (permissions db)
  /\ contacts (step (ReqCallStatus now b) db) = contacts db.
Proof.
  intros Hc. unfold step, handle. rewrite (call_status_effect now b db c Hc).
  repeat split.
Qed.

(** The call a second delivery resolves to is the call of the first
    delivery, with the first delivery's columns written. *)
Lemma call_by_sid_after_status now b db c :
  call_by_sid (StatusBody.CallSid b) db = Some c ->
  call_by_sid (StatusBody.CallSid b) (step (ReqCallStatus now b) db)
  = Some (Webhooks.status_updates now b c c).
Proof.
  intros Hc. destruct (call_status_tables now b db c Hc) as (Hcalls & _).
  apply (call_by_sid_on_call _ (Call.id c) _ db); auto using status_updates_sid.
Qed.

(** ** Which permission a call outcome touches (C10) and the missed-call
    threshold (C3) *)

Lemma latest_in l p : Permissions.latest l = Some p -> In p l.
Proof.
  revert p. induction l as [|x l IH]; simpl; intros p H; [discriminate|].
  destruct (Permissions.latest l) as [q|].
  - destruct (CallPermission.createdAt x <? CallPermission.createdAt q);
      injection H as <-; auto.
  - injection H as <-. auto.
Qed.

Lemma latest_is_newest l p :
  Permissions.latest l = Some p ->
  forall q, In q l -> CallPermission.createdAt q <= CallPermission.createdAt p.
Proof.
  revert p. induction l as [|x l IH]; simpl; intros p H q Hq; [contradiction|].
  destruct (Permissions.latest l) as [m|] eqn:Hm.
  - specialize (IH m eq_refl).
    destruct (CallPermission.createdAt x <? CallPermission.createdAt m) eqn:E;
      injection H as <-; destruct Hq as [<-|Hq].
    + apply Z.ltb_lt in E. lia.
    + auto.
    + lia.
    + apply Z.ltb_ge in E. specialize (IH q Hq). lia.
  - injection H as <-. destruct l; [|simpl in Hm; destruct (Permissions.latest l);
      [destruct (_ <? _)|]; discriminate].
    destruct Hq as [<-|[]]. lia.
Qed.

Lemma newest_approved_spec contact db p :
  newest_approved contact db = Some p ->
  In p (permissions db)
  /\ CallPermission.contactId p = contact
  /\ CallPermission.status p = "approved"
  /\ forall q, In q (permissions db) ->
               CallPermission.contactId q = contact ->
               CallPermission.status q = "approved" ->
               CallPermission.createdAt q <= CallPermission.createdAt p.
Proof.
  unfold newest_approved. intros H.
  pose proof (latest_in _ _ H) as Hin. apply filter_In in Hin.
  destruct Hin as [Hin Hw]. unfold Webhooks.approved_for_contact in Hw.
  apply andb_true_iff in Hw. destruct Hw as [Hc Hs].
  apply String.eqb_eq in Hc, Hs. repeat split; auto.
  intros q Hq Hqc Hqs. apply (latest_is_newest _ _ H). apply filter_In.
  split; [exact Hq|]. unfold Webhooks.approved_for_contact.
  rewrite Hqc, Hqs, String.eqb_refl. reflexivity.
Qed.

(** C10: for a [no-answer] or [answered] event of an outbound call, the
    permission that is written is the newest approved permission of the
    call's contact; the call's destination number takes no part in the
    choice, rows with another key are left alone, and the rows with its key
    get the counter incremented (and the status possibly set to expired) or
    the counter reset. *)
Theorem outcome_permission_matched_on_contact now b db c :
  call_by_sid (StatusBody.CallSid b) db = Some c ->
  Call.direction c = outbound ->
  StatusBody.CallStatus b = "no-answer" \/ StatusBody.CallStatus b = "answered" ->
  let db' := step (ReqCallStatus now b) db in
  match newest_approved (Call.contactId c) db with
  | None => permissions db' = permissions db
  | Some p =>
      CallPermission.contactId p = Call.contactId c
      /\ CallPermission.status p = "approved"
      /\ (forall q, In q (permissions db) ->
                    CallPermission.contactId q = Call.contactId c ->
                    CallPermission.status q = "approved" ->
                    CallPermission.createdAt q <= CallPermission.createdAt p)
      /\ exists f,
          permissions db' = on_permission (CallPermission.id p) f (permissions db)
          /\ (forall r, CallPermission.whatsappNumber (f r) = CallPermission.whatsappNumber r)
          /\ (forall r, CallPermission.consecutiveMissedCalls (f r)
                        = if (StatusBody.CallStatus b =? "no-answer")%string
                          then CallPermission.consecutiveMissedCalls r + 1
                          else 0)
  end.
Proof.
  intros Hc Hdir Hst. cbv zeta.
  destruct (call_status_tables now b db c Hc) as (_ & Hperms & _).
  rewrite Hperms. unfold status_event_permissions. rewrite Hdir. cbn [Direction_eqb].
  rewrite !andb_true_r.
  destruct (newest_approved (Call.contactId c) db) as [p|] eqn:Hp.
  - destruct (newest_approved_spec _ _ _ Hp) as (_ & H1 & H2 & H3).
    unfold newest_approved in Hp. rewrite Hp.
    split; [exact H1|]. split; [exact H2|]. split; [exact H3|].
    destruct Hst as [-> | ->]; cbn [String.eqb Ascii.eqb Bool.eqb].
    + destruct (4 <=? CallPermission.consecutiveMissedCalls p).
      * exists (fun r => CallPermission.set_status "expired"
                           (CallPermission.set_consecutiveMissedCalls
                              (CallPermission.consecutiveMissedCalls r + 1) r)).
        split; [|split; reflexivity].
        unfold on_permission. rewrite map_map. apply map_ext. intros r.
        destruct (CallPermission.id r =? CallPermission.id p)%string eqn:E;
          cbn [CallPermission.id CallPermission.set_consecutiveMissedCalls];
          rewrite E; reflexivity.
      * eexists. split; [reflexivity|]. split; reflexivity.
    + eexists. split; [reflexivity|]. split; reflexivity.
  - unfold newest_approved in Hp. rewrite Hp.
    destruct Hst as [-> | ->]; reflexivity.
Qed.

(** C10, on two numbers of one contact: a missed call to [+15550001] is
    counted on the permission for [+15550002], the newer one. *)
Lemma outcome_permission_matched_on_contact_witness :
  Call.toNumber Sample.ringing_call = "whatsapp:+15550001"
  /\ CallPermission.whatsappNumber Sample.perm_other = "+15550002"
  /\ exists f,
      permissions (step (ReqCallStatus 50000 (Sample.status_event "no-answer"))
                     Sample.db_two_numbers)
      = on_permission "perm-2" f [Sample.perm 0; Sample.perm_other]
      /\ (forall r, CallPermission.consecutiveMissedCalls (f r)
                    = CallPermission.consecutiveMissedCalls r + 1).
Proof.
  split; [reflexivity|]. split; [reflexivity|].
  pose proof (outcome_permission_matched_on_contact 50000
                (Sample.status_event "no-answer") Sample.db_two_numbers
                Sample.ringing_call eq_refl eq_refl (or_introl eq_refl)) as H.
  cbv zeta in H.
  change (newest_approved (Call.contactId Sample.ringing_call) Sample.db_two_numbers)
    with (Some Sample.perm_other) in H.
  destruct H as (_ & _ & _ & f & Hf & _ & Hm).
  exists f. split; [exact Hf | exact Hm].
Defined.

(** The threshold test of the missed-call branch reads the counter the
    instance was loaded with: the event that takes the stored counter from
    [n] to [n + 1] expires the permission exactly when [n] itself is 4 or
    more. *)
Lemma no_answer_threshold now b db c p :
  call_by_sid (StatusBody.CallSid b) db = Some c ->
  Call.direction c = outbound ->
  StatusBody.CallStatus b = "no-answer" ->
  newest_approved (Call.contactId c) db = Some p ->
  permission_by_id (CallPermission.id p) db = Some p ->
  exists p',
    permission_by_id (CallPermission.id p) (step (ReqCallStatus now b) db) = Some p'
    /\ CallPermission.consecutiveMissedCalls p' = CallPermission.consecutiveMissedCalls p + 1
    /\ CallPermission.status p'
       = if 4 <=? CallPermission.consecutiveMissedCalls p then "expired" else "approved".
Proof.
  intros Hc Hdir Hst Hp Hrow.
  destruct (newest_approved_spec _ _ _ Hp) as (_ & _ & Happ & _).
  destruct (call_status_tables now b db c Hc) as (_ & Hperms & _).
  unfold status_event_permissions in Hperms. unfold newest_approved in Hp.
  rewrite Hst, Hdir, Hp in Hperms. cbn [String.eqb Ascii.eqb Bool.eqb Direction_eqb andb] in Hperms.
  set (bump := fun r0 => CallPermission.set_consecutiveMissedCalls
                           (CallPermission.consecutiveMissedCalls r0 + 1) r0) in *.
  set (mid := mkDB [] [] (on_permission (CallPermission.id p) bump (permissions db)) []).
  assert (Hb : permission_by_id (CallPermission.id p) mid = Some (bump p))
    by (apply (permission_by_id_on_permission _ bump db); auto).
  destruct (4 <=? CallPermission.consecutiveMissedCalls p).
  - exists (CallPermission.set_status "expired" (bump p)). split; [|split; reflexivity].
    apply (permission_by_id_on_permission _ _ mid); auto.
  - exists (bump p). split; [|split; [reflexivity | exact Happ]].
    apply (permission_by_id_on_permission _ bump db); auto.
Qed.

(** C3, at the failing input: a permission with three missed calls gets its
    fourth.  The stored counter is 4 and the permission is still approved;
    it is expired by the fifth missed call only, and an [answered] event
    arriving after the fourth makes it usable again. *)
Theorem fourth_missed_call_leaves_permission_approved :
  let db := Sample.db_ringing 3 in
  let no_answer := ReqCallStatus 50000 (Sample.status_event "no-answer") in
  let answered := ReqCallStatus 60000 (Sample.status_event "answered") in
  let view := fun db =>
    option_map (fun p => (CallPermission.consecutiveMissedCalls p, CallPermission.status p))
      (permission_by_id "perm-1" db) in
  view db = Some (3, "approved")
  /\ view (run [no_answer] db) = Some (4, "approved")
  /\ view (run [no_answer; no_answer] db) = Some (5, "expired")
  /\ option_map (CallPermission.canMakeCall 70000)
       (permission_by_id "perm-1" (run [no_answer; answered] db)) = Some true.
Proof. vm_compute. repeat split. Qed.

(** ** When [callsUsed] is counted (C6) *)

Lemma map_callsUsed_on_permission k f l :
  (forall r, CallPermission.callsUsed (f r) = CallPermission.callsUsed r) ->
  map CallPermission.callsUsed (on_permission k f l) = map CallPermission.callsUsed l.
Proof.
  intros Hf. unfold on_permission. rewrite map_map. apply map_ext. intros r.
  destruct (CallPermission.id r =? k)%string; [apply Hf | reflexivity].
Qed.

(** No status event changes [callsUsed] of any permission. *)
Lemma call_status_keeps_callsUsed now b db :
  map CallPermission.callsUsed (permissions (step (ReqCallStatus now b) db))
  = map CallPermission.callsUsed (permissions db).
Proof.
  destruct (call_by_sid (StatusBody.CallSid b) db) as [c|] eqn:Hc.
  - destruct (call_status_tables now b db c Hc) as (_ & -> & _).
    unfold status_event_permissions.
    repeat match goal with
           | |- context [if ?x then _ else _] => destruct x
           | |- context [match ?x with Some _ => _ | None => _ end] => destruct x
           end;
      rewrite ?map_callsUsed_on_permission; auto.
  - unfold step, handle. rewrite (call_status_unknown_sid now b db Hc). reflexivity.
Qed.

Lemma on_call_fresh k f l :
  (forall c', In c' l -> (Call.id c' =? k)%string = false) ->
  on_call k f l = l.
Proof.
  intros H. unfold on_call. rewrite <- (map_id l) at 2.
  apply map_ext_in. intros c' Hin. rewrite (H c' Hin). reflexivity.
Qed.

(** The store refuses every insert into [calls] and into
    [call_permissions]. *)
Lemma calls_create_refused c db :
  Calls.create c db = (Throw SequelizeDatabaseError, db).
Proof. reflexivity. Qed.

Lemma permissions_create_refused p db :
  Permissions.create p db = (Throw SequelizeDatabaseError, db).
Proof. reflexivity. Qed.

(** [/outbound] with a usable permission: the insert of the call row is
    refused and the request ends in the outer [catch]; the provider is not
    asked to dial and nothing is written. *)
Lemma outbound_permitted e b db contact p :
  contact_by_id (OutboundBody.contactId b) db = Some contact ->
  outbound_permission b db = Some p ->
  CallPermission.canMakeCall (OutboundEnv.now_check e) p = true ->
  Api.outbound e b db = (Ok (mkResp 500 "Failed to initiate call"), db).
Proof.
  intros Hcontact Hperm Hcan.
  unfold Api.outbound, try_catch, bind, Contacts.findByPk, Permissions.findOne.
  unfold contact_by_id in Hcontact. rewrite Hcontact.
  unfold outbound_permission in Hperm. rewrite Hperm. rewrite Hcan. cbn [negb].
  rewrite calls_create_refused. reflexivity.
Qed.

(** [/outbound] without a usable permission: nothing is written. *)
Lemma outbound_refused e b db contact :
  contact_by_id (OutboundBody.contactId b) db = Some contact ->
  match outbound_permission b db with
  | Some p => CallPermission.canMakeCall (OutboundEnv.now_check e) p = false
  | None => True
  end ->
  Api.outbound e b db = (Ok (mkResp 403 "Call permission required"), db).
Proof.
  intros Hcontact Hperm.
  unfold Api.outbound, try_catch, bind, Contacts.findByPk, Permissions.findOne.
  unfold contact_by_id in Hcontact. rewrite Hcontact.
  unfold outbound_permission in Hperm.
  destruct (Permissions.latest _) as [p|]; [rewrite Hperm|]; reflexivity.
Qed.

(** An [answered] event of an outbound call resets the counter of the
    contact's newest approved permission. *)
Lemma answered_resets_counter now b db c p r :
  call_by_sid (StatusBody.CallSid b) db = Some c ->
  Call.direction c = outbound ->
  StatusBody.CallStatus b = "answered" ->
  newest_approved (Call.contactId c) db = Some p ->
  permission_by_id (CallPermission.id p) db = Some r ->
  option_map CallPermission.consecutiveMissedCalls
    (permission_by_id (CallPermission.id p) (step (ReqCallStatus now b) db)) = Some 0.
Proof.
  intros Hc Hdir Hst Hp Hr.
  destruct (call_status_tables now b db c Hc) as (_ & Hperms & _).
  unfold status_event_permissions in Hperms. unfold newest_approved in Hp.
  rewrite Hst, Hdir, Hp in Hperms.
  cbn [String.eqb Ascii.eqb Bool.eqb Direction_eqb andb] in Hperms.
  rewrite (permission_by_id_on_permission (CallPermission.id p)
             (CallPermission.set_consecutiveMissedCalls 0) db _ r
             (fun _ => eq_refl) Hperms Hr).
  reflexivity.
Qed.

(** C6, counterexample: an outbound call connects, and [callsUsed] of the
    permission is what it was before; so it is when the provider reports
    the call in progress and completed.  The counter of missed calls is
    reset. *)
Lemma callsUsed_not_counted_at_connect :
  let event := fun s => ReqCallStatus 50000 (Sample.status_event s) in
  let used := fun db => option_map CallPermission.callsUsed (permission_by_id "perm-1" db) in
  let missed := fun db => option_map CallPermission.consecutiveMissedCalls
                            (permission_by_id "perm-1" db) in
  let db := Sample.db_ringing 2 in
  option_map Call.direction (call_by_sid "CA1" db) = Some outbound
  /\ used db = Some 0
  /\ used (run [event "answered"] db) = Some 0
  /\ used (run [event "answered"; event "in-progress"; event "completed"] db) = Some 0
  /\ missed db = Some 2
  /\ missed (run [event "answered"] db) = Some 0.
Proof. vm_compute. repeat split. Qed.

(** C6, as the code has it: no status event changes [callsUsed] of any
    permission, neither the one that reports the call answered nor the one
    that reports it unanswered; [consecutiveMissedCalls] is reset by an
    [answered] status event of an outbound call, on the contact's newest
    approved permission. *)
Theorem callsUsed_unchanged_by_status_events now sb db :
  map CallPermission.callsUsed (permissions (step (ReqCallStatus now sb) db))
  = map CallPermission.callsUsed (permissions db)
  /\ (forall c p r,
         call_by_sid (StatusBody.CallSid sb) db = Some c ->
         Call.direction c = outbound ->
         StatusBody.CallStatus sb = "answered" ->
         newest_approved (Call.contactId c) db = Some p ->
         permission_by_id (CallPermission.id p) db = Some r ->
         option_map CallPermission.consecutiveMissedCalls
           (permission_by_id (CallPermission.id p) (step (ReqCallStatus now sb) db))
         = Some 0).
Proof.
  split.
  - apply call_status_keeps_callsUsed.
  - intros c p r. apply answered_resets_counter.
Qed.

Lemma callsUsed_unchanged_by_status_events_witness :
  map CallPermission.callsUsed
    (permissions (step (ReqCallStatus 50000 (Sample.status_event "answered"))
                    (Sample.db_ringing 2)))
  = [0]
  /\ option_map CallPermission.consecutiveMissedCalls
       (permission_by_id "perm-1"
          (step (ReqCallStatus 50000 (Sample.status_event "answered"))
             (Sample.db_ringing 2)))
     = Some 0.
Proof.
  destruct (callsUsed_unchanged_by_status_events 50000 (Sample.status_event "answered")
              (Sample.db_ringing 2)) as [H1 H2].
  split.
  - rewrite H1. reflexivity.
  - apply (H2 Sample.ringing_call (Sample.perm 2) (Sample.perm 2)); reflexivity.
Defined.

(** ** Rate limiting of permission requests (C5) and failed dispatch (C7) *)

Lemma permission_request_limited e b db contact :
  contact_by_id (PermissionBody.contactId b) db = Some contact ->
  let number := JS.replace "whatsapp:" "" (PermissionBody.whatsappNumber b) in
  Config.maxRequestsPerDay
    <= requests_since (PermissionBody.contactId b) number
         (PermissionEnv.now_day e - day_ms) db
  \/ Config.maxRequestsPer7Days
     <= requests_since (PermissionBody.contactId b) number
          (PermissionEnv.now_week e - week_ms) db ->
  Api.permission_request e b db = (Ok (mkResp 429 "Rate limit exceeded"), db).
Proof.
  intros Hcontact number Hcap.
  unfold Api.permission_request, try_catch, bind, Contacts.findByPk, Permissions.findAll.
  unfold contact_by_id in Hcontact. rewrite Hcontact.
  unfold requests_since, day_ms, week_ms in Hcap. fold number.
  destruct (Config.maxRequestsPerDay <=? _) eqn:Eday; [reflexivity|].
  destruct Hcap as [Hcap|Hcap].
  - apply Z.leb_gt in Eday. lia.
  - apply Z.leb_le in Hcap. cbn [permissions]. rewrite Hcap. reflexivity.
Qed.

(** [/permission/request] below both caps: the insert of the permission
    row is refused and the request ends in the outer [catch]; the consent
    message is not sent and nothing is written. *)
Lemma permission_request_within_limits e b db contact :
  contact_by_id (PermissionBody.contactId b) db = Some contact ->
  let number := JS.replace "whatsapp:" "" (PermissionBody.whatsappNumber b) in
  requests_since (PermissionBody.contactId b) number
    (PermissionEnv.now_day e - day_ms) db < Config.maxRequestsPerDay ->
  requests_since (PermissionBody.contactId b) number
    (PermissionEnv.now_week e - week_ms) db < Config.maxRequestsPer7Days ->
  Api.permission_request e b db
  = (Ok (mkResp 500 "Failed to send permission request"), db).
Proof.
  intros Hcontact number Hday Hweek.
  unfold Api.permission_request, try_catch, bind, Contacts.findByPk, Permissions.findAll.
  unfold contact_by_id in Hcontact. rewrite Hcontact.
  unfold requests_since, day_ms, week_ms in Hday, Hweek. fold number.
  apply Z.leb_gt in Hday, Hweek. cbn [permissions]. rewrite Hday, Hweek.
  rewrite permissions_create_refused. reflexivity.
Qed.

Lemma filter_andb {A} (f g : A -> bool) l :
  filter (fun x => f x && g x) l = filter g (filter f l).
Proof.
  induction l as [|x l IH]; simpl; [reflexivity|].
  destruct (f x); simpl; [destruct (g x)|]; rewrite IH; reflexivity.
Qed.

(** The requests counted by a rate-limit query are the requests of the pair
    that are recent enough. *)
Lemma requests_since_pair contact number since db :
  requests_since contact number since db
  = Z.of_nat (length (filter (fun p => since <=? CallPermission.requestedAt p)
                        (pair_requests contact number db))).
Proof.
  unfold requests_since, pair_requests. rewrite <- filter_andb. reflexivity.
Qed.

(** C5: a permission request of an existing contact is answered 429
    [Rate limit exceeded], and nothing is written, when the requests of the
    pair in the last 24 hours have reached the daily cap (1) or those of
    the last 7 days the weekly cap (2).  With a single earlier request at
    [T0]: a request within the following 24 hours is rejected; a request
    25 hours after [T0] passes both caps and is then answered 500, with no
    permission stored and no consent message sent, because the store
    refuses the insert of the permission row. *)
Theorem permission_request_rate_limit e b db contact :
  contact_by_id (PermissionBody.contactId b) db = Some contact ->
  let number := JS.replace "whatsapp:" "" (PermissionBody.whatsappNumber b) in
  (Config.maxRequestsPerDay
     <= requests_since (PermissionBody.contactId b) number
          (PermissionEnv.now_day e - day_ms) db
   \/ Config.maxRequestsPer7Days
      <= requests_since (PermissionBody.contactId b) number
           (PermissionEnv.now_week e - week_ms) db ->
   Api.permission_request e b db = (Ok (mkResp 429 "Rate limit exceeded"), db))
  /\ (forall p,
         pair_requests (PermissionBody.contactId b) number db = [p] ->
         let T0 := CallPermission.requestedAt p in
         (T0 <= PermissionEnv.now_day e <= T0 + day_ms ->
          Api.permission_request e b db = (Ok (mkResp 429 "Rate limit exceeded"), db))
         /\ (PermissionEnv.now_day e = T0 + 25 * hour_ms ->
             PermissionEnv.now_week e = T0 + 25 * hour_ms ->
             Api.permission_request e b db
             = (Ok (mkResp 500 "Failed to send permission request"), db))).
Proof.
  intros Hcontact number. split.
  - apply permission_request_limited with (contact := contact). exact Hcontact.
  - intros p Hpair T0. split.
    + intros Hnow. apply permission_request_limited with (contact := contact);
        [exact Hcontact|]. left. fold number.
      rewrite requests_since_pair, Hpair. cbn [filter].
      assert (E : (PermissionEnv.now_day e - day_ms <=? CallPermission.requestedAt p) = true)
        by (apply Z.leb_le; fold T0; lia).
      rewrite E. unfold Config.maxRequestsPerDay. cbn. lia.
    + intros Hday Hweek.
      apply (permission_request_within_limits e b db contact Hcontact).
      * fold number. rewrite requests_since_pair, Hpair. cbn [filter].
        assert (E : (PermissionEnv.now_day e - day_ms <=? CallPermission.requestedAt p) = false)
          by (apply Z.leb_gt; fold T0; unfold day_ms, hour_ms in *; lia).
        rewrite E. unfold Config.maxRequestsPerDay. cbn. lia.
      * fold number. rewrite requests_since_pair, Hpair. cbn [filter].
        destruct (_ <=? _); unfold Config.maxRequestsPer7Days; cbn; lia.
Qed.

(** The scenario of C5 on the sample data, with one request on record at
    [t0]: a second one an hour later is rejected; one 25 hours later is
    answered 500 and leaves the permission table as it was. *)
Lemma permission_request_rate_limit_witness :
  fst (Api.permission_request
         (Sample.permission_env "perm-b" (Sample.t0 + hour_ms) (Ok "SM2"))
         Sample.permission_body Sample.db_requested_once)
  = Ok (mkResp 429 "Rate limit exceeded")
  /\ Api.permission_request
       (Sample.permission_env "perm-b" (Sample.t0 + 25 * hour_ms) (Ok "SM2"))
       Sample.permission_body Sample.db_requested_once
     = (Ok (mkResp 500 "Failed to send permission request"), Sample.db_requested_once).
Proof.
  split.
  - destruct (permission_request_rate_limit
                (Sample.permission_env "perm-b" (Sample.t0 + hour_ms) (Ok "SM2"))
                Sample.permission_body Sample.db_requested_once Sample.ada eq_refl)
      as (_ & H).
    destruct (H Sample.pending_request eq_refl)
      as (H1 & _).
    rewrite H1; [reflexivity|]. vm_compute. split; discriminate.
  - destruct (permission_request_rate_limit
                (Sample.permission_env "perm-b" (Sample.t0 + 25 * hour_ms) (Ok "SM2"))
                Sample.permission_body Sample.db_requested_once Sample.ada eq_refl)
      as (_ & H).
    destruct (H Sample.pending_request eq_refl)
      as (_ & H2).
    exact (H2 eq_refl eq_refl).
Defined.

(** ** Keeping a property of the database through a handler *)

Section Preservation.

Variable I : DB -> Prop.

Lemma preserves_ret {A} (a : A) : preserves I (ret a).
Proof. intros db H. exact H. Qed.

Lemma preserves_throw {A} (e : Exn) : preserves I (@throw A e).
Proof. intros db H. exact H. Qed.

Lemma preserves_await {A} (o : Outcome A) : preserves I (await o).
Proof. intros db H. exact H. Qed.

Lemma preserves_bind {A B} (m : M A) (k : A -> M B) :
  preserves I m -> (forall a, preserves I (k a)) -> preserves I (bind m k).
Proof.
  intros Hm Hk db H. unfold bind. specialize (Hm db H).
  destruct (m db) as [[a|e] db']; cbn [snd] in *; [apply Hk; exact Hm | exact Hm].
Qed.

Lemma preserves_try_catch {A} (m : M A) (h : Exn -> M A) :
  preserves I m -> (forall e, preserves I (h e)) -> preserves I (try_catch m h).
Proof.
  intros Hm Hh db H. unfold try_catch. specialize (Hm db H).
  destruct (m db) as [[a|e] db']; cbn [snd] in *; [exact Hm | apply Hh; exact Hm].
Qed.

End Preservation.

(** A computation that leaves the call table alone keeps every property
    of it. *)
Lemma preserves_calls_frame {A} (m : M A) :
  (forall db, calls (snd (m db)) = calls db) -> preserves calls_keys_ok m.
Proof. intros Hm db H. unfold calls_keys_ok in *. rewrite Hm. exact H. Qed.

Lemma preserves_calls_create c : preserves calls_keys_ok (Calls.create c).
Proof.
  intros db H. rewrite calls_create_refused. exact H.
Qed.

Lemma preserves_calls_update k f :
  (forall r, Call.id (f r) = Call.id r) ->
  (forall r, Call.twilioCallSid (f r) = Call.twilioCallSid r) ->
  preserves calls_keys_ok (Calls.update k f).
Proof.
  intros Hid Hsid db [H1 H2]. unfold Calls.update, Calls.write, calls_keys_ok.
  cbn [snd calls]. rewrite !map_map. split.
  - rewrite (map_ext _ Call.id); [exact H1|].
    intros r; destruct (Call.id r =? k)%string; auto.
  - rewrite (map_ext _ Call.twilioCallSid); [exact H2|].
    intros r; destruct (Call.id r =? k)%string; auto.
Qed.

Lemma existsb_false_in {A} (f : A -> bool) l :
  existsb f l = false -> forall x, In x l -> f x = false.
Proof.
  induction l as [|y l IH]; simpl; intros H x Hin; [contradiction|].
  apply orb_false_iff in H. destruct H as [Hy Hl].
  destruct Hin as [<-|Hin]; auto.
Qed.

(** Writing a sid that no other row holds keeps the sids distinct, given
    distinct primary keys. *)
Lemma nodup_sid_after_write k sid l :
  NoDup (map Call.id l) ->
  NoDup (map Call.twilioCallSid l) ->
  existsb (fun c' => negb (Call.id c' =? k)%string
                     && (Call.twilioCallSid c' =? sid)%string) l = false ->
  NoDup (map Call.twilioCallSid (on_call k (Call.set_twilioCallSid sid) l)).
Proof.
  induction l as [|x l IH]; intros Hid Hsid Hex; [constructor|].
  cbn [map] in Hid, Hsid. inversion Hid as [|? ? Hx1 Hid']; subst.
  inversion Hsid as [|? ? Hx2 Hsid']; subst.
  cbn [existsb] in Hex. apply orb_false_iff in Hex. destruct Hex as [Hx Hl].
  specialize (IH Hid' Hsid' Hl).
  unfold on_call. cbn [map]. fold (on_call k (Call.set_twilioCallSid sid) l).
  destruct (Call.id x =? k)%string eqn:E.
  - apply String.eqb_eq in E. subst k.
    rewrite on_call_fresh.
    + cbn [Call.twilioCallSid Call.set_twilioCallSid]. constructor; [|exact Hsid'].
      intros Hin. apply in_map_iff in Hin. destruct Hin as (c' & Hc' & Hin).
      pose proof (existsb_false_in _ _ Hl c' Hin) as Hf. cbv beta in Hf.
      rewrite Hc', String.eqb_refl, andb_true_r in Hf.
      apply negb_false_iff, String.eqb_eq in Hf.
      apply Hx1. rewrite <- Hf. apply in_map. exact Hin.
    + intros c' Hin. apply String.eqb_neq. intros Heq. apply Hx1.
      rewrite <- Heq. apply in_map. exact Hin.
  - cbn [negb andb] in Hx. constructor; [|exact IH].
    intros Hin. apply in_map_iff in Hin. destruct Hin as (c' & Hc' & Hin).
    unfold on_call in Hin. apply in_map_iff in Hin. destruct Hin as (c0 & Hc0 & Hin).
    destruct (Call.id c0 =? k)%string; subst c'.
    + cbn [Call.twilioCallSid Call.set_twilioCallSid] in Hc'. subst sid.
      rewrite String.eqb_refl in Hx. discriminate.
    + apply Hx2. rewrite <- Hc'. apply in_map. exact Hin.
Qed.

Lemma preserves_calls_update_twilioCallSid k sid :
  preserves calls_keys_ok (Calls.update_twilioCallSid k sid).
Proof.
  intros db [H1 H2]. unfold Calls.update_twilioCallSid.
  destruct (existsb _ (calls db)) eqn:E; [split; assumption|].
  unfold Calls.write, calls_keys_ok. cbn [snd calls]. split.
  - rewrite map_map. rewrite (map_ext _ Call.id); [exact H1|].
    intros r; destruct (Call.id r =? k)%string; reflexivity.
  - apply nodup_sid_after_write; assumption.
Qed.

Lemma preserves_calls_update_hubspotCallId k h f :
  (forall r, Call.id (f r) = Call.id r) ->
  (forall r, Call.twilioCallSid (f r) = Call.twilioCallSid r) ->
  preserves calls_keys_ok (Calls.update_hubspotCallId k h f).
Proof.
  intros Hid Hsid db H. unfold Calls.update_hubspotCallId.
  destruct (existsb _ (calls db)); [exact H|].
  apply (preserves_calls_update k
           (fun c => f (Call.set_hubspotCallId (JS.updated h (Call.hubspotCallId c)) c)));
    auto.
  - intros r. rewrite Hid. reflexivity.
  - intros r. rewrite Hsid. reflexivity.
Qed.

(** Every handler keeps the keys of the call table distinct. *)
Lemma handle_keeps_calls_keys r : preserves calls_keys_ok (handle r).
Proof.
  destruct r; cbn [handle].
  - (* /voice/inbound *)
    unfold Webhooks.voice_inbound, Webhooks.resolve_contact, Webhooks.syncContact,
      Contacts.validate.
    repeat first
      [ apply preserves_try_catch; [|intros]
      | apply preserves_bind; [|intros]
      | apply preserves_ret
      | apply preserves_throw
      | apply preserves_await
      | apply preserves_calls_create
      | apply preserves_calls_frame; intros; reflexivity
      | apply preserves_calls_frame; intros db; unfold Contacts.create;
        destruct (existsb _ (contacts db)); reflexivity
      | match goal with
        | |- preserves _ (match ?x with _ => _ end) => destruct x
        | |- preserves _ (if ?x then _ else _) => destruct x
        end ].
  - (* /call-status *)
    unfold Webhooks.call_status, Webhooks.record_no_answer, Webhooks.record_answered.
    repeat first
      [ apply preserves_try_catch; [|intros]
      | apply preserves_bind; [|intros]
      | apply preserves_ret
      | apply preserves_calls_update;
        [intros; apply status_updates_id | intros; apply status_updates_sid]
      | apply preserves_calls_frame; intros; reflexivity
      | match goal with
        | |- preserves _ (match ?x with _ => _ end) => destruct x
        | |- preserves _ (if ?x then _ else _) => destruct x
        end ].
  - (* /messaging *)
    unfold Webhooks.messaging.
    repeat first
      [ apply preserves_try_catch; [|intros]
      | apply preserves_bind; [|intros]
      | apply preserves_ret
      | apply preserves_calls_frame; intros; reflexivity
      | match goal with
        | |- preserves _ (Permissions.update_status _ _ _) =>
            apply preserves_calls_frame; intros db0; unfold Permissions.update_status;
            destruct (_ && _); reflexivity
        | |- preserves _ (match ?x with _ => _ end) => destruct x
        | |- preserves _ (if ?x then _ else _) => destruct x
        end ].
  - (* /conference *)
    unfold Webhooks.conference.
    repeat first
      [ apply preserves_try_catch; [|intros]
      | apply preserves_bind; [|intros]
      | apply preserves_ret
      | apply preserves_calls_frame; intros; reflexivity
      | match goal with
        | |- preserves _ (match ?x with _ => _ end) => destruct x
        end ].
  - (* /recording *)
    unfold Webhooks.recording.
    repeat first
      [ apply preserves_try_catch; [|intros]
      | apply preserves_bind; [|intros]
      | apply preserves_ret
      | apply preserves_calls_update; [intros; reflexivity | intros; reflexivity]
      | apply preserves_calls_frame; intros; reflexivity
      | match goal with
        | |- preserves _ (match ?x with _ => _ end) => destruct x
        | |- preserves _ (if ?x then _ else _) => destruct x
        end ].
  - (* /outbound *)
    unfold Api.outbound.
    repeat first
      [ apply preserves_try_catch; [|intros]
      | apply preserves_bind; [|intros]
      | apply preserves_ret
      | apply preserves_throw
      | apply preserves_await
      | apply preserves_calls_create
      | apply preserves_calls_update_twilioCallSid
      | apply preserves_calls_update; [intros; reflexivity | intros; reflexivity]
      | apply preserves_calls_frame; intros; reflexivity
      | match goal with
        | |- preserves _ (match ?x with _ => _ end) => destruct x
        | |- preserves _ (if ?x then _ else _) => destruct x
        end ].
  - (* /permission/request *)
    unfold Api.permission_request.
    repeat first
      [ apply preserves_try_catch; [|intros]
      | apply preserves_bind; [|intros]
      | apply preserves_ret
      | apply preserves_throw
      | apply preserves_await
      | apply preserves_calls_frame; intros; reflexivity
      | match goal with
        | |- preserves _ (Permissions.update_status _ _ _) =>
            apply preserves_calls_frame; intros db0; unfold Permissions.update_status;
            destruct (_ && _); reflexivity
        | |- preserves _ (Permissions.create _) =>
            apply preserves_calls_frame; intros db0; unfold Permissions.create;
            destruct (_ || _); reflexivity
        | |- preserves _ (match ?x with _ => _ end) => destruct x
        | |- preserves _ (if ?x then _ else _) => destruct x
        end ].
  - (* /status/:callSid *)
    unfold Api.get_status.
    repeat first
      [ apply preserves_try_catch; [|intros]
      | apply preserves_bind; [|intros]
      | apply preserves_ret
      | apply preserves_throw
      | apply preserves_await
      | apply preserves_calls_update; [intros; reflexivity | intros; reflexivity]
      | apply preserves_calls_frame; intros; reflexivity
      | match goal with
        | |- preserves _ (match ?x with _ => _ end) => destruct x
        | |- preserves _ (if ?x then _ else _) => destruct x
        end ].
  - (* /:callSid/hangup *)
    unfold Api.hangup.
    repeat first
      [ apply preserves_try_catch; [|intros]
      | apply preserves_bind; [|intros]
      | apply preserves_ret
      | apply preserves_await
      | apply preserves_calls_update; [intros; reflexivity | intros; reflexivity]
      | apply preserves_calls_frame; intros; reflexivity
      | match goal with
        | |- preserves _ (match ?x with _ => _ end) => destruct x
        end ].
  - (* onCallEnded *)
    unfold Api.onCallEnded.
    repeat first
      [ apply preserves_try_catch; [|intros]
      | apply preserves_bind; [|intros]
      | apply preserves_ret
      | apply preserves_calls_update_hubspotCallId;
        [intros; reflexivity | intros; reflexivity]
      | apply preserves_calls_frame; intros; reflexivity
      | match goal with
        | |- preserves _ (match ?x with _ => _ end) => destruct x
        end ].
  - (* onCallCompleted *)
    unfold Api.onCallCompleted.
    repeat first
      [ apply preserves_try_catch; [|intros]
      | apply preserves_bind; [|intros]
      | apply preserves_ret
      | apply preserves_calls_update; [intros; reflexivity | intros; reflexivity]
      | apply preserves_calls_frame; intros; reflexivity
      | match goal with
        | |- preserves _ (match ?x with _ => _ end) => destruct x
        end ].
Qed.

(** ** Inbound calls and the external call identifier (C9) *)

(** Resolving the caller writes to the contact table alone. *)
Lemma resolve_contact_tables e from db :
  calls (snd (Webhooks.resolve_contact e from db)) = calls db
  /\ permissions (snd (Webhooks.resolve_contact e from db)) = permissions db
  /\ logs (snd (Webhooks.resolve_contact e from db)) = logs db.
Proof.
  unfold Webhooks.resolve_contact, Webhooks.syncContact, bind,
    Contacts.findOne_whatsappNumber, Contacts.findOne_hubspotContactId,
    Contacts.create, Contacts.update, Contacts.validate, await, ret, throw.
  destruct (find _ (contacts db)); [auto|].
  destruct (InboundEnv.search e) as [[|h hs]|]; [| |auto].
  - destruct (InboundEnv.createContact e); [|auto].
    destruct (existsb _ (contacts db)); auto.
  - destruct (InboundEnv.getContact e) as [p|]; [|auto].
    destruct (find _ (contacts db)).
    + destruct (HubSpotProps.email p) as [| |s]; auto.
      destruct (InboundEnv.isEmail e s); auto.
    + destruct (HubSpotProps.email p) as [| |s];
        try (destruct (existsb _ (contacts db)); auto; fail).
      destruct (InboundEnv.isEmail e s); [|auto].
      destruct (existsb _ (contacts db)); auto.
Qed.

Lemma resolve_contact_calls e from db :
  calls (snd (Webhooks.resolve_contact e from db)) = calls db.
Proof. apply resolve_contact_tables. Qed.

Lemma run_keeps_calls_keys rs db : calls_keys_ok db -> calls_keys_ok (run rs db).
Proof.
  revert db. induction rs as [|r rs IH]; intros db H; [exact H|].
  cbn [run fold_left]. apply IH. apply handle_keeps_calls_keys. exact H.
Qed.

Lemma nodup_map_filter_le1 {A} (f : A -> string) (s : string) (l : list A) :
  NoDup (map f l) ->
  (length (filter (fun x => (f x =? s)%string) l) <= 1)%nat.
Proof.
  induction l as [|x l IH]; intros H; cbn [filter length]; [lia|].
  cbn [map] in H. inversion H as [|? ? Hx Hl]; subst. specialize (IH Hl).
  destruct (f x =? s)%string eqn:E; [|exact IH].
  apply String.eqb_eq in E. subst s.
  assert (Hnil : filter (fun y => (f y =? f x)%string) l = []).
  { clear - Hx. induction l as [|y l IH]; [reflexivity|]. cbn [filter].
    destruct (f y =? f x)%string eqn:E.
    - apply String.eqb_eq in E. exfalso. apply Hx. left. exact E.
    - apply IH. intros Hin. apply Hx. right. exact Hin. }
  rewrite Hnil. cbn. lia.
Qed.

(** The insert of the call row is refused, whoever calls: the handler
    answers with the apology and keeps what resolving the caller wrote. *)
Lemma voice_inbound_answer e b db :
  Webhooks.voice_inbound e b db
  = (Ok (mkResp 200 "<Say>We are currently unable to take your call"),
     snd (Webhooks.resolve_contact e (InboundBody.From b) db)).
Proof.
  unfold Webhooks.voice_inbound, try_catch, bind.
  destruct (Webhooks.resolve_contact e (InboundBody.From b) db) as [[contact|err] db1];
    [rewrite calls_create_refused|]; reflexivity.
Qed.

(** C9, at the failing input and at every other: an inbound call event
    stores no call.  Once the caller is resolved to a contact the handler
    attempts to create a call with the sid of the event and the status
    [ringing]; the store refuses the insert, because the foreign key of
    [contactId] names a table the schema does not have.  The caller hears
    the apology and the call table is what it was.  The sids of the stored
    calls stay distinct, however many requests are handled. *)
Theorem inbound_call_never_stored e b db :
  fst (Webhooks.voice_inbound e b db)
  = Ok (mkResp 200 "<Say>We are currently unable to take your call")
  /\ calls (step (ReqVoiceInbound e b) db) = calls db
  /\ (forall contact db1,
         Webhooks.resolve_contact e (InboundBody.From b) db = (Ok contact, db1) ->
         Call.status (Webhooks.new_inbound_call e b contact) = "ringing"
         /\ Call.twilioCallSid (Webhooks.new_inbound_call e b contact)
            = InboundBody.CallSid b
         /\ Calls.create (Webhooks.new_inbound_call e b contact) db1
            = (Throw SequelizeDatabaseError, db1))
  /\ (calls_keys_ok db ->
      forall rs sid,
        (length (filter (fun c => (Call.twilioCallSid c =? sid)%string)
                   (calls (run rs db))) <= 1)%nat).
Proof.
  split; [|split; [|split]].
  - rewrite voice_inbound_answer. reflexivity.
  - unfold step, handle. rewrite voice_inbound_answer. apply resolve_contact_calls.
  - intros contact db1 _. repeat split.
  - intros Hok rs sid. apply nodup_map_filter_le1.
    apply (run_keeps_calls_keys rs db Hok).
Qed.

(** C9 on the sample data: an inbound event for the new sid [CA2], from
    the number of a stored contact, is answered with the apology and
    leaves the one stored call; no call holds [CA2] afterwards. *)
Lemma inbound_call_never_stored_witness :
  let r := ReqVoiceInbound (Sample.inbound_env "call-2") (Sample.inbound_body "CA2") in
  call_by_sid "CA2" (Sample.db_ringing 0) = None
  /\ fst (handle r (Sample.db_ringing 0))
     = Ok (mkResp 200 "<Say>We are currently unable to take your call")
  /\ calls (step r (Sample.db_ringing 0)) = [Sample.ringing_call]
  /\ call_by_sid "CA2" (step r (Sample.db_ringing 0)) = None
  /\ (length (filter (fun c => (Call.twilioCallSid c =? "CA1")%string)
                (calls (run [r; r] (Sample.db_ringing 0)))) <= 1)%nat.
Proof.
  assert (sample_keys_ok : calls_keys_ok (Sample.db_ringing 0))
    by (split; repeat constructor; simpl; tauto).
  destruct (inbound_call_never_stored (Sample.inbound_env "call-2")
              (Sample.inbound_body "CA2") (Sample.db_ringing 0))
    as (H1 & H2 & _ & H4).
  cbv zeta. split; [reflexivity|]. split; [exact H1|]. split; [exact H2|].
  split; [unfold call_by_sid; rewrite H2; reflexivity|].
  apply (H4 sample_keys_ok).
Defined.

(** ** Failed dispatch of the consent message (C7) *)



(** ** Hanging up (C8) *)

(** C8, counterexample: the provider fails to terminate the call; the
    request is answered 500 and the call is still ringing, with no
    [endTime]. *)
Lemma hangup_failure_leaves_call_ringing :
  let out := Api.hangup (Throw TwilioError) 70000 "CA1" (Sample.db_ringing 0) in
  fst out = Ok (mkResp 500 "Failed to hang up call")
  /\ snd out = Sample.db_ringing 0
  /\ option_map (fun c => (Call.status c, Call.endTime c)) (call_by_sid "CA1" (snd out))
     = Some ("ringing", None)
  /\ terminal "ringing" = false.
Proof. vm_compute. repeat split. Qed.

(** C8, as the code has it: a hangup request for a known call marks the
    call [completed] with [endTime] set when the provider terminated the
    call; when the provider signals failure the request is answered 500 and
    the database is left as it was. *)
Theorem hangup_effect hangupCall now sid db c :
  call_by_sid sid db = Some c ->
  match hangupCall with
  | Ok _ =>
      fst (Api.hangup hangupCall now sid db) = Ok (mkResp 200 "completed")
      /\ exists c',
          call_by_sid sid (step (ReqHangup hangupCall now sid) db) = Some c'
          /\ Call.id c' = Call.id c
          /\ Call.status c' = "completed"
          /\ Call.endTime c' = Some now
  | Throw _ =>
      Api.hangup hangupCall now sid db = (Ok (mkResp 500 "Failed to hang up call"), db)
  end.
Proof.
  intros Hc. pose proof Hc as Hfind. unfold call_by_sid in Hfind.
  destruct hangupCall as [u|err].
  - unfold step, handle, Api.hangup, try_catch, bind, Calls.findOne_twilioCallSid.
    rewrite Hfind. cbn [await Calls.update Logs.create ret fst snd].
    split; [reflexivity|].
    set (f := fun r => Call.set_endTime (Some now) (Call.set_status "completed" r)).
    exists (f c). split; [|repeat split].
    apply (call_by_sid_on_call sid (Call.id c) f db); auto.
  - unfold Api.hangup, try_catch, bind, Calls.findOne_twilioCallSid.
    rewrite Hfind. reflexivity.
Qed.

Lemma hangup_effect_witness :
  fst (Api.hangup (Ok tt) 70000 "CA1" (Sample.db_ringing 0)) = Ok (mkResp 200 "completed")
  /\ exists c',
      call_by_sid "CA1" (step (ReqHangup (Ok tt) 70000 "CA1") (Sample.db_ringing 0)) = Some c'
      /\ Call.id c' = "call-1"
      /\ Call.status c' = "completed"
      /\ Call.endTime c' = Some 70000.
Proof.
  exact (hangup_effect (Ok tt) 70000 "CA1" (Sample.db_ringing 0) Sample.ringing_call eq_refl).
Defined.

(** ** A second delivery of a provider event (C2) *)

(** A second delivery of a status event, possibly at another clock
    reading: the call table is as the first delivery left it, and so is the
    permission table unless the event counts a missed call. *)
Lemma status_event_redelivery now1 now2 b db :
  calls (step (ReqCallStatus now2 b) (step (ReqCallStatus now1 b) db))
  = calls (step (ReqCallStatus now1 b) db)
  /\ (counts_as_missed b db = false ->
      permissions (step (ReqCallStatus now2 b) (step (ReqCallStatus now1 b) db))
      = permissions (step (ReqCallStatus now1 b) db)).
Proof.
  destruct (call_by_sid (StatusBody.CallSid b) db) as [c|] eqn:Hc.
  - pose proof (call_by_sid_after_status now1 b db c Hc) as Hc1.
    set (c1 := Webhooks.status_updates now1 b c c) in *.
    destruct (status_updates_keeps now1 b c c) as [Hcontact Hdir].
    fold c1 in Hcontact, Hdir.
    destruct (call_status_tables now1 b db c Hc) as (Hcalls1 & Hperms1 & _).
    set (db1 := step (ReqCallStatus now1 b) db) in *.
    destruct (call_status_tables now2 b db1 c1 Hc1) as (Hcalls2 & Hperms2 & _).
    split.
    + rewrite Hcalls2, Hcalls1. unfold c1 at 1. rewrite status_updates_id.
      apply on_call_twice.
      * intros r. apply status_updates_id.
      * intros r. apply status_updates_twice.
    + unfold counts_as_missed. rewrite Hc. intros Hmiss.
      rewrite Hperms2, Hperms1.
      rewrite (status_event_permissions_ext b c1 c _ Hcontact Hdir).
      unfold status_event_permissions. rewrite Hmiss.
      destruct ((StatusBody.CallStatus b =? "answered")%string
                && Direction_eqb (Call.direction c) outbound); [|reflexivity].
      destruct (Permissions.latest
                  (filter (Webhooks.approved_for_contact (Call.contactId c))
                     (permissions db))) as [p|] eqn:Hp.
      * rewrite newest_on_permission by (intros; repeat split).
        rewrite Hp. cbn [option_map]. rewrite String.eqb_refl.
        cbn [CallPermission.id CallPermission.set_consecutiveMissedCalls].
        apply on_permission_twice; intros; reflexivity.
      * rewrite Hp. reflexivity.
  - unfold step, handle.
    rewrite (call_status_unknown_sid now1 b db Hc). cbn [snd].
    rewrite (call_status_unknown_sid now2 b db Hc). cbn [snd].
    split; reflexivity.
Qed.

(** Every delivery of a missed-call event adds one to the counter of the
    contact's newest approved permission. *)
Lemma missed_call_counted now b db c p r :
  counts_as_missed b db = true ->
  call_by_sid (StatusBody.CallSid b) db = Some c ->
  newest_approved (Call.contactId c) db = Some p ->
  permission_by_id (CallPermission.id p) db = Some r ->
  exists r',
    permission_by_id (CallPermission.id p) (step (ReqCallStatus now b) db) = Some r'
    /\ CallPermission.consecutiveMissedCalls r'
       = CallPermission.consecutiveMissedCalls r + 1.
Proof.
  unfold counts_as_missed. intros Hmiss Hc Hp Hr. rewrite Hc in Hmiss.
  destruct (call_status_tables now b db c Hc) as (_ & Hperms1 & _).
  unfold newest_approved in Hp.
  unfold status_event_permissions in Hperms1. rewrite Hmiss, Hp in Hperms1.
  set (bump := fun r0 => CallPermission.set_consecutiveMissedCalls
                           (CallPermission.consecutiveMissedCalls r0 + 1) r0) in *.
  set (mid := mkDB [] [] (on_permission (CallPermission.id p) bump (permissions db)) []).
  assert (Hb : permission_by_id (CallPermission.id p) mid = Some (bump r))
    by (apply (permission_by_id_on_permission _ bump db); auto).
  destruct (4 <=? CallPermission.consecutiveMissedCalls p).
  - exists (CallPermission.set_status "expired" (bump r)). split; [|reflexivity].
    apply (permission_by_id_on_permission _ _ mid); auto.
  - exists (bump r). split; [|reflexivity].
    apply (permission_by_id_on_permission _ bump db); auto.
Qed.

(** What [/messaging] does. *)
Lemma messaging_effect now b db :
  Webhooks.messaging now b db =
  if Webhooks.is_consent_reply b
  then match Permissions.latest (pending_requests b db) with
       | Some p =>
           if (Webhooks.reply_status b =? "approved")%string
              && Permissions.approved_clash (CallPermission.id p)
                   (CallPermission.contactId p) (CallPermission.whatsappNumber p) db
           then (Ok (mkResp 500 "Error"), db)
           else (Ok (mkResp 200 "OK"),
                 mkDB (contacts db) (calls db)
                      (on_permission (CallPermission.id p)
                         (fun r => CallPermission.set_respondedAt (Some now)
                                     (CallPermission.set_status (Webhooks.reply_status b) r))
                         (permissions db))
                      (logs db))
       | None => (Ok (mkResp 200 "OK"), db)
       end
  else (Ok (mkResp 200 "OK"), db).
Proof.
  unfold Webhooks.messaging, try_catch, bind, Permissions.findOne, pending_requests.
  destruct (Webhooks.is_consent_reply b); [|reflexivity].
  destruct (Permissions.latest _) as [p|]; [|reflexivity].
  unfold Permissions.update_status.
  destruct ((Webhooks.reply_status b =? "approved")%string && _); reflexivity.
Qed.

Lemma reply_status_not_pending b : (Webhooks.reply_status b =? "pending")%string = false.
Proof.
  unfold Webhooks.reply_status.
  destruct (MessagingBody.ButtonPayload b) as [s|]; [|reflexivity].
  destruct (String.eqb_spec s "ACCEPTED") as [->|Hne]; [reflexivity|].
  assert (E : match s with "ACCEPTED" => "approved" | _ => "rejected" end = "rejected").
  { repeat match goal with
           | |- context [match ?x with _ => _ end] => destruct x; try reflexivity
           end.
    exfalso. apply Hne. reflexivity. }
  rewrite E. reflexivity.
Qed.

(** Once the only pending request of a number has been answered, none is
    pending. *)
Lemma no_pending_after_reply w k g l p :
  filter w l = [p] ->
  CallPermission.id p = k ->
  (forall r, w (g r) = false) ->
  filter w (on_permission k g l) = [].
Proof.
  intros Hl Hk Hg.
  assert (Hall : forall r, In r l -> w r = true -> CallPermission.id r = k).
  { intros r Hin Hw. assert (Hr : In r (filter w l)) by (apply filter_In; auto).
    rewrite Hl in Hr. destruct Hr as [<-|[]]. exact Hk. }
  clear Hl. induction l as [|x l IH]; [reflexivity|].
  unfold on_permission. cbn [map filter]. fold (on_permission k g l).
  destruct (CallPermission.id x =? k)%string eqn:E.
  - rewrite Hg. apply IH. intros r Hin. apply Hall. right. exact Hin.
  - destruct (w x) eqn:Hw.
    + apply String.eqb_neq in E. exfalso. apply E. apply Hall; [left; reflexivity | exact Hw].
    + apply IH. intros r Hin. apply Hall. right. exact Hin.
Qed.

Lemma latest_singleton l p :
  (length l <= 1)%nat -> Permissions.latest l = Some p -> l = [p].
Proof.
  destruct l as [|x [|y l]]; cbn; intros Hlen H; [discriminate | | lia].
  injection H as <-. reflexivity.
Qed.

Lemma messaging_redelivery now1 now2 b db :
  (length (pending_requests b db) <= 1)%nat ->
  let db1 := step (ReqMessaging now1 b) db in
  calls (step (ReqMessaging now2 b) db1) = calls db1
  /\ permissions (step (ReqMessaging now2 b) db1) = permissions db1.
Proof.
  intros Hlen db1. unfold step, handle in *.
  assert (E1 := messaging_effect now1 b db).
  assert (E2 := messaging_effect now2 b db1).
  destruct (Webhooks.is_consent_reply b).
  2:{ rewrite E2. split; reflexivity. }
  destruct (Permissions.latest (pending_requests b db)) as [p|] eqn:Hp.
  2:{ assert (Hdb : db1 = db) by (unfold db1; rewrite E1; reflexivity).
      rewrite Hdb in *. rewrite Hp in E2. rewrite E2. split; reflexivity. }
  destruct ((Webhooks.reply_status b =? "approved")%string && _) eqn:Hclash.
  - assert (Hdb : db1 = db) by (unfold db1; rewrite E1; reflexivity).
    rewrite Hdb in *. rewrite Hp, Hclash in E2. rewrite E2. split; reflexivity.
  - assert (Hnone : pending_requests b db1 = []).
    { unfold pending_requests, db1. rewrite E1. cbn [snd permissions].
      apply (no_pending_after_reply _ _ _ _ p).
      - apply latest_singleton; assumption.
      - reflexivity.
      - intros r. unfold Webhooks.pending_for_number.
        cbn [CallPermission.status CallPermission.set_respondedAt
               CallPermission.set_status].
        rewrite reply_status_not_pending. apply andb_false_r. }
    rewrite Hnone in E2. cbn [Permissions.latest] in E2. rewrite E2.
    split; reflexivity.
Qed.

Lemma conference_tables k ev db :
  calls (step (ReqConference k ev) db) = calls db
  /\ permissions (step (ReqConference k ev) db) = permissions db.
Proof.
  unfold step, handle, Webhooks.conference, try_catch, bind, Calls.findByPk.
  destruct (find _ (calls db)); split; reflexivity.
Qed.

Lemma recording_tables k u db :
  calls (step (ReqRecording k u) db)
  = match find (fun c => (Call.id c =? k)%string) (calls db) with
    | Some c => if JS.truthy u
                then on_call (Call.id c) (Call.set_recordingUrl u) (calls db)
                else calls db
    | None => calls db
    end
  /\ permissions (step (ReqRecording k u) db) = permissions db.
Proof.
  unfold step, handle, Webhooks.recording, try_catch, bind, Calls.findByPk.
  destruct (find _ (calls db)); [destruct (JS.truthy u)|]; split; reflexivity.
Qed.

Lemma recording_redelivery k u db :
  let db1 := step (ReqRecording k u) db in
  calls (step (ReqRecording k u) db1) = calls db1
  /\ permissions (step (ReqRecording k u) db1) = permissions db1.
Proof.
  intros db1.
  destruct (recording_tables k u db) as [Hc1 Hp1].
  destruct (recording_tables k u db1) as [Hc2 Hp2].
  split; [|exact Hp2]. rewrite Hc2. fold db1 in Hc1.
  destruct (find (fun c => (Call.id c =? k)%string) (calls db)) as [c|] eqn:Hfind.
  - destruct (JS.truthy u) eqn:Hu.
    + rewrite Hc1. unfold on_call at 1. rewrite find_map_stable.
      * rewrite Hfind. cbn [option_map]. rewrite String.eqb_refl.
        cbn [Call.id Call.set_recordingUrl].
        apply on_call_twice; intros; reflexivity.
      * intros x. destruct (Call.id x =? Call.id c)%string; reflexivity.
    + rewrite Hc1, Hfind. reflexivity.
  - rewrite Hc1, Hfind. reflexivity.
Qed.

(** What [/voice/inbound] leaves behind is what resolving the caller
    wrote. *)
Lemma voice_inbound_effect e b db :
  step (ReqVoiceInbound e b) db
  = snd (Webhooks.resolve_contact e (InboundBody.From b) db).
Proof. unfold step, handle. rewrite voice_inbound_answer. reflexivity. Qed.

Lemma resolve_contact_permissions e from db :
  permissions (snd (Webhooks.resolve_contact e from db)) = permissions db.
Proof. apply resolve_contact_tables. Qed.

Lemma voice_inbound_redelivery e b db :
  let db1 := step (ReqVoiceInbound e b) db in
  calls (step (ReqVoiceInbound e b) db1) = calls db1
  /\ permissions (step (ReqVoiceInbound e b) db1) = permissions db1.
Proof.
  intros db1. rewrite voice_inbound_effect.
  split; [apply resolve_contact_calls | apply resolve_contact_permissions].
Qed.

(** C2, counterexample: the same [no-answer] event delivered twice for an
    outbound call counts two missed calls, delivered once it counts one. *)
Lemma duplicate_no_answer_counts_twice :
  let ev := ReqCallStatus 50000 (Sample.status_event "no-answer") in
  let db := Sample.db_ringing 0 in
  option_map CallPermission.consecutiveMissedCalls
    (permission_by_id "perm-1" (run [ev] db)) = Some 1
  /\ option_map CallPermission.consecutiveMissedCalls
       (permission_by_id "perm-1" (run [ev; ev] db)) = Some 2
  /\ permissions (run [ev; ev] db) <> permissions (run [ev] db).
Proof.
  cbv zeta. split; [|split]; [vm_compute; reflexivity ..|].
  intros H. apply (f_equal (map CallPermission.consecutiveMissedCalls)) in H.
  vm_compute in H. discriminate H.
Qed.

(** A consent reply delivered twice while two requests are pending for the
    number answers both; delivered once it answers the newer one only. *)
Lemma duplicate_decline_answers_two_requests :
  map CallPermission.status
    (permissions (run [ReqMessaging 90000 Sample.decline] Sample.db_two_pending))
  = ["pending"; "rejected"]
  /\ map CallPermission.status
       (permissions (run [ReqMessaging 90000 Sample.decline;
                          ReqMessaging 90000 Sample.decline] Sample.db_two_pending))
     = ["rejected"; "rejected"].
Proof. vm_compute. split; reflexivity. Qed.

(** C2, as the code has it: a provider event delivered a second time leaves
    the call and permission tables as the first delivery left them, except
    for a [no-answer] status event of an outbound call and for a consent
    reply while more than one request is pending for the number.  For a
    status event this holds also when the two deliveries are handled at
    different clock readings.  A [no-answer] status event of an outbound
    call adds one to [consecutiveMissedCalls] of the contact's newest
    approved permission at every delivery. *)
Theorem duplicate_delivery :
  (forall r db,
      provider_event r = true ->
      redelivery_safe r db = true ->
      calls (run [r; r] db) = calls (run [r] db)
      /\ permissions (run [r; r] db) = permissions (run [r] db))
  /\ (forall now1 now2 b db,
         calls (run [ReqCallStatus now1 b; ReqCallStatus now2 b] db)
         = calls (run [ReqCallStatus now1 b] db)
         /\ (counts_as_missed b db = false ->
             permissions (run [ReqCallStatus now1 b; ReqCallStatus now2 b] db)
             = permissions (run [ReqCallStatus now1 b] db)))
  /\ (forall now b db c p r,
         counts_as_missed b db = true ->
         call_by_sid (StatusBody.CallSid b) db = Some c ->
         newest_approved (Call.contactId c) db = Some p ->
         permission_by_id (CallPermission.id p) db = Some r ->
         exists r',
           permission_by_id (CallPermission.id p) (run [ReqCallStatus now b] db) = Some r'
           /\ CallPermission.consecutiveMissedCalls r'
              = CallPermission.consecutiveMissedCalls r + 1).
Proof.
  split; [|split].
  - intros r db Hev Hsafe. rewrite run_one, run_two.
    destruct r; try discriminate Hev; cbn [redelivery_safe] in Hsafe.
    + apply voice_inbound_redelivery.
    + apply negb_true_iff in Hsafe.
      destruct (status_event_redelivery now now b db) as [H1 H2]. auto.
    + apply Nat.leb_le in Hsafe. apply messaging_redelivery. exact Hsafe.
    + destruct (conference_tables callId StatusCallbackEvent
                  (step (ReqConference callId StatusCallbackEvent) db)). auto.
    + apply recording_redelivery.
  - intros now1 now2 b db. rewrite run_one, run_two.
    apply status_event_redelivery.
  - intros now b db c p r. rewrite run_one. apply missed_call_counted.
Qed.

Lemma duplicate_delivery_witness :
  (calls (run [ReqCallStatus 50000 (Sample.status_event "answered");
               ReqCallStatus 50000 (Sample.status_event "answered")]
            (Sample.db_ringing 2))
   = calls (run [ReqCallStatus 50000 (Sample.status_event "answered")]
              (Sample.db_ringing 2))
   /\ permissions (run [ReqCallStatus 50000 (Sample.status_event "answered");
                        ReqCallStatus 50000 (Sample.status_event "answered")]
                     (Sample.db_ringing 2))
      = permissions (run [ReqCallStatus 50000 (Sample.status_event "answered")]
                       (Sample.db_ringing 2)))
  /\ permissions (run [ReqCallStatus 50000 (Sample.status_event "completed");
                       ReqCallStatus 60000 (Sample.status_event "completed")]
                    (Sample.db_ringing 2))
     = permissions (run [ReqCallStatus 50000 (Sample.status_event "completed")]
                      (Sample.db_ringing 2))
  /\ exists r',
      permission_by_id "perm-1"
        (run [ReqCallStatus 50000 (Sample.status_event "no-answer")]
           (Sample.db_ringing 2)) = Some r'
      /\ CallPermission.consecutiveMissedCalls r' = 2 + 1.
Proof.
  destruct duplicate_delivery as (H1 & H2 & H3).
  split; [|split].
  - apply H1; reflexivity.
  - apply (proj2 (H2 50000 60000 (Sample.status_event "completed") (Sample.db_ringing 2))).
    reflexivity.
  - apply (H3 50000 (Sample.status_event "no-answer") (Sample.db_ringing 2)
             Sample.ringing_call (Sample.perm 2) (Sample.perm 2)); reflexivity.
Defined.

(** * The rest of the routes: theorems *)

(** ** Requests that name nothing the server knows *)

(** X1: a webhook that names a call the server does not know writes
    nothing; the status, conference and recording webhooks acknowledge it
    with 200 all the same, the TwiML webhook of an outbound call answers
    404. *)
Theorem webhook_for_unknown_call db :
  (forall now b,
      call_by_sid (StatusBody.CallSid b) db = None ->
      Webhooks.call_status now b db = (Ok (mkResp 200 "OK"), db))
  /\ (forall k ev,
         call_by_id k db = None ->
         Webhooks.conference k ev db = (Ok (mkResp 200 "OK"), db))
  /\ (forall k url,
         call_by_id k db = None ->
         Webhooks.recording k url db = (Ok (mkResp 200 "OK"), db))
  /\ (forall k s d,
         call_by_id k db = None ->
         Webhooks2.voice_outbound k s d db = (Ok (mkResp 404 "Call not found"), db)).
Proof.
  split; [|split; [|split]].
  - intros now b H. apply call_status_unknown_sid. exact H.
  - intros k ev H. unfold call_by_id in H.
    unfold Webhooks.conference, try_catch, bind, Calls.findByPk. rewrite H. reflexivity.
  - intros k url H. unfold call_by_id in H.
    unfold Webhooks.recording, try_catch, bind, Calls.findByPk. rewrite H. reflexivity.
  - intros k s d H. unfold call_by_id in H.
    unfold Webhooks2.voice_outbound, try_catch, bind, Calls.findByPk. rewrite H.
    reflexivity.
Qed.

Lemma webhook_for_unknown_call_witness :
  Webhooks.call_status 1 (Sample.status_event "completed") Sample.db_approved
  = (Ok (mkResp 200 "OK"), Sample.db_approved)
  /\ Webhooks2.voice_outbound "call-1" (Some "answered") None Sample.db_approved
     = (Ok (mkResp 404 "Call not found"), Sample.db_approved).
Proof.
  destruct (webhook_for_unknown_call Sample.db_approved) as (H1 & _ & _ & H4).
  split; [apply H1 | apply H4]; reflexivity.
Defined.

(** X2: an API request for a contact or a call the server does not know is
    answered 404 and writes nothing; a hangup request does not reach the
    provider then, whatever the provider would have answered. *)
Theorem api_request_for_unknown_key db :
  (forall e b,
      contact_by_id (OutboundBody.contactId b) db = None ->
      Api.outbound e b db = (Ok (mkResp 404 "Contact not found"), db))
  /\ (forall e b,
         contact_by_id (PermissionBody.contactId b) db = None ->
         Api.permission_request e b db = (Ok (mkResp 404 "Contact not found"), db))
  /\ (forall getCall sid,
         call_by_sid sid db = None ->
         Api.get_status getCall sid db = (Ok (mkResp 404 "Call not found"), db))
  /\ (forall hangupCall now sid,
         call_by_sid sid db = None ->
         Api.hangup hangupCall now sid db = (Ok (mkResp 404 "Call not found"), db)).
Proof.
  split; [|split; [|split]].
  - intros e b H. unfold contact_by_id in H.
    unfold Api.outbound, try_catch, bind, Contacts.findByPk. rewrite H. reflexivity.
  - intros e b H. unfold contact_by_id in H.
    unfold Api.permission_request, try_catch, bind, Contacts.findByPk. rewrite H.
    reflexivity.
  - intros g sid H. unfold call_by_sid in H.
    unfold Api.get_status, try_catch, bind, Calls.findOne_twilioCallSid. rewrite H.
    reflexivity.
  - intros h now sid H. unfold call_by_sid in H.
    unfold Api.hangup, try_catch, bind, Calls.findOne_twilioCallSid. rewrite H.
    reflexivity.
Qed.

Lemma api_request_for_unknown_key_witness :
  Api.outbound (Sample.dial_env (Ok "CA9"))
    (OutboundBody.mk "c-nobody" "+15550001" "agent-7" None) Sample.db_approved
  = (Ok (mkResp 404 "Contact not found"), Sample.db_approved)
  /\ Api.hangup (Ok tt) 1 "CA9" Sample.db_approved
     = (Ok (mkResp 404 "Call not found"), Sample.db_approved).
Proof.
  destruct (api_request_for_unknown_key Sample.db_approved) as (H1 & _ & _ & H4).
  split; [apply H1 | apply H4]; reflexivity.
Defined.

(** ** Reconciliation with the provider *)

(** X3: [GET /status/:callSid] for a known call of a known contact writes
    nothing and still answers 200 when the provider cannot be reached, and
    when the provider reports the status the call already has, whatever
    duration and end time come with it. *)
Theorem get_status_leaves_call_alone getCall sid db c contact :
  call_by_sid sid db = Some c ->
  contact_by_id (Call.contactId c) db = Some contact ->
  match getCall with
  | Ok tw => TwilioCall.status tw = Call.status c
  | Throw _ => True
  end ->
  Api.get_status getCall sid db = (Ok (mkResp 200 "status"), db).
Proof.
  intros Hc Hk Hsame. unfold call_by_sid in Hc. unfold contact_by_id in Hk.
  unfold Api.get_status, try_catch, bind, Calls.findOne_twilioCallSid, Contacts.findByPk.
  rewrite Hc. destruct getCall as [tw|err]; cbn [await].
  - rewrite Hsame, String.eqb_refl. cbn [negb ret]. rewrite Hk. reflexivity.
  - cbn [ret]. rewrite Hk. reflexivity.
Qed.

Lemma get_status_leaves_call_alone_witness :
  Api.get_status (Ok (TwilioCall.mk "ringing" (Some 77) (Some 99))) "CA1"
    (Sample.db_ringing 0)
  = (Ok (mkResp 200 "status"), Sample.db_ringing 0)
  /\ Api.get_status (Throw TwilioError) "CA1" (Sample.db_ringing 0)
     = (Ok (mkResp 200 "status"), Sample.db_ringing 0).
Proof.
  split.
  - apply (get_status_leaves_call_alone _ _ _ Sample.ringing_call Sample.ada);
      reflexivity.
  - apply (get_status_leaves_call_alone _ _ _ Sample.ringing_call Sample.ada);
      [reflexivity | reflexivity | exact I].
Defined.

(** ** [/outbound], case by case *)

(** Everything [/outbound] can do. *)
Lemma outbound_cases e b db :
  Api.outbound e b db =
  match contact_by_id (OutboundBody.contactId b) db with
  | None => (Ok (mkResp 404 "Contact not found"), db)
  | Some _ =>
      match outbound_permission b db with
      | None => (Ok (mkResp 403 "Call permission required"), db)
      | Some p =>
          if negb (CallPermission.canMakeCall (OutboundEnv.now_check e) p)
          then (Ok (mkResp 403 "Call permission required"), db)
          else (Ok (mkResp 500 "Failed to initiate call"), db)
      end
  end.
Proof.
  destruct (contact_by_id (OutboundBody.contactId b) db) as [contact|] eqn:Hcontact.
  2:{ unfold contact_by_id in Hcontact.
      unfold Api.outbound, try_catch, bind, Contacts.findByPk. rewrite Hcontact.
      reflexivity. }
  destruct (outbound_permission b db) as [p|] eqn:Hperm.
  2:{ apply (outbound_refused e b db contact Hcontact). rewrite Hperm. exact I. }
  destruct (CallPermission.canMakeCall (OutboundEnv.now_check e) p) eqn:Hcan; cbn [negb].
  2:{ apply (outbound_refused e b db contact Hcontact). rewrite Hperm. exact Hcan. }
  apply (outbound_permitted e b db contact p); assumption.
Qed.

(** X4: for a known contact, [/outbound] answers 403 exactly when the
    newest approved permission of the contact for the number dialled is
    missing or cannot make a call at that moment; then nothing is written
    and the provider is not asked to dial. *)
Theorem outbound_refused_iff e b db contact :
  contact_by_id (OutboundBody.contactId b) db = Some contact ->
  (res_status match fst (Api.outbound e b db) with
              | Ok r => r
              | Throw _ => mkResp 0 ""
              end = 403
   <-> match outbound_permission b db with
       | Some p => CallPermission.canMakeCall (OutboundEnv.now_check e) p = false
       | None => True
       end)
  /\ (match outbound_permission b db with
      | Some p => CallPermission.canMakeCall (OutboundEnv.now_check e) p = false
      | None => True
      end ->
      forall dial,
        Api.outbound (OutboundEnv.mk (OutboundEnv.now_check e) (OutboundEnv.now_start e)
                        (OutboundEnv.call_uuid e) (OutboundEnv.whatsappNumber e) dial)
          b db
        = (Ok (mkResp 403 "Call permission required"), db)).
Proof.
  intros Hcontact. split.
  - rewrite outbound_cases, Hcontact.
    destruct (outbound_permission b db) as [p|]; [|cbn; tauto].
    destruct (CallPermission.canMakeCall (OutboundEnv.now_check e) p); cbn [negb].
    + cbn; split; [lia | discriminate].
    + cbn. tauto.
  - intros H dial. apply (outbound_refused _ b db contact Hcontact). exact H.
Qed.

Lemma outbound_refused_iff_witness :
  Api.outbound (Sample.dial_env (Ok "CA9"))
    (OutboundBody.mk "c-ada" "+15550002" "agent-7" None) Sample.db_approved
  = (Ok (mkResp 403 "Call permission required"), Sample.db_approved).
Proof.
  destruct (outbound_refused_iff (Sample.dial_env (Ok "CA9"))
              (OutboundBody.mk "c-ada" "+15550002" "agent-7" None)
              Sample.db_approved Sample.ada eq_refl) as (_ & H).
  exact (H I (Ok "CA9")).
Defined.

(** ** Calls are never removed and keep their identity *)

Lemma same_call_identity_refl c : same_call_identity c c.
Proof. repeat split. Qed.

Lemma same_call_identity_trans a b c :
  same_call_identity a b -> same_call_identity b c -> same_call_identity a c.
Proof.
  unfold same_call_identity.
  intros (A1 & A2 & A3 & A4 & A5 & A6 & A7) (B1 & B2 & B3 & B4 & B5 & B6 & B7).
  repeat split; congruence.
Qed.

Lemma Forall2_refl_on {A} (R : A -> A -> Prop) l :
  (forall x, R x x) -> Forall2 R l l.
Proof. intros H. induction l; constructor; auto. Qed.

Lemma Forall2_map_right {A} (R : A -> A -> Prop) (g : A -> A) l l' :
  (forall x y, R x y -> R x (g y)) -> Forall2 R l l' -> Forall2 R l (map g l').
Proof. intros H F. induction F; cbn; constructor; auto. Qed.



Lemma calls_kept_refl l : calls_kept l l.
Proof. apply Forall2_refl_on. apply same_call_identity_refl. Qed.

Lemma calls_kept_map l0 l g :
  (forall c, same_call_identity c (g c)) ->
  calls_kept l0 l -> calls_kept l0 (map g l).
Proof.
  intros Hg F. apply Forall2_map_right; [|exact F].
  intros x y Hxy. apply (same_call_identity_trans x y (g y)); auto.
Qed.

Section CallsKept.

Variable l0 : list Call.t.

Let J (db : DB) : Prop := calls_kept l0 (calls db).

Lemma extend_frame {A} (m : M A) :
  (forall db, calls (snd (m db)) = calls db) -> preserves J m.
Proof. intros Hm db H. unfold J in *. rewrite Hm. exact H. Qed.

Lemma extend_create c : preserves J (Calls.create c).
Proof.
  intros db H. rewrite calls_create_refused. exact H.
Qed.

Lemma extend_update k f :
  (forall c, same_call_identity c (f c)) -> preserves J (Calls.update k f).
Proof.
  intros Hf db H. unfold J, Calls.update, Calls.write in *. cbn [snd calls].
  apply calls_kept_map; [|exact H].
  intros c. destruct (Call.id c =? k)%string; [apply Hf | apply same_call_identity_refl].
Qed.

Lemma extend_update_hubspotCallId k h f :
  (forall c, same_call_identity c (f c)) ->
  preserves J (Calls.update_hubspotCallId k h f).
Proof.
  intros Hf db H. unfold Calls.update_hubspotCallId.
  destruct (existsb _ (calls db)); [exact H|].
  apply (extend_update k
           (fun c => f (Call.set_hubspotCallId (JS.updated h (Call.hubspotCallId c)) c)));
    [|exact H].
  intros c.
  apply (same_call_identity_trans c
           (Call.set_hubspotCallId (JS.updated h (Call.hubspotCallId c)) c)).
  - repeat split.
  - apply Hf.
Qed.

End CallsKept.

Lemma status_updates_identity now b c r :
  same_call_identity r (Webhooks.status_updates now b c r).
Proof.
  unfold Webhooks.status_updates.
  destruct (StatusBody.CallDuration b) as [d|];
    [destruct (JS.truthy (Some d))|];
    destruct (JS.truthy (StatusBody.RecordingUrl b));
    destruct ((StatusBody.CallStatus b =? "completed")%string
              && negb (is_some (Call.endTime c))); repeat split.
Qed.

(** Walking through a handler, with [leaf] for the operations on the
    database. *)
Ltac walk leaf :=
  repeat first
    [ apply preserves_try_catch; [|intros]
    | apply preserves_bind; [|intros]
    | apply preserves_ret
    | apply preserves_throw
    | apply preserves_await
    | leaf
    | match goal with
      | |- preserves _ (match ?x with _ => _ end) => destruct x
      | |- preserves _ (if ?x then _ else _) => destruct x
      end ].

Ltac calls_untouched :=
  intros ?db;
  unfold Contacts.create, Contacts.validate, Permissions.create,
    Permissions.update_status, route, try_catch, ret, throw;
  repeat match goal with
         | |- context [if ?x then _ else _] => destruct x
         | |- context [match ?x with Ok _ => _ | Throw _ => _ end] => destruct x
         end;
  reflexivity.

Ltac extend_leaf :=
  first
    [ apply extend_create
    | apply extend_update; intros; first [apply status_updates_identity | repeat split]
    | apply extend_update_hubspotCallId; intros; repeat split
    | apply extend_frame; calls_untouched ].

Lemma calls_kept_step l0 r db :
  calls_kept l0 (calls db) -> calls_kept l0 (calls (step r db)).
Proof.
  unfold step. revert db.
  change (preserves (fun db => calls_kept l0 (calls db)) (handle r)).
  destruct r; cbn [handle].
  - unfold Webhooks.voice_inbound, Webhooks.resolve_contact, Webhooks.syncContact,
      Contacts.validate.
    walk extend_leaf.
  - unfold Webhooks.call_status, Webhooks.record_no_answer, Webhooks.record_answered.
    walk extend_leaf.
  - unfold Webhooks.messaging. walk extend_leaf.
  - unfold Webhooks.conference. walk extend_leaf.
  - unfold Webhooks.recording. walk extend_leaf.
  - intros db H. rewrite outbound_cases.
    repeat match goal with
           | |- context [match ?x with _ => _ end] => destruct x
           end; cbn [snd]; exact H.
  - unfold Api.permission_request, Api.dispatch_consent. walk extend_leaf.
  - unfold Api.get_status. walk extend_leaf.
  - unfold Api.hangup. walk extend_leaf.
  - unfold Api.onCallEnded. walk extend_leaf.
  - unfold Api.onCallCompleted. walk extend_leaf.
Qed.

Lemma keeps_calls_frame {A} l (m : M A) :
  (forall db, calls (snd (m db)) = calls db) -> preserves (fun db => calls db = l) m.
Proof. intros Hm db H. rewrite Hm. exact H. Qed.

Ltac frame_leaf := apply keeps_calls_frame; calls_untouched.

(** The routes outside the call lifecycle leave the call table alone. *)
Lemma other_keeps_calls r db : calls (step_any (Other r) db) = calls db.
Proof.
  revert db. cut (forall l db, calls db = l -> calls (step_any (Other r) db) = l);
    [intros H db; apply (H (calls db) db eq_refl)|].
  intros l. destruct r; cbn [step_any].
  - change (preserves (fun db => calls db = l) (Webhooks2.voice_outbound callId CallStatus DialCallStatus)).
    unfold Webhooks2.voice_outbound. walk frame_leaf.
  - intros db H. exact H.
  - intros db H. exact H.
  - intros db H. unfold Crm.analytics, route, try_catch.
    destruct (Crm.map_outcome _ _); exact H.
  - change (preserves (fun db => calls db = l) (Crm.contact_sync e hubspotContactId)).
    unfold Crm.contact_sync, route, Webhooks.syncContact,
      Contacts.validate. walk frame_leaf.
  - change (preserves (fun db => calls db = l) (Crm.onDialNumber e now phoneNumber objectId)).
    unfold Crm.onDialNumber, route, Webhooks.syncContact,
      Contacts.validate. walk frame_leaf.
  - change (preserves (fun db => calls db = l) (Crm.webhooks e b)).
    unfold Crm.webhooks, Crm.sync_object, Webhooks.syncContact,
      Contacts.validate. walk frame_leaf.
Qed.

Lemma calls_kept_run rs db : calls_kept (calls db) (calls (run_any rs db)).
Proof.
  assert (H : forall l0 db0, calls_kept l0 (calls db0) ->
                             calls_kept l0 (calls (run_any rs db0))).
  { induction rs as [|r rs IH]; intros l0 db0 H0; [exact H0|].
    cbn [run_any fold_left]. apply IH. destruct r as [r|r].
    - cbn [step_any]. apply calls_kept_step. exact H0.
    - rewrite other_keeps_calls. exact H0. }
  apply H. apply calls_kept_refl.
Qed.

(** X8: whatever requests are handled, no call is ever removed or moved,
    and a call keeps its key, its [twilioCallSid], its contact, its
    direction, its two numbers and its [startTime]: the call table after a
    run is the table before it, row by row with these columns unchanged,
    followed by the calls created since. *)
Theorem calls_are_append_only rs db :
  exists olds news,
    calls (run_any rs db) = (olds ++ news)%list
    /\ Forall2 same_call_identity (calls db) olds.
Proof.
  exists (calls (run_any rs db)), []. split; [symmetry; apply app_nil_r|].
  apply calls_kept_run.
Qed.

(** ** Requests that pass every check *)

(** X5: a dial request and a consent request that pass every check are
    answered 500 and leave the store as it was.  The handler inserts the row
    of the call (of the permission) first, and the store refuses the insert:
    the foreign key of [contactId] names the table [HubSpotContacts], which
    the schema does not have.  The provider is neither asked to dial nor to
    send the consent message, so the answer is the same whatever the
    provider would have done. *)
Theorem checked_requests_end_at_the_insert db :
  Schema.has_table Schema.contactId_references = false
  /\ (forall e b contact p dial,
         contact_by_id (OutboundBody.contactId b) db = Some contact ->
         outbound_permission b db = Some p ->
         CallPermission.canMakeCall (OutboundEnv.now_check e) p = true ->
         Calls.create (Api.new_outbound_call e b) db = (Throw SequelizeDatabaseError, db)
         /\ Api.outbound
              (OutboundEnv.mk (OutboundEnv.now_check e) (OutboundEnv.now_start e)
                 (OutboundEnv.call_uuid e) (OutboundEnv.whatsappNumber e) dial) b db
            = (Ok (mkResp 500 "Failed to initiate call"), db))
  /\ (forall e b contact send,
         contact_by_id (PermissionBody.contactId b) db = Some contact ->
         requests_since (PermissionBody.contactId b)
           (JS.replace "whatsapp:" "" (PermissionBody.whatsappNumber b))
           (PermissionEnv.now_day e - day_ms) db < Config.maxRequestsPerDay ->
         requests_since (PermissionBody.contactId b)
           (JS.replace "whatsapp:" "" (PermissionBody.whatsappNumber b))
           (PermissionEnv.now_week e - week_ms) db < Config.maxRequestsPer7Days ->
         Permissions.create (Api.new_permission e b) db
         = (Throw SequelizeDatabaseError, db)
         /\ Api.permission_request
              (PermissionEnv.mk (PermissionEnv.now_day e) (PermissionEnv.now_week e)
                 (PermissionEnv.now_requested e) (PermissionEnv.now_created e)
                 (PermissionEnv.now_expires e) (PermissionEnv.permission_uuid e) send)
              b db
            = (Ok (mkResp 500 "Failed to send permission request"), db)).
Proof.
  split; [reflexivity|]. split.
  - intros e b contact p dial Hcontact Hperm Hcan. split; [reflexivity|].
    apply (outbound_permitted _ b db contact p); assumption.
  - intros e b contact send Hcontact Hday Hweek. split; [reflexivity|].
    apply (permission_request_within_limits _ b db contact); assumption.
Qed.

Lemma checked_requests_end_at_the_insert_witness :
  Api.outbound (Sample.dial_env (Ok "CA9")) Sample.dial_request Sample.db_approved
  = (Ok (mkResp 500 "Failed to initiate call"), Sample.db_approved)
  /\ Api.permission_request (Sample.permission_env "perm-a" Sample.t0 (Ok "SM1"))
       Sample.permission_body Sample.db_contact_only
     = (Ok (mkResp 500 "Failed to send permission request"), Sample.db_contact_only).
Proof.
  split.
  - destruct (checked_requests_end_at_the_insert Sample.db_approved) as (_ & H & _).
    apply (H (Sample.dial_env (Ok "CA9")) Sample.dial_request Sample.ada (Sample.perm 0)
             (Ok "CA9")); reflexivity.
  - destruct (checked_requests_end_at_the_insert Sample.db_contact_only) as (_ & _ & H).
    apply (H (Sample.permission_env "perm-a" Sample.t0 (Ok "SM1")) Sample.permission_body
             Sample.ada (Ok "SM1")); reflexivity.
Defined.

(** ** The handlers write the permission table by the moves of the ledger *)

Lemma perm_steps_one l l' : perm_step l l' -> perm_steps l l'.
Proof. intros H. eapply steps_next; [exact H | apply steps_done]. Qed.

Lemma perm_steps_trans l1 l2 l3 :
  perm_steps l1 l2 -> perm_steps l2 l3 -> perm_steps l1 l3.
Proof.
  intros H. revert l3. induction H as [|a b c Hab Hbc IH]; intros l3 H3; [exact H3|].
  eapply steps_next; [exact Hab | apply IH; exact H3].
Qed.

Section LedgerMoves.

Variable l0 : list CallPermission.t.

Let J (db : DB) : Prop := perm_steps l0 (permissions db).

Lemma ledger_frame {A} (m : M A) :
  (forall db, permissions (snd (m db)) = permissions db) -> preserves J m.
Proof. intros Hm db H. unfold J in *. rewrite Hm. exact H. Qed.

Lemma ledger_expire_pending contact :
  preserves J (fun db => (Ok tt, mkDB (contacts db) (calls db)
                                     (Crm.expire_pending contact (permissions db))
                                     (logs db))).
Proof.
  intros db H. unfold J in *. cbn [snd permissions].
  apply (perm_steps_trans _ _ _ H). apply perm_steps_one. apply ps_contact_deleted.
Qed.

End LedgerMoves.

Ltac permissions_untouched :=
  intros ?db;
  unfold Contacts.create, Contacts.validate, Calls.create, Calls.update_twilioCallSid,
    Calls.update_hubspotCallId, route, try_catch, ret, throw;
  repeat match goal with
         | |- context [if ?x then _ else _] => destruct x
         | |- context [match ?x with Ok _ => _ | Throw _ => _ end] => destruct x
         end;
  reflexivity.

Ltac ledger_leaf :=
  first [ apply ledger_expire_pending
        | apply ledger_frame; permissions_untouched ].

Lemma status_event_moves b c l :
  perm_steps l (status_event_permissions b c l).
Proof.
  unfold status_event_permissions.
  destruct (Permissions.latest (filter (Webhooks.approved_for_contact (Call.contactId c)) l))
    as [p|] eqn:Hp.
  - pose proof (latest_in _ _ Hp) as Hin. apply filter_In in Hin.
    destruct Hin as [Hin Hw]. unfold Webhooks.approved_for_contact in Hw.
    apply andb_true_iff in Hw. destruct Hw as [_ Hs]. apply String.eqb_eq in Hs.
    destruct (_ && _).
    + destruct (4 <=? _); apply perm_steps_one;
        [apply ps_missed_expired | apply ps_missed]; assumption.
    + destruct (_ && _); [|apply steps_done].
      apply perm_steps_one. apply ps_reset; assumption.
  - destruct (_ && _); [apply steps_done|]. destruct (_ && _); apply steps_done.
Qed.

Lemma reply_status_cases b :
  Webhooks.reply_status b = "approved" \/ Webhooks.reply_status b = "rejected".
Proof.
  unfold Webhooks.reply_status.
  destruct (MessagingBody.ButtonPayload b) as [s|]; [|right; reflexivity].
  repeat match goal with
         | |- context [match ?x with _ => _ end] => destruct x; auto
         end.
Qed.

Lemma messaging_moves now b db :
  perm_steps (permissions db) (permissions (step (ReqMessaging now b) db)).
Proof.
  unfold step, handle. rewrite messaging_effect.
  destruct (Webhooks.is_consent_reply b); [|apply steps_done].
  destruct (Permissions.latest (pending_requests b db)) as [p|] eqn:Hp; [|apply steps_done].
  pose proof (latest_in _ _ Hp) as Hin. unfold pending_requests in Hin.
  apply filter_In in Hin. destruct Hin as [Hin Hw].
  unfold Webhooks.pending_for_number in Hw. apply andb_true_iff in Hw.
  destruct Hw as [_ Hs]. apply String.eqb_eq in Hs.
  destruct ((Webhooks.reply_status b =? "approved")%string && _) eqn:Hclash;
    [apply steps_done|].
  cbn [snd permissions]. apply perm_steps_one.
  apply ps_reply; [exact Hin | exact Hs | apply reply_status_cases |].
  intros Happ. rewrite Happ in Hclash. cbn [String.eqb Ascii.eqb Bool.eqb andb] in Hclash.
  exact Hclash.
Qed.

Lemma outbound_moves e b db :
  perm_steps (permissions db) (permissions (step (ReqOutbound e b) db)).
Proof.
  unfold step, handle. rewrite outbound_cases.
  destruct (contact_by_id _ db); [|apply steps_done].
  destruct (outbound_permission b db) as [p|]; [|apply steps_done].
  destruct (negb _); apply steps_done.
Qed.

Lemma permission_request_moves e b db :
  perm_steps (permissions db) (permissions (step (ReqPermissionRequest e b) db)).
Proof.
  unfold step, handle.
  destruct (contact_by_id (PermissionBody.contactId b) db) as [contact|] eqn:Hcontact.
  2:{ unfold contact_by_id in Hcontact.
      unfold Api.permission_request, try_catch, bind, Contacts.findByPk.
      rewrite Hcontact. apply steps_done. }
  set (number := JS.replace "whatsapp:" "" (PermissionBody.whatsappNumber b)).
  destruct (Z_lt_le_dec (requests_since (PermissionBody.contactId b) number
                           (PermissionEnv.now_day e - day_ms) db)
              Config.maxRequestsPerDay) as [Hday|Hday].
  2:{ rewrite (permission_request_limited e b db contact Hcontact); [apply steps_done|].
      left. exact Hday. }
  destruct (Z_lt_le_dec (requests_since (PermissionBody.contactId b) number
                           (PermissionEnv.now_week e - week_ms) db)
              Config.maxRequestsPer7Days) as [Hweek|Hweek].
  2:{ rewrite (permission_request_limited e b db contact Hcontact); [apply steps_done|].
      right. exact Hweek. }
  rewrite (permission_request_within_limits e b db contact Hcontact Hday Hweek).
  apply steps_done.
Qed.

Lemma permissions_step r db :
  perm_steps (permissions db) (permissions (step r db)).
Proof.
  assert (walked : preserves (fun d => perm_steps (permissions db) (permissions d))
                     (handle r) ->
                   perm_steps (permissions db) (permissions (step r db))).
  { intros H. apply (H db). apply steps_done. }
  destruct r.
  - apply walked. cbn [handle].
    unfold Webhooks.voice_inbound, Webhooks.resolve_contact, Webhooks.syncContact,
      Contacts.validate.
    walk ledger_leaf.
  - destruct (call_by_sid (StatusBody.CallSid b) db) as [c|] eqn:Hc.
    + destruct (call_status_tables now b db c Hc) as (_ & -> & _).
      apply status_event_moves.
    + unfold step, handle. rewrite (call_status_unknown_sid now b db Hc).
      apply steps_done.
  - apply messaging_moves.
  - destruct (conference_tables callId StatusCallbackEvent db) as [_ ->]. apply steps_done.
  - destruct (recording_tables callId RecordingUrl db) as [_ ->]. apply steps_done.
  - apply outbound_moves.
  - apply permission_request_moves.
  - apply walked. cbn [handle]. unfold Api.get_status. walk ledger_leaf.
  - apply walked. cbn [handle]. unfold Api.hangup. walk ledger_leaf.
  - apply walked. cbn [handle]. unfold Api.onCallEnded. walk ledger_leaf.
  - apply walked. cbn [handle]. unfold Api.onCallCompleted. walk ledger_leaf.
Qed.

Lemma permissions_step_any r db :
  perm_steps (permissions db) (permissions (step_any r db)).
Proof.
  destruct r as [r|r]; [apply permissions_step|].
  assert (walked : forall m : M Response,
             preserves (fun d => perm_steps (permissions db) (permissions d)) m ->
             perm_steps (permissions db) (permissions (snd (m db)))).
  { intros m H. apply (H db). apply steps_done. }
  assert (walked' : forall A (m : M (Reply A)),
             preserves (fun d => perm_steps (permissions db) (permissions d)) m ->
             perm_steps (permissions db) (permissions (snd (m db)))).
  { intros A m H. apply (H db). apply steps_done. }
  destruct r; cbn [step_any].
  - apply walked. unfold Webhooks2.voice_outbound. walk ledger_leaf.
  - apply steps_done.
  - apply steps_done.
  - unfold Crm.analytics, route, try_catch. destruct (Crm.map_outcome _ _); apply steps_done.
  - apply walked'. unfold Crm.contact_sync, route, Webhooks.syncContact,
      Contacts.validate. walk ledger_leaf.
  - apply walked'. unfold Crm.onDialNumber, route, Webhooks.syncContact,
      Contacts.validate. walk ledger_leaf.
  - apply walked. unfold Crm.webhooks, Crm.sync_object, Webhooks.syncContact,
      Contacts.validate.
    walk ledger_leaf.
Qed.

Lemma permissions_run rs db :
  perm_steps (permissions db) (permissions (run_any rs db)).
Proof.
  revert db. induction rs as [|r rs IH]; intros db; [apply steps_done|].
  cbn [run_any fold_left]. eapply perm_steps_trans; [apply permissions_step_any|].
  apply IH.
Qed.

(** ** What the moves of the ledger keep *)

Lemma map_id_on_permission k f l :
  (forall r, CallPermission.id (f r) = CallPermission.id r) ->
  map CallPermission.id (on_permission k f l) = map CallPermission.id l.
Proof.
  intros Hf. unfold on_permission. rewrite map_map. apply map_ext. intros r.
  destruct (CallPermission.id r =? k)%string; [apply Hf | reflexivity].
Qed.

Lemma map_id_expire_pending contact l :
  map CallPermission.id (Crm.expire_pending contact l) = map CallPermission.id l.
Proof.
  unfold Crm.expire_pending. rewrite map_map. apply map_ext. intros r.
  destruct (_ && _); reflexivity.
Qed.

Lemma perm_step_keeps_keys l l' :
  perm_step l l' -> map CallPermission.id l' = map CallPermission.id l.
Proof.
  intros H. destruct H; try reflexivity;
    try (rewrite ?map_id_on_permission; auto; fail).
  apply map_id_expire_pending.
Qed.

Lemma perm_step_nodup l l' :
  perm_step l l' -> NoDup (map CallPermission.id l) -> NoDup (map CallPermission.id l').
Proof.
  intros H N. rewrite (perm_step_keeps_keys l l' H). exact N.
Qed.

(** With distinct keys, the row found under a key is the row. *)
Lemma nodup_same_key l p r :
  NoDup (map CallPermission.id l) -> In p l -> In r l ->
  CallPermission.id r = CallPermission.id p -> r = p.
Proof.
  induction l as [|x l IH]; intros N Hp Hr Hid; [contradiction|].
  cbn [map] in N. inversion N as [|? ? Hx N']; subst.
  destruct Hp as [<-|Hp], Hr as [<-|Hr]; auto.
  - exfalso. apply Hx. rewrite <- Hid. apply in_map. exact Hr.
  - exfalso. apply Hx. rewrite Hid. apply in_map. exact Hp.
Qed.

Lemma in_on_permission k f l x :
  In x (on_permission k f l) ->
  exists r, In r l /\ x = if (CallPermission.id r =? k)%string then f r else r.
Proof.
  unfold on_permission. intros H. apply in_map_iff in H.
  destruct H as (r & Hr & Hin). exists r. split; [exact Hin | symmetry; exact Hr].
Qed.

(** No move of the ledger writes [callsUsed] or [maxCalls]. *)
Lemma perm_step_counters l l' :
  perm_step l l' -> map permission_counters l' = map permission_counters l.
Proof.
  intros H.
  assert (Hon : forall k f l0,
             (forall r, permission_counters (f r) = permission_counters r) ->
             map permission_counters (on_permission k f l0) = map permission_counters l0).
  { intros k f l0 Hf. unfold on_permission. rewrite map_map. apply map_ext. intros r.
    destruct (CallPermission.id r =? k)%string; [apply Hf | reflexivity]. }
  destruct H; try reflexivity; try (rewrite ?Hon; auto; fail).
  unfold Crm.expire_pending. rewrite map_map. apply map_ext. intros r.
  destruct (_ && _); reflexivity.
Qed.

Lemma perm_steps_counters l l' :
  perm_steps l l' -> map permission_counters l' = map permission_counters l.
Proof.
  intros H. induction H as [|a b c Hab Hbc IH]; [reflexivity|].
  rewrite IH. apply perm_step_counters. exact Hab.
Qed.

(** A rewrite of rows that approves nothing keeps the index property. *)
Lemma one_approved_map g l :
  (forall r, CallPermission.id (g r) = CallPermission.id r
             /\ CallPermission.contactId (g r) = CallPermission.contactId r
             /\ CallPermission.whatsappNumber (g r) = CallPermission.whatsappNumber r
             /\ (CallPermission.status (g r) = "approved" ->
                 CallPermission.status r = "approved")) ->
  one_approved_per_pair l -> one_approved_per_pair (map g l).
Proof.
  intros Hg H p q Hp Hq Sp Sq Hc Hn.
  apply in_map_iff in Hp, Hq. destruct Hp as (p0 & <- & Hp), Hq as (q0 & <- & Hq).
  destruct (Hg p0) as (I1 & C1 & N1 & S1), (Hg q0) as (I2 & C2 & N2 & S2).
  rewrite I1, I2. apply H; auto; congruence.
Qed.

Lemma on_permission_as_map k f l :
  on_permission k f l
  = map (fun p => if (CallPermission.id p =? k)%string then f p else p) l.
Proof. reflexivity. Qed.

Lemma perm_step_one_approved l l' :
  perm_step l l' -> NoDup (map CallPermission.id l) ->
  one_approved_per_pair l -> one_approved_per_pair l'.
Proof.
  intros H N Hone. destruct H.
  - exact Hone.
  - rewrite on_permission_as_map. apply one_approved_map; [|exact Hone].
    intros r. destruct (_ =? _)%string; repeat split; auto.
  - rewrite !on_permission_as_map. apply one_approved_map.
    + intros r. destruct (_ =? _)%string; repeat split; auto. cbn. discriminate.
    + apply one_approved_map; [|exact Hone].
      intros r. destruct (_ =? _)%string; repeat split; auto.
  - rewrite on_permission_as_map. apply one_approved_map; [|exact Hone].
    intros r. destruct (_ =? _)%string; repeat split; auto.
  - destruct H1 as [->| ->].
    + (* approved: the index has been checked *)
      specialize (H2 eq_refl).
      intros x y Hx Hy Sx Sy Hc Hn.
      apply in_on_permission in Hx, Hy.
      destruct Hx as (x0 & Hx0 & ->), Hy as (y0 & Hy0 & ->).
      destruct (CallPermission.id x0 =? CallPermission.id p)%string eqn:Ex,
               (CallPermission.id y0 =? CallPermission.id p)%string eqn:Ey;
        cbn [CallPermission.id CallPermission.set_respondedAt CallPermission.set_status
               CallPermission.contactId CallPermission.whatsappNumber
               CallPermission.status] in *.
      * apply String.eqb_eq in Ex, Ey. congruence.
      * apply String.eqb_eq in Ex.
        assert (x0 = p) by (apply (nodup_same_key l); auto). subst x0.
        pose proof (existsb_false_in _ _ H2 y0 Hy0) as Hf. cbv beta in Hf.
        rewrite Ey, Sy in Hf. rewrite <- Hc, <- Hn, !String.eqb_refl in Hf.
        discriminate.
      * apply String.eqb_eq in Ey.
        assert (y0 = p) by (apply (nodup_same_key l); auto). subst y0.
        pose proof (existsb_false_in _ _ H2 x0 Hx0) as Hf. cbv beta in Hf.
        rewrite Ex, Sx in Hf. rewrite Hc, Hn, !String.eqb_refl in Hf.
        discriminate.
      * apply Hone; auto.
    + rewrite on_permission_as_map. apply one_approved_map; [|exact Hone].
      intros r. destruct (_ =? _)%string; repeat split; auto. cbn. discriminate.
  - unfold Crm.expire_pending. apply one_approved_map; [|exact Hone].
    intros r. destruct (_ && _); repeat split; auto. cbn. discriminate.
Qed.

Lemma perm_steps_one_approved l l' :
  perm_steps l l' -> NoDup (map CallPermission.id l) ->
  one_approved_per_pair l -> one_approved_per_pair l'.
Proof.
  intros H. induction H as [|a b c Hab Hbc IH]; intros N Hone; [exact Hone|].
  apply IH; [apply (perm_step_nodup a b Hab N) | apply (perm_step_one_approved a b Hab N Hone)].
Qed.

(** X6: whatever requests are handled, no permission is added or removed
    and none has its [callsUsed] or its [maxCalls] written: the keys of the
    permission table, with the two counters of each row, are after a run
    what they were before it.  No call is counted against a permission,
    for the one write of [callsUsed], in [/outbound], comes after the
    insert of the call row, which the store refuses. *)
Theorem calls_used_never_changes rs db :
  map permission_counters (permissions (run_any rs db))
  = map permission_counters (permissions db).
Proof. apply perm_steps_counters. apply permissions_run. Qed.

(** X12: with distinct keys, two approved permissions for one contact and
    number never come to exist, whatever requests are handled: the consent
    reply that would approve a second one is refused by the partial unique
    index, and nothing else approves. *)
Theorem one_approved_permission_per_pair rs db :
  NoDup (map CallPermission.id (permissions db)) ->
  one_approved_per_pair (permissions db) ->
  one_approved_per_pair (permissions (run_any rs db)).
Proof. apply perm_steps_one_approved. apply permissions_run. Qed.

Lemma one_approved_permission_per_pair_witness :
  one_approved_per_pair
    (permissions (run_any [Core (ReqMessaging 9000 Cases.accept)] Sample.db_two_pending)).
Proof.
  apply one_approved_permission_per_pair.
  - repeat constructor; cbn; intuition discriminate.
  - intros p q [<-|[<-|[]]] [<-|[<-|[]]]; cbn; intros; try discriminate; reflexivity.
Defined.

(** ** The life of a permission *)












(** ** No call is ever added *)

Lemma calls_kept_sids l l' :
  calls_kept l l' -> map Call.twilioCallSid l' = map Call.twilioCallSid l.
Proof.
  intros F. induction F as [|a b l l' (_ & Hsid & _) F IH]; [reflexivity|].
  cbn [map]. rewrite Hsid, IH. reflexivity.
Qed.

Lemma find_sid_by_map sid l l' :
  map Call.twilioCallSid l' = map Call.twilioCallSid l ->
  find (fun c => (Call.twilioCallSid c =? sid)%string) l = None ->
  find (fun c => (Call.twilioCallSid c =? sid)%string) l' = None.
Proof.
  revert l'. induction l as [|a l IH]; intros [|b l'] Hmap Hnone;
    try discriminate; [reflexivity|].
  cbn [map] in Hmap. injection Hmap as Hb Hl. cbn [find] in *. rewrite Hb.
  destruct (Call.twilioCallSid a =? sid)%string; [discriminate|].
  apply IH; assumption.
Qed.

(** X9: whatever requests are handled, no call is added to the call table
    and none is removed: the table after a run holds the calls it held
    before, row by row, each with its key, [twilioCallSid], contact,
    direction, numbers and [startTime].  So a sid that no call holds is
    held by none afterwards: neither an inbound call event nor a dial
    request leaves a call on record, for the store refuses the insert. *)
Theorem no_call_is_ever_added rs db :
  Forall2 same_call_identity (calls db) (calls (run_any rs db))
  /\ length (calls (run_any rs db)) = length (calls db)
  /\ (forall sid, call_by_sid sid db = None -> call_by_sid sid (run_any rs db) = None).
Proof.
  pose proof (calls_kept_run rs db) as F. split; [exact F|]. split.
  - symmetry. apply (Forall2_length F).
  - intros sid. apply find_sid_by_map. apply calls_kept_sids. exact F.
Qed.

Lemma no_call_is_ever_added_witness :
  let rs := [Core (ReqVoiceInbound (Sample.inbound_env "call-2") (Sample.inbound_body "CA2"));
             Core (ReqOutbound (Sample.dial_env (Ok "CA9")) Sample.dial_request)] in
  call_by_sid "CA2" (run_any rs Sample.db_approved) = None
  /\ call_by_sid "CA9" (run_any rs Sample.db_approved) = None
  /\ length (calls (run_any rs Sample.db_approved)) = 0%nat.
Proof.
  cbv zeta.
  destruct (no_call_is_ever_added
              [Core (ReqVoiceInbound (Sample.inbound_env "call-2")
                       (Sample.inbound_body "CA2"));
               Core (ReqOutbound (Sample.dial_env (Ok "CA9")) Sample.dial_request)]
              Sample.db_approved) as (_ & Hlen & Hsid).
  split; [apply Hsid; reflexivity|]. split; [apply Hsid; reflexivity|]. exact Hlen.
Defined.

(** ** Numbers with and without the [whatsapp:] prefix *)

Lemma replace_whatsapp_prefix n : JS.replace "whatsapp:" "" ("whatsapp:" ++ n) = n.
Proof. destruct n; reflexivity. Qed.

Lemma includes_false_prefix s sub :
  Text.includes s sub = false -> String.prefix sub s = false.
Proof. destruct s; cbn [Text.includes]; destruct (String.prefix sub _); congruence. Qed.

Lemma replace_absent pat rep s : Text.includes s pat = false -> JS.replace pat rep s = s.
Proof.
  induction s as [|c s IH]; intros H.
  - pose proof (includes_false_prefix _ _ H) as Hp. cbn [JS.replace]. rewrite Hp. reflexivity.
  - pose proof (includes_false_prefix _ _ H) as Hp. cbn [JS.replace]. rewrite Hp.
    cbn [Text.includes] in H. rewrite Hp in H. rewrite (IH H). reflexivity.
Qed.

Lemma outbound_number_prefixed k n a notes :
  JS.startsWith n "whatsapp:" = false ->
  Api.outbound_number (OutboundBody.mk k ("whatsapp:" ++ n) a notes)
  = Api.outbound_number (OutboundBody.mk k n a notes).
Proof.
  intros H. unfold Api.outbound_number. cbn [OutboundBody.toNumber]. rewrite H.
  destruct n; reflexivity.
Qed.

(** X11: the [whatsapp:] prefix of a number is optional.  For a number that
    does not contain it, [/outbound] and [/permission/request] behave the
    same whether the request carries the number bare or prefixed; the key
    of the permission is the bare number either way, and the number dialled
    is the one [getWhatsAppFormatted] gives for a contact that holds the
    bare number. *)
Theorem whatsapp_prefix_is_optional n :
  Text.includes n "whatsapp:" = false ->
  (forall e k a notes db,
      Api.outbound e (OutboundBody.mk k ("whatsapp:" ++ n) a notes) db
      = Api.outbound e (OutboundBody.mk k n a notes) db)
  /\ (forall e k db,
         Api.permission_request e (PermissionBody.mk k ("whatsapp:" ++ n)) db
         = Api.permission_request e (PermissionBody.mk k n) db)
  /\ (forall e k, CallPermission.whatsappNumber (Api.new_permission e (PermissionBody.mk k n))
                  = n)
  /\ (forall k a notes,
         JS.replace "whatsapp:" "" (Api.outbound_number (OutboundBody.mk k n a notes)) = n)
  /\ (forall c k a notes,
         HubSpotContact.whatsappNumber c = Some n -> n <> "" ->
         ContactMethods.getWhatsAppFormatted c
         = Some (Api.outbound_number (OutboundBody.mk k n a notes))).
Proof.
  intros Hn. pose proof (includes_false_prefix _ _ Hn) as Hp.
  split; [|split; [|split; [|split]]].
  - intros e k a notes db.
    unfold Api.outbound, Api.new_outbound_call.
    rewrite (outbound_number_prefixed k n a notes Hp). reflexivity.
  - intros e k db.
    unfold Api.permission_request, Api.new_permission. cbn [PermissionBody.whatsappNumber
      PermissionBody.contactId].
    rewrite replace_whatsapp_prefix, (replace_absent _ _ _ Hn). reflexivity.
  - intros e k. cbn. apply (replace_absent _ _ _ Hn).
  - intros k a notes. unfold Api.outbound_number. cbn [OutboundBody.toNumber].
    unfold JS.startsWith. rewrite Hp. apply replace_whatsapp_prefix.
  - intros c k a notes Hc Hne.
    unfold ContactMethods.getWhatsAppFormatted, Api.outbound_number. rewrite Hc.
    cbn [OutboundBody.toNumber].
    destruct (String.eqb_spec n "") as [E|_]; [contradiction|]. reflexivity.
Qed.

Lemma whatsapp_prefix_is_optional_witness :
  Api.outbound (Sample.dial_env (Ok "CA9"))
    (OutboundBody.mk "c-ada" "whatsapp:+15550001" "agent-7" None) Sample.db_approved
  = Api.outbound (Sample.dial_env (Ok "CA9"))
      (OutboundBody.mk "c-ada" "+15550001" "agent-7" None) Sample.db_approved.
Proof.
  apply (proj1 (whatsapp_prefix_is_optional "+15550001" eq_refl)).
Defined.

(** ** The display name of a contact *)

Lemma skip_spaces_eq s :
  JS.skip_spaces s
  = match Text.space_head s with
    | Some r => JS.skip_spaces r
    | None => s
    end.
Proof.
  destruct s as [|c s1]; [reflexivity|]. unfold Text.space_head.
  transitivity
    (if JS.is_space c then JS.skip_spaces s1
     else match s1 with
          | String d s2 =>
              if JS.is_space2 c d then JS.skip_spaces s2
              else match s2 with
                   | String f s3 =>
                       if JS.is_space3 c d f then JS.skip_spaces s3 else String c s1
                   | EmptyString => String c s1
                   end
          | EmptyString => String c s1
          end); [reflexivity|].
  destruct (JS.is_space c); [reflexivity|].
  destruct s1 as [|d s2]; [reflexivity|].
  destruct (JS.is_space2 c d); [reflexivity|].
  destruct s2 as [|f s3]; [reflexivity|].
  destruct (JS.is_space3 c d f); reflexivity.
Qed.

Lemma space_head_shorter s r :
  Text.space_head s = Some r -> (String.length r < String.length s)%nat.
Proof.
  destruct s as [|c [|d [|f s3]]]; cbn [Text.space_head String.length];
    repeat match goal with
           | |- context [if ?x then _ else _] => destruct x
           end;
    intros H; inversion H; subst; cbn [String.length]; lia.
Qed.

Lemma space_head_app s r t :
  Text.space_head s = Some r -> Text.space_head (s ++ t) = Some (r ++ t).
Proof.
  destruct s as [|c [|d [|f s3]]]; cbn [Text.space_head append];
    try discriminate;
    destruct (JS.is_space c); try (intros H; inversion H; reflexivity);
    try discriminate;
    destruct (JS.is_space2 c d); try (intros H; inversion H; reflexivity);
    try discriminate;
    destruct (JS.is_space3 c d f); intros H; inversion H; reflexivity.
Qed.

(** A byte of the ASCII range ends no white-space character of two or
    three bytes. *)
Lemma is_space2_ascii c d : (nat_of_ascii d < 128)%nat -> JS.is_space2 c d = false.
Proof.
  intros H. unfold JS.is_space2.
  replace (Nat.eqb (nat_of_ascii d) 160) with false
    by (symmetry; apply Nat.eqb_neq; lia).
  apply andb_false_r.
Qed.

Lemma is_space3_ascii c d f : (nat_of_ascii f < 128)%nat -> JS.is_space3 c d f = false.
Proof.
  intros H. unfold JS.is_space3. cbv zeta.
  replace (Nat.eqb (nat_of_ascii f) 128) with false
    by (symmetry; apply Nat.eqb_neq; lia).
  replace (Nat.eqb (nat_of_ascii f) 168) with false
    by (symmetry; apply Nat.eqb_neq; lia).
  replace (Nat.eqb (nat_of_ascii f) 169) with false
    by (symmetry; apply Nat.eqb_neq; lia).
  replace (Nat.eqb (nat_of_ascii f) 175) with false
    by (symmetry; apply Nat.eqb_neq; lia).
  replace (Nat.eqb (nat_of_ascii f) 159) with false
    by (symmetry; apply Nat.eqb_neq; lia).
  replace (Nat.eqb (nat_of_ascii f) 191) with false
    by (symmetry; apply Nat.eqb_neq; lia).
  replace (Nat.leb 128 (nat_of_ascii f)) with false
    by (symmetry; apply Nat.leb_gt; lia).
  destruct (Nat.eqb (nat_of_ascii c) 225), (Nat.eqb (nat_of_ascii c) 226),
    (Nat.eqb (nat_of_ascii c) 227), (Nat.eqb (nat_of_ascii c) 239),
    (Nat.eqb (nat_of_ascii d) 154), (Nat.eqb (nat_of_ascii d) 128),
    (Nat.eqb (nat_of_ascii d) 129), (Nat.eqb (nat_of_ascii d) 187); reflexivity.
Qed.

Lemma space_head_app_space s :
  s <> "" -> Text.space_head s = None -> Text.space_head (s ++ " ") = None.
Proof.
  assert (Hsp : (nat_of_ascii " " < 128)%nat) by (cbn; lia).
  destruct s as [|c [|d [|f s3]]]; intros Hne; [contradiction| | |];
    cbn [Text.space_head append]; destruct (JS.is_space c); try discriminate.
  - intros _. rewrite (is_space2_ascii c " " Hsp). reflexivity.
  - destruct (JS.is_space2 c d); [discriminate|]. intros _.
    rewrite (is_space3_ascii c d " " Hsp). reflexivity.
  - destruct (JS.is_space2 c d); [discriminate|].
    destruct (JS.is_space3 c d f); [discriminate | reflexivity].
Qed.

(** What [skip_spaces] returns starts with no white space. *)
Lemma skip_spaces_head s : Text.space_head (JS.skip_spaces s) = None.
Proof.
  remember (String.length s) as n eqn:Hn. revert s Hn.
  induction n as [n IH] using lt_wf_ind. intros s ->.
  rewrite skip_spaces_eq. destruct (Text.space_head s) as [r|] eqn:E; [|exact E].
  apply (IH (String.length r)); [apply space_head_shorter; exact E | reflexivity].
Qed.

(** White space at the head of a string is skipped whatever follows. *)
Lemma skip_spaces_app a b :
  JS.skip_spaces a = "" -> JS.skip_spaces (a ++ b) = JS.skip_spaces b.
Proof.
  remember (String.length a) as n eqn:Hn. revert a Hn.
  induction n as [n IH] using lt_wf_ind. intros a -> H.
  rewrite skip_spaces_eq in H. destruct (Text.space_head a) as [r|] eqn:E.
  - rewrite (skip_spaces_eq (a ++ b)), (space_head_app a r b E).
    apply (IH (String.length r)); [apply space_head_shorter; exact E | reflexivity | exact H].
  - subst a. reflexivity.
Qed.

Lemma skip_spaces_app_space s :
  JS.skip_spaces (s ++ " ")
  = match JS.skip_spaces s with
    | EmptyString => EmptyString
    | String c r => String c r ++ " "
    end.
Proof.
  remember (String.length s) as n eqn:Hn. revert s Hn.
  induction n as [n IH] using lt_wf_ind. intros s ->.
  rewrite (skip_spaces_eq s), (skip_spaces_eq (s ++ " ")).
  destruct (Text.space_head s) as [r|] eqn:E.
  - rewrite (space_head_app s r " " E).
    apply (IH (String.length r)); [apply space_head_shorter; exact E | reflexivity].
  - destruct s as [|c s']; [reflexivity|].
    rewrite (space_head_app_space (String c s')); [reflexivity | discriminate | exact E].
Qed.

Lemma trim_end_cons c s :
  Text.trim_end (String c s)
  = match JS.skip_spaces (String c s) with
    | EmptyString => EmptyString
    | String _ _ => String c (Text.trim_end s)
    end.
Proof. reflexivity. Qed.

Lemma trim_end_app_space s : Text.trim_end (s ++ " ") = Text.trim_end s.
Proof.
  induction s as [|c s IH]; [reflexivity|].
  change (String c s ++ " ") with (String c (s ++ " ")).
  rewrite !trim_end_cons.
  change (String c (s ++ " ")) with (String c s ++ " ").
  rewrite skip_spaces_app_space.
  destruct (JS.skip_spaces (String c s)); [reflexivity|].
  cbn [append]. rewrite IH. reflexivity.
Qed.

Lemma trim_app_space s : Text.trim (s ++ " ") = Text.trim s.
Proof.
  unfold Text.trim, Text.trim_start. rewrite skip_spaces_app_space.
  destruct (JS.skip_spaces s); [reflexivity | apply trim_end_app_space].
Qed.

(** [trim_end] cuts white space off the end, and nothing else. *)
Lemma trim_end_split s :
  exists w, s = Text.trim_end s ++ w /\ JS.skip_spaces w = "".
Proof.
  induction s as [|c s (w & Hs & Hw)]; [exists ""; split; reflexivity|].
  rewrite trim_end_cons. destruct (JS.skip_spaces (String c s)) eqn:E.
  - exists (String c s). split; [reflexivity | exact E].
  - exists w. split; [|exact Hw]. cbn [append]. rewrite <- Hs. reflexivity.
Qed.

Lemma trim_end_idem s : Text.trim_end (Text.trim_end s) = Text.trim_end s.
Proof.
  induction s as [|c s IH]; [reflexivity|].
  rewrite trim_end_cons. destruct (JS.skip_spaces (String c s)) eqn:E; [reflexivity|].
  rewrite trim_end_cons. destruct (JS.skip_spaces (String c (Text.trim_end s))) eqn:E2.
  - exfalso. destruct (trim_end_split s) as (w & Hs & Hw).
    rewrite Hs in E. change (String c (Text.trim_end s ++ w))
      with (String c (Text.trim_end s) ++ w) in E.
    rewrite (skip_spaces_app _ w E2), Hw in E. discriminate.
  - rewrite IH. reflexivity.
Qed.

Lemma trim_start_trim_end s :
  Text.space_head s = None -> JS.skip_spaces (Text.trim_end s) = Text.trim_end s.
Proof.
  intros H. rewrite skip_spaces_eq.
  destruct (Text.space_head (Text.trim_end s)) as [x|] eqn:E; [|reflexivity].
  destruct (trim_end_split s) as (w & Hs & _).
  rewrite Hs, (space_head_app _ x w E) in H. discriminate.
Qed.

Lemma trim_idem s : Text.trim (Text.trim s) = Text.trim s.
Proof.
  unfold Text.trim, Text.trim_start.
  rewrite (trim_start_trim_end _ (skip_spaces_head s)). apply trim_end_idem.
Qed.

(** X13: [getFullName] never carries white space at either end, be it of
    the ASCII range or beyond (a no-break space, an em space): trimming it
    again changes nothing.  A contact without a last name is displayed
    under the first name alone, one without a first name under the last
    name alone, and one without either under the empty string. *)
Theorem getFullName_is_trimmed c :
  Text.trim (ContactMethods.getFullName c) = ContactMethods.getFullName c
  /\ Text.space_head (ContactMethods.getFullName c) = None
  /\ (Text.or_empty (HubSpotContact.lastName c) = "" ->
      ContactMethods.getFullName c = Text.trim (Text.or_empty (HubSpotContact.firstName c)))
  /\ (Text.or_empty (HubSpotContact.firstName c) = "" ->
      ContactMethods.getFullName c = Text.trim (Text.or_empty (HubSpotContact.lastName c))).
Proof.
  unfold ContactMethods.getFullName. split; [apply trim_idem|]. split; [|split].
  - unfold Text.trim, Text.trim_start.
    destruct (Text.space_head (Text.trim_end _)) as [x|] eqn:E; [|reflexivity].
    pose proof (trim_start_trim_end _ (skip_spaces_head
      (Text.or_empty (HubSpotContact.firstName c) ++ " "
       ++ Text.or_empty (HubSpotContact.lastName c)))) as H.
    rewrite skip_spaces_eq, E in H.
    apply (f_equal String.length) in H.
    pose proof (space_head_shorter _ _ E) as Hlt.
    assert (Hle : forall y, (String.length (JS.skip_spaces y) <= String.length y)%nat).
    { intros y. remember (String.length y) as n eqn:Hn. revert y Hn.
      induction n as [n IH] using lt_wf_ind. intros y ->.
      rewrite skip_spaces_eq. destruct (Text.space_head y) as [r|] eqn:Er; [|lia].
      pose proof (space_head_shorter _ _ Er).
      specialize (IH (String.length r) H0 r eq_refl). lia. }
    specialize (Hle x). lia.
  - intros ->. rewrite trim_app_space. reflexivity.
  - intros ->. reflexivity.
Qed.

Lemma getFullName_is_trimmed_witness :
  ContactMethods.getFullName
    (HubSpotContact.mk "c-1" "hs-1" None None None
       (Some (Cases.nbsp ++ "Ada" ++ Cases.em_space)) None None 0 None false)
  = "Ada"
  /\ ContactMethods.getFullName Cases.grace = "".
Proof.
  split.
  - rewrite (proj1 (proj2 (proj2 (getFullName_is_trimmed
               (HubSpotContact.mk "c-1" "hs-1" None None None
                  (Some (Cases.nbsp ++ "Ada" ++ Cases.em_space)) None None 0 None false))))
               eq_refl).
    reflexivity.
  - rewrite (proj2 (proj2 (proj2 (getFullName_is_trimmed Cases.grace))) eq_refl).
    reflexivity.
Defined.

(** ** A contact deleted in the CRM *)

(** What the [contact.deletion] webhook does. *)
Lemma webhooks_deletion_effect e b h db :
  WebhookBody.subscriptionType b = "contact.deletion" ->
  WebhookBody.objectId b = Some h ->
  Crm.webhooks e b db =
  (Ok (mkResp 200 "processed"),
   match contact_by_hubspot_id h db with
   | Some c => mkDB (map (fun r => if (HubSpotContact.id r =? HubSpotContact.id c)%string
                                   then HubSpotContact.set_deleted true r else r)
                         (contacts db))
                    (calls db)
                    (Crm.expire_pending (HubSpotContact.id c) (permissions db)) (logs db)
   | None => db
   end).
Proof.
  intros Hs Ho. unfold Crm.webhooks, contact_by_hubspot_id. rewrite Hs, Ho.
  cbn [String.eqb Ascii.eqb Bool.eqb andb].
  unfold try_catch, bind, Contacts.findOne_hubspotContactId.
  destruct (find _ (contacts db)) as [c|]; reflexivity.
Qed.

Lemma filter_expire_pending w contact l :
  (forall p, w p = true -> CallPermission.status p = "approved") ->
  (forall p, CallPermission.status p = "pending" ->
             w (CallPermission.set_status "expired" p) = w p) ->
  filter w (Crm.expire_pending contact l) = filter w l.
Proof.
  intros Hw Hset. induction l as [|p l IH]; [reflexivity|].
  cbn [Crm.expire_pending map filter]. fold (Crm.expire_pending contact l). rewrite IH.
  destruct ((CallPermission.contactId p =? contact)%string) ; cbn [andb]; [|reflexivity].
  destruct (String.eqb_spec (CallPermission.status p) "pending") as [E|_]; [|reflexivity].
  rewrite (Hset p E). destruct (w p) eqn:Ew; [|reflexivity].
  apply Hw in Ew. rewrite Ew in E. discriminate.
Qed.

Lemma approved_for_pair_approved k n p :
  Api.approved_for_pair k n p = true -> CallPermission.status p = "approved".
Proof.
  unfold Api.approved_for_pair. rewrite !andb_true_iff, !String.eqb_eq. tauto.
Qed.

(** X14: a [contact.deletion] webhook, for a contact the server holds,
    marks the pending consent requests of that contact expired, sets
    [deleted] in the [metadata] of the contact's row and is answered 200.
    It writes no other column of the contact and no other contact, and it
    leaves calls and approved permissions as they were.  No route reads the
    mark: [/outbound] answers every request as it would have before the
    deletion. *)
Theorem contact_deletion_keeps_calling e b h db c :
  WebhookBody.subscriptionType b = "contact.deletion" ->
  WebhookBody.objectId b = Some h ->
  contact_by_hubspot_id h db = Some c ->
  let db' := step_any (Other (ReqWebhooks e b)) db in
  fst (Crm.webhooks e b db) = Ok (mkResp 200 "processed")
  /\ contacts db'
     = map (fun r => if (HubSpotContact.id r =? HubSpotContact.id c)%string
                     then HubSpotContact.set_deleted true r else r) (contacts db)
  /\ calls db' = calls db
  /\ (forall p, In p (permissions db') ->
                CallPermission.contactId p = HubSpotContact.id c ->
                CallPermission.status p <> "pending")
  /\ (forall k n, filter (Api.approved_for_pair k n) (permissions db')
                  = filter (Api.approved_for_pair k n) (permissions db))
  /\ (forall e' ob, fst (Api.outbound e' ob db') = fst (Api.outbound e' ob db)).
Proof.
  intros Hs Ho Hc db'.
  pose proof (webhooks_deletion_effect e b h db Hs Ho) as E. rewrite Hc in E.
  assert (Hcontacts :
            contacts db'
            = map (fun r => if (HubSpotContact.id r =? HubSpotContact.id c)%string
                            then HubSpotContact.set_deleted true r else r) (contacts db))
    by (unfold db'; cbn [step_any]; rewrite E; reflexivity).
  assert (Hcalls : calls db' = calls db)
    by (unfold db'; cbn [step_any]; rewrite E; reflexivity).
  assert (Hperms : permissions db'
                   = Crm.expire_pending (HubSpotContact.id c) (permissions db))
    by (unfold db'; cbn [step_any]; rewrite E; reflexivity).
  assert (Hfilter : forall k n, filter (Api.approved_for_pair k n) (permissions db')
                                = filter (Api.approved_for_pair k n) (permissions db)).
  { intros k n. rewrite Hperms. apply filter_expire_pending.
    - apply approved_for_pair_approved.
    - intros p Hp. unfold Api.approved_for_pair. cbn. rewrite Hp. cbn.
      rewrite !andb_false_r. reflexivity. }
  clearbody db'.
  split; [rewrite E; reflexivity|]. split; [exact Hcontacts|]. split; [exact Hcalls|].
  split; [|split; [exact Hfilter|]].
  - intros p Hin Hk Hpending. rewrite Hperms in Hin.
    unfold Crm.expire_pending in Hin. apply in_map_iff in Hin.
    destruct Hin as (r & Hr & _). subst p.
    destruct ((CallPermission.contactId r =? HubSpotContact.id c)%string) eqn:Ek;
      cbn [andb] in *.
    + destruct (String.eqb_spec (CallPermission.status r) "pending") as [Er|Er].
      * cbn in Hpending. discriminate.
      * contradiction.
    + rewrite Hk, String.eqb_refl in Ek. discriminate.
  - intros e' ob. rewrite !outbound_cases.
    unfold contact_by_id, outbound_permission. rewrite Hcontacts, Hfilter.
    rewrite find_map_stable
      by (intros r; destruct (HubSpotContact.id r =? HubSpotContact.id c)%string;
          reflexivity).
    destruct (find _ (contacts db)); cbn [option_map]; [|reflexivity].
    destruct (Permissions.latest _) as [p|]; [|reflexivity].
    destruct (negb _); reflexivity.
Qed.

Lemma contact_deletion_keeps_calling_witness :
  let db' := step_any (Other (ReqWebhooks Cases.sync_env (Cases.deletion "hs-101")))
               Sample.db_requested_once in
  contacts db' = [HubSpotContact.set_deleted true Sample.ada]
  /\ map CallPermission.status (permissions db') = ["expired"]
  /\ fst (Api.outbound (Sample.dial_env (Ok "CA9")) Sample.dial_request db')
     = Ok (mkResp 403 "Call permission required").
Proof.
  destruct (contact_deletion_keeps_calling Cases.sync_env (Cases.deletion "hs-101")
              "hs-101" Sample.db_requested_once Sample.ada eq_refl eq_refl eq_refl)
    as (_ & H2 & _ & _ & _ & H).
  cbv zeta. split; [rewrite H2; reflexivity|]. split; [reflexivity|].
  rewrite H. reflexivity.
Defined.

(** ** A second consent for the same number *)

Lemma approved_clash_found k p q db :
  In q (permissions db) ->
  CallPermission.id q <> k ->
  CallPermission.status q = "approved" ->
  CallPermission.contactId q = CallPermission.contactId p ->
  CallPermission.whatsappNumber q = CallPermission.whatsappNumber p ->
  Permissions.approved_clash k (CallPermission.contactId p) (CallPermission.whatsappNumber p) db
  = true.
Proof.
  intros Hin Hk Hs Hc Hn. unfold Permissions.approved_clash. apply existsb_exists.
  exists q. split; [exact Hin|].
  rewrite Hs, Hc, Hn, !String.eqb_refl.
  destruct (String.eqb_spec (CallPermission.id q) k) as [E|_]; [contradiction|reflexivity].
Qed.

(** X15: while a contact's number holds an approved permission, whether
    still usable, used up or past its date, an ACCEPTED reply to a newer
    consent request of the same contact and number is not recorded: the
    partial unique index refuses the update, the webhook answers 500 and
    the request stays pending.  If the approved permission can no longer
    make a call, [/outbound] to that number is refused with 403 before the
    reply and after it. *)
Theorem accepted_reply_refused_while_pair_approved now b db p q :
  NoDup (map CallPermission.id (permissions db)) ->
  one_approved_per_pair (permissions db) ->
  Webhooks.is_consent_reply b = true ->
  Webhooks.reply_status b = "approved" ->
  Permissions.latest (pending_requests b db) = Some p ->
  In q (permissions db) ->
  CallPermission.status q = "approved" ->
  CallPermission.contactId q = CallPermission.contactId p ->
  CallPermission.whatsappNumber q = CallPermission.whatsappNumber p ->
  Webhooks.messaging now b db = (Ok (mkResp 500 "Error"), db)
  /\ forall e ob,
      OutboundBody.contactId ob = CallPermission.contactId p ->
      JS.replace "whatsapp:" "" (Api.outbound_number ob) = CallPermission.whatsappNumber p ->
      contact_by_id (OutboundBody.contactId ob) db <> None ->
      CallPermission.canMakeCall (OutboundEnv.now_check e) q = false ->
      Api.outbound e ob (step (ReqMessaging now b) db)
      = (Ok (mkResp 403 "Call permission required"), db).
Proof.
  intros Hnodup Hone Hreply Happ Hp Hq Hsq Hcq Hnq.
  assert (Hin : In p (permissions db)).
  { apply latest_in in Hp. unfold pending_requests in Hp. apply filter_In in Hp. tauto. }
  assert (Hsp : CallPermission.status p = "pending").
  { apply latest_in in Hp. unfold pending_requests in Hp. apply filter_In in Hp.
    destruct Hp as [_ Hw]. unfold Webhooks.pending_for_number in Hw.
    apply andb_true_iff in Hw. destruct Hw as [_ Hw]. apply String.eqb_eq. exact Hw. }
  assert (Hne : CallPermission.id q <> CallPermission.id p).
  { intros E. pose proof (nodup_same_key _ p q Hnodup Hin Hq E) as ->. congruence. }
  assert (E : Webhooks.messaging now b db = (Ok (mkResp 500 "Error"), db)).
  { rewrite messaging_effect, Hreply, Hp, Happ.
    rewrite (approved_clash_found _ p q db Hq Hne Hsq Hcq Hnq). reflexivity. }
  split; [exact E|].
  intros e ob Hk Hn Hcontact Hspent.
  unfold step, handle. rewrite E. cbn [snd].
  rewrite outbound_cases.
  destruct (contact_by_id (OutboundBody.contactId ob) db); [|contradiction].
  unfold outbound_permission. rewrite Hk, Hn.
  destruct (Permissions.latest
              (filter (Api.approved_for_pair (CallPermission.contactId p)
                         (CallPermission.whatsappNumber p)) (permissions db)))
    as [r|] eqn:Hr; [|reflexivity].
  apply latest_in in Hr. apply filter_In in Hr. destruct Hr as [Hr Hw].
  unfold Api.approved_for_pair in Hw. rewrite !andb_true_iff, !String.eqb_eq in Hw.
  destruct Hw as [[Hrc Hrn] Hrs].
  assert (Hid : CallPermission.id r = CallPermission.id q)
    by (apply Hone; congruence).
  pose proof (nodup_same_key _ q r Hnodup Hq Hr Hid) as ->.
  rewrite Hspent. reflexivity.
Qed.

Lemma accepted_reply_refused_while_pair_approved_witness :
  Webhooks.messaging 3000 Cases.accept
    (mkDB [Sample.ada] []
          [CallPermission.set_callsUsed 5 (Sample.perm 0); Sample.pending "perm-b" 2000] [])
  = (Ok (mkResp 500 "Error"),
     mkDB [Sample.ada] []
          [CallPermission.set_callsUsed 5 (Sample.perm 0); Sample.pending "perm-b" 2000] []).
Proof.
  refine (proj1 (accepted_reply_refused_while_pair_approved 3000 Cases.accept
                   (mkDB [Sample.ada] []
                      [CallPermission.set_callsUsed 5 (Sample.perm 0);
                       Sample.pending "perm-b" 2000] [])
                   (Sample.pending "perm-b" 2000)
                   (CallPermission.set_callsUsed 5 (Sample.perm 0))
                   _ _ eq_refl eq_refl eq_refl _ eq_refl eq_refl eq_refl)).
  - cbn. repeat constructor; cbn; intuition discriminate.
  - intros p q [<-|[<-|[]]] [<-|[<-|[]]]; cbn; intros; congruence.
  - left. reflexivity.
Defined.

(** ** Ordered queries and pages *)

Section SortFacts.

Context {A : Type}.
Variable goes_before : A -> A -> bool.


Lemma insert_length x l : length (Order.insert goes_before x l) = S (length l).
Proof.
  induction l as [|y l IH]; [reflexivity|].
  cbn [Order.insert]. destruct (goes_before x y); cbn [length]; [reflexivity|].
  rewrite IH. reflexivity.
Qed.

Lemma sort_length l : length (Order.sort goes_before l) = length l.
Proof.
  induction l as [|x l IH]; [reflexivity|].
  cbn [Order.sort]. rewrite insert_length, IH. reflexivity.
Qed.

Lemma insert_in x l y : In y (Order.insert goes_before x l) <-> y = x \/ In y l.
Proof.
  induction l as [|z l IH]; cbn [Order.insert].
  - cbn. intuition.
  - destruct (goes_before x z); cbn [In]; [intuition|]. rewrite IH. cbn [In]. intuition.
Qed.

Lemma sort_in l y : In y (Order.sort goes_before l) <-> In y l.
Proof.
  induction l as [|x l IH]; [reflexivity|].
  cbn [Order.sort]. rewrite insert_in, IH. cbn [In]. intuition.
Qed.

Hypothesis total : forall x y, goes_before x y = false -> goes_before y x = true.





End SortFacts.


Lemma firstn_plus {A} a b (l : list A) :
  firstn (a + b) l = (firstn a l ++ firstn b (skipn a l))%list.
Proof.
  revert l. induction a as [|a IH]; intros l; [reflexivity|].
  destruct l as [|x l]; cbn [Nat.add firstn skipn app].
  - rewrite firstn_nil. reflexivity.
  - rewrite IH. reflexivity.
Qed.

Lemma skipn_plus {A} a b (l : list A) : skipn (a + b) l = skipn b (skipn a l).
Proof.
  revert l. induction a as [|a IH]; intros l; [reflexivity|].
  destruct l as [|x l]; cbn [Nat.add skipn].
  - rewrite skipn_nil. reflexivity.
  - apply IH.
Qed.

Lemma in_firstn {A} n (l : list A) x : In x (firstn n l) -> In x l.
Proof.
  revert l. induction n as [|n IH]; intros l H; [contradiction|].
  destruct l as [|y l]; [contradiction|]. cbn [firstn] in H.
  destruct H as [<-|H]; [left; reflexivity | right; apply IH; exact H].
Qed.





(** X17: two consecutive pages of a contact's history, read from the same
    call table, are the page of their joint size: paging loses no call and
    shows none twice.  Calls with equal start times are taken to come in
    the same order in both queries. *)
Theorem history_pages_tile k n n' o db :
  0 <= n -> 0 <= n' -> 0 <= o ->
  (History.page k n o db ++ History.page k n' (o + n) db)%list
  = History.page k (n + n') o db.
Proof.
  intros Hn Hn' Ho. unfold History.page, Order.limit, Order.offset.
  destruct (Z.ltb_spec n 0); [lia|]. destruct (Z.ltb_spec n' 0); [lia|].
  destruct (Z.ltb_spec (n + n') 0); [lia|].
  rewrite !Z2Nat.inj_add by lia. rewrite skipn_plus, firstn_plus. reflexivity.
Qed.

Lemma history_pages_tile_witness :
  (History.page "c-ada" 2 0 Cases.db_history
   ++ History.page "c-ada" 2 2 Cases.db_history)%list
  = History.page "c-ada" 4 0 Cases.db_history.
Proof. apply (history_pages_tile "c-ada" 2 2 0 Cases.db_history); lia. Defined.

(** ** The dashboard figures *)

Lemma map_outcome_ok {A B} (f : A -> Outcome B) l :
  (forall x, In x l -> exists y, f x = Ok y) ->
  exists ys, Crm.map_outcome f l = Ok ys /\ length ys = length l.
Proof.
  induction l as [|x l IH]; intros H.
  - exists []. split; reflexivity.
  - destruct (H x (or_introl eq_refl)) as (y & Hy).
    destruct IH as (ys & Hys & Hlen); [intros z Hz; apply H; right; exact Hz|].
    exists (y :: ys). cbn [Crm.map_outcome]. rewrite Hy, Hys. cbn [length].
    split; [reflexivity | rewrite Hlen; reflexivity].
Qed.

Lemma map_outcome_throws {A B} (f : A -> Outcome B) l x err :
  In x l -> f x = Throw err -> exists err', Crm.map_outcome f l = Throw err'.
Proof.
  induction l as [|z l IH]; intros Hin Hx; [contradiction|].
  cbn [Crm.map_outcome]. destruct Hin as [->|Hin].
  - rewrite Hx. exists err. reflexivity.
  - destruct (f z) as [y|e1]; [|exists e1; reflexivity].
    destruct (IH Hin Hx) as (e2 & ->). exists e2. reflexivity.
Qed.

Lemma count_directions (l : list Call.t) :
  count (fun c => Direction_eqb (Call.direction c) inbound) l
  + count (fun c => Direction_eqb (Call.direction c) outbound) l
  = Z.of_nat (length l).
Proof.
  unfold count. induction l as [|c l IH]; [reflexivity|].
  cbn [filter]. destruct (Call.direction c); cbn [Direction_eqb length] in *; lia.
Qed.

Lemma count_statuses (l : list Call.t) :
  count (fun c => existsb (String.eqb (Call.status c)) ["failed"; "busy"; "no-answer"]) l
  = count (Crm.has_status "failed") l + count (Crm.has_status "busy") l
    + count (Crm.has_status "no-answer") l
  /\ count (Crm.has_status "completed") l
     + count (fun c => existsb (String.eqb (Call.status c)) ["failed"; "busy"; "no-answer"]) l
     + count (Crm.has_status "canceled") l
     <= Z.of_nat (length l).
Proof.
  unfold count, Crm.has_status. induction l as [|c l IH]; [cbn; lia|].
  cbn [filter existsb] in *.
  destruct (String.eqb_spec (Call.status c) "failed") as [E1|E1];
    destruct (String.eqb_spec (Call.status c) "busy") as [E2|E2];
    destruct (String.eqb_spec (Call.status c) "no-answer") as [E3|E3];
    destruct (String.eqb_spec (Call.status c) "completed") as [E4|E4];
    destruct (String.eqb_spec (Call.status c) "canceled") as [E5|E5];
    try congruence; cbn [orb length] in *; lia.
Qed.

(** X18: the dashboard figures of [GET /analytics/calls], when every call
    belongs to a stored contact.  The route answers and writes nothing;
    the calls counted are those in scope; every call counts as inbound or
    as outbound; [failedCalls] is the sum of the failed, busy and no-answer
    figures; completed, failed and canceled calls together do not exceed
    the total; the recent calls are the ten newest in scope, or all of them
    when there are fewer. *)
Theorem analytics_figures startDate endDate contactId db :
  (forall c, In c (calls db) -> contact_by_id (Call.contactId c) db <> None) ->
  exists a,
    Crm.analytics startDate endDate contactId db = (Ok (Json a), db)
    /\ Analytics.totalCalls a
       = count (Crm.in_scope startDate endDate contactId) (calls db)
    /\ Analytics.totalCalls a = Analytics.inboundCalls a + Analytics.outboundCalls a
    /\ Analytics.failedCalls a
       = Analytics.by_failed a + Analytics.by_busy a + Analytics.by_no_answer a
    /\ Analytics.completedCalls a + Analytics.failedCalls a + Analytics.by_canceled a
       <= Analytics.totalCalls a
    /\ Z.of_nat (length (Analytics.recentCalls a)) = Z.min 10 (Analytics.totalCalls a).
Proof.
  intros Hrefs.
  set (l := Order.sort Order.startTime_desc
              (filter (Crm.in_scope startDate endDate contactId) (calls db))).
  destruct (map_outcome_ok (Crm.recent_entry db) (firstn 10 l)) as (recent & Hrecent & Hlen).
  { intros c Hc. apply in_firstn in Hc. unfold l in Hc.
    apply sort_in, filter_In in Hc. destruct Hc as [Hc _].
    specialize (Hrefs c Hc). unfold contact_by_id in Hrefs. unfold Crm.recent_entry.
    destruct (find _ (contacts db)) as [k|]; [eexists; reflexivity | contradiction]. }
  eexists. split.
  { unfold Crm.analytics, route, try_catch. fold l. rewrite Hrecent. reflexivity. }
  cbn [Analytics.totalCalls Analytics.inboundCalls Analytics.outboundCalls
       Analytics.failedCalls Analytics.by_failed Analytics.by_busy Analytics.by_no_answer
       Analytics.completedCalls Analytics.by_canceled Analytics.recentCalls].
  destruct (count_statuses l) as [Hfailed Hbound].
  split; [unfold l, count; rewrite sort_length; reflexivity|].
  split; [symmetry; apply count_directions|].
  split; [exact Hfailed|]. split; [exact Hbound|].
  rewrite Hlen, length_firstn. lia.
Qed.

Lemma analytics_figures_witness :
  exists a,
    Crm.analytics (Some 150) None (Some "c-ada") Cases.db_history
    = (Ok (Json a), Cases.db_history)
    /\ Analytics.totalCalls a = 4.
Proof.
  destruct (analytics_figures (Some 150) None (Some "c-ada") Cases.db_history)
    as (a & H & Htotal & _).
  - intros c [<-|[<-|[<-|[<-|[<-|[<-|[]]]]]]]; discriminate.
  - exists a. split; [exact H|]. rewrite Htotal. reflexivity.
Defined.

(** ** Calls and their contacts *)

Lemma known_in (l : list HubSpotContact.t) c :
  In c l -> find (fun r => (HubSpotContact.id r =? HubSpotContact.id c)%string) l <> None.
Proof.
  intros Hin Hnone. pose proof (find_none _ _ Hnone c Hin) as H. cbn in H.
  rewrite String.eqb_refl in H. discriminate.
Qed.

Lemma known_found (l : list HubSpotContact.t) k :
  find (fun r => (HubSpotContact.id r =? k)%string) l <> None ->
  exists c, In c l /\ HubSpotContact.id c = k.
Proof.
  destruct (find _ l) as [c|] eqn:E; [intros _|contradiction].
  apply find_some in E. destruct E as [Hin Hk]. apply String.eqb_eq in Hk.
  exists c. auto.
Qed.

Lemma known_map (g : HubSpotContact.t -> HubSpotContact.t) l k :
  (forall r, HubSpotContact.id (g r) = HubSpotContact.id r) ->
  find (fun r => (HubSpotContact.id r =? k)%string) l <> None ->
  find (fun r => (HubSpotContact.id r =? k)%string) (map g l) <> None.
Proof.
  intros Hg H. rewrite find_map_stable by (intros r; rewrite Hg; reflexivity).
  destruct (find _ l); [discriminate | contradiction].
Qed.

Lemma known_app (l : list HubSpotContact.t) c k :
  find (fun r => (HubSpotContact.id r =? k)%string) l <> None ->
  find (fun r => (HubSpotContact.id r =? k)%string) (l ++ [c]) <> None.
Proof.
  intros H. destruct (known_found l k H) as (r & Hin & <-).
  apply known_in. apply in_or_app. left. exact Hin.
Qed.

Lemma contacts_kept_refl db : contacts_kept db db.
Proof. intros k H. exact H. Qed.

Lemma refs_after db db1 :
  calls_have_contacts db -> calls db1 = calls db -> contacts_kept db db1 ->
  calls_have_contacts db1.
Proof. intros H Hc Hk c Hin. apply Hk, H. rewrite <- Hc. exact Hin. Qed.

(** What [syncContact] leaves behind: the call table as it was, the
    contact keys it found, and the contact it returns among them. *)
Lemma syncContact_known e h db :
  calls (snd (Webhooks.syncContact e h db)) = calls db
  /\ permissions (snd (Webhooks.syncContact e h db)) = permissions db
  /\ contacts_kept db (snd (Webhooks.syncContact e h db))
  /\ forall c, fst (Webhooks.syncContact e h db) = Ok c ->
               contact_by_id (HubSpotContact.id c) (snd (Webhooks.syncContact e h db))
               <> None.
Proof.
  assert (Hstop : forall (o : Outcome HubSpotContact.t) err,
             o = Throw err ->
             calls (snd (o, db)) = calls db
             /\ permissions (snd (o, db)) = permissions db
             /\ contacts_kept db (snd (o, db))
             /\ forall c, fst (o, db) = Ok c ->
                          contact_by_id (HubSpotContact.id c) (snd (o, db)) <> None).
  { intros o err ->. cbn [fst snd]. repeat split; auto using contacts_kept_refl.
    discriminate. }
  unfold Webhooks.syncContact, bind, await, Contacts.findOne_hubspotContactId,
    Contacts.update, Contacts.create, ret.
  destruct (InboundEnv.getContact e) as [props|err]; [|apply (Hstop _ err eq_refl)].
  assert (Hvalid : Contacts.validate (InboundEnv.isEmail e) (HubSpotProps.email props) db
                   = (Ok tt, db)
                   \/ Contacts.validate (InboundEnv.isEmail e) (HubSpotProps.email props) db
                      = (Throw SequelizeValidationError, db)).
  { unfold Contacts.validate, ret, throw.
    destruct (HubSpotProps.email props) as [| |s]; auto.
    destruct (InboundEnv.isEmail e s); auto. }
  destruct (find _ (contacts db)) as [c0|] eqn:Hfind.
  - destruct Hvalid as [-> | ->]; [|apply (Hstop _ _ eq_refl)].
    cbn [fst snd calls permissions]. split; [reflexivity|]. split; [reflexivity|].
    apply find_some in Hfind. destruct Hfind as [Hin _]. split.
    + intros k Hk. unfold contact_by_id in *. cbn [contacts].
      apply known_map; [|exact Hk].
      intros r. destruct (HubSpotContact.id r =? HubSpotContact.id c0)%string;
        reflexivity.
    + intros c Hc. injection Hc as <-. unfold contact_by_id.
      cbn [contacts HubSpotContact.id Webhooks.syncFromHubSpot].
      apply known_map; [|apply known_in; exact Hin].
      intros r. destruct (HubSpotContact.id r =? HubSpotContact.id c0)%string;
        reflexivity.
  - destruct Hvalid as [-> | ->]; [|apply (Hstop _ _ eq_refl)].
    destruct (existsb _ (contacts db)); [apply (Hstop _ _ eq_refl)|].
    cbn [fst snd calls permissions]. split; [reflexivity|]. split; [reflexivity|]. split.
    + intros k Hk. unfold contact_by_id in *. cbn [contacts]. apply known_app. exact Hk.
    + intros c Hc. injection Hc as <-. unfold contact_by_id. cbn [contacts].
      apply known_in. apply in_or_app. right. left. reflexivity.
Qed.

Lemma resolve_contact_known e from db :
  calls (snd (Webhooks.resolve_contact e from db)) = calls db
  /\ contacts_kept db (snd (Webhooks.resolve_contact e from db))
  /\ forall c, fst (Webhooks.resolve_contact e from db) = Ok c ->
               contact_by_id (HubSpotContact.id c) (snd (Webhooks.resolve_contact e from db))
               <> None.
Proof.
  unfold Webhooks.resolve_contact, bind, Contacts.findOne_whatsappNumber.
  destruct (find _ (contacts db)) as [c0|] eqn:Hfind.
  - cbn [ret fst snd]. split; [reflexivity|]. split; [apply contacts_kept_refl|].
    intros c Hc. injection Hc as <-. apply find_some in Hfind.
    apply known_in. tauto.
  - unfold await. destruct (InboundEnv.search e) as [[|h hs]|err].
    + destruct (InboundEnv.createContact e) as [hub|err].
      * unfold Contacts.create. destruct (existsb _ (contacts db)).
        -- cbn [fst snd]. repeat split; auto using contacts_kept_refl. discriminate.
        -- cbn [fst snd calls]. split; [reflexivity|]. split.
           ++ intros k Hk. unfold contact_by_id in *. cbn [contacts]. apply known_app.
              exact Hk.
           ++ intros c Hc. injection Hc as <-. unfold contact_by_id. cbn [contacts].
              apply known_in. apply in_or_app. right. left. reflexivity.
      * cbn [fst snd]. repeat split; auto using contacts_kept_refl. discriminate.
    + destruct (syncContact_known e h db) as (H1 & _ & H2 & H3). auto.
    + cbn [fst snd]. repeat split; auto using contacts_kept_refl. discriminate.
Qed.

Section Refs.

Lemma refs_frame {A} (m : M A) :
  (forall db, calls (snd (m db)) = calls db) ->
  (forall db, contacts (snd (m db)) = contacts db) ->
  preserves calls_have_contacts m.
Proof.
  intros Hc Hk db H. apply (refs_after db); [exact H | apply Hc|].
  intros k. unfold contact_by_id. rewrite Hk. auto.
Qed.

Lemma refs_contacts_create c : preserves calls_have_contacts (Contacts.create c).
Proof.
  intros db H. unfold Contacts.create. destruct (existsb _ (contacts db)); [exact H|].
  apply (refs_after db); [exact H | reflexivity|].
  intros k Hk. unfold contact_by_id in *. cbn [snd contacts]. apply known_app. exact Hk.
Qed.

Lemma refs_contacts_update k f :
  (forall r, HubSpotContact.id (f r) = HubSpotContact.id r) ->
  preserves calls_have_contacts (Contacts.update k f).
Proof.
  intros Hf db H. apply (refs_after db); [exact H | reflexivity|].
  intros k' Hk. unfold contact_by_id in *. cbn [Contacts.update snd contacts].
  apply known_map; [|exact Hk].
  intros r. destruct (HubSpotContact.id r =? k)%string; [apply Hf | reflexivity].
Qed.

Lemma refs_calls_update k f :
  (forall c, Call.contactId (f c) = Call.contactId c) ->
  preserves calls_have_contacts (Calls.update k f).
Proof.
  intros Hf db H c Hin. cbn [Calls.update Calls.write snd calls] in Hin.
  apply in_map_iff in Hin. destruct Hin as (r & Hr & Hin).
  unfold contact_by_id. cbn [Calls.update Calls.write snd contacts].
  assert (E : Call.contactId c = Call.contactId r)
    by (subst c; destruct (Call.id r =? k)%string; [apply Hf | reflexivity]).
  rewrite E. apply (H r Hin).
Qed.

Lemma refs_calls_update_twilioCallSid k sid :
  preserves calls_have_contacts (Calls.update_twilioCallSid k sid).
Proof.
  intros db H. unfold Calls.update_twilioCallSid.
  destruct (existsb _ (calls db)); [exact H|].
  apply (refs_calls_update k (Call.set_twilioCallSid sid)); [reflexivity | exact H].
Qed.

Lemma refs_calls_update_hubspotCallId k h f :
  (forall c, Call.contactId (f c) = Call.contactId c) ->
  preserves calls_have_contacts (Calls.update_hubspotCallId k h f).
Proof.
  intros Hf db H. unfold Calls.update_hubspotCallId.
  destruct (existsb _ (calls db)); [exact H|].
  apply (refs_calls_update k
           (fun c => f (Call.set_hubspotCallId (JS.updated h (Call.hubspotCallId c)) c)));
    [|exact H].
  intros c. rewrite Hf. reflexivity.
Qed.

End Refs.

Lemma status_updates_contact now b c r :
  Call.contactId (Webhooks.status_updates now b c r) = Call.contactId r.
Proof. destruct (status_updates_identity now b c r) as (_ & _ & E & _). exact E. Qed.

Ltac contacts_untouched :=
  intros ?db;
  unfold Permissions.create, Permissions.update_status, route, try_catch, ret, throw;
  repeat match goal with
         | |- context [if ?x then _ else _] => destruct x
         | |- context [match ?x with Ok _ => _ | Throw _ => _ end] => destruct x
         end;
  reflexivity.

Ltac refs_leaf :=
  first
    [ apply refs_contacts_create
    | apply refs_contacts_update; intros; reflexivity
    | apply refs_calls_update; intros; first [apply status_updates_contact | reflexivity]
    | apply refs_calls_update_twilioCallSid
    | apply refs_calls_update_hubspotCallId; intros; reflexivity
    | apply refs_frame; [calls_untouched | contacts_untouched] ].

Lemma refs_step r db : calls_have_contacts db -> calls_have_contacts (step r db).
Proof.
  destruct r.
  - (* /voice/inbound *)
    intros H. rewrite voice_inbound_effect.
    destruct (resolve_contact_known e (InboundBody.From b) db) as (Hcalls & Hkept & Hknown).
    exact (refs_after db _ H Hcalls Hkept).
  - revert db. change (preserves calls_have_contacts (handle (ReqCallStatus now b))).
    cbn [handle].
    unfold Webhooks.call_status, Webhooks.record_no_answer, Webhooks.record_answered.
    walk refs_leaf.
  - revert db. change (preserves calls_have_contacts (handle (ReqMessaging now b))).
    cbn [handle]. unfold Webhooks.messaging. walk refs_leaf.
  - revert db.
    change (preserves calls_have_contacts (handle (ReqConference callId StatusCallbackEvent))).
    cbn [handle]. unfold Webhooks.conference. walk refs_leaf.
  - revert db. change (preserves calls_have_contacts (handle (ReqRecording callId RecordingUrl))).
    cbn [handle]. unfold Webhooks.recording. walk refs_leaf.
  - (* /outbound *)
    intros H. unfold step, handle. rewrite outbound_cases.
    destruct (contact_by_id (OutboundBody.contactId b) db); [|exact H].
    destruct (outbound_permission b db) as [p|]; [|exact H].
    destruct (negb _); exact H.
  - revert db. change (preserves calls_have_contacts (handle (ReqPermissionRequest e b))).
    cbn [handle]. unfold Api.permission_request, Api.dispatch_consent. walk refs_leaf.
  - revert db. change (preserves calls_have_contacts (handle (ReqGetStatus getCall callSid))).
    cbn [handle]. unfold Api.get_status. walk refs_leaf.
  - revert db. change (preserves calls_have_contacts (handle (ReqHangup hangupCall now callSid))).
    cbn [handle]. unfold Api.hangup. walk refs_leaf.
  - revert db.
    change (preserves calls_have_contacts (handle (ReqOnCallEnded now callId engagementId))).
    cbn [handle]. unfold Api.onCallEnded. walk refs_leaf.
  - revert db.
    change (preserves calls_have_contacts (handle (ReqOnCallCompleted callId notes outcome))).
    cbn [handle]. unfold Api.onCallCompleted. walk refs_leaf.
Qed.

Lemma refs_step_other r db :
  calls_have_contacts db -> calls_have_contacts (step_any (Other r) db).
Proof.
  revert db. destruct r; cbn [step_any].
  - change (preserves calls_have_contacts
              (Webhooks2.voice_outbound callId CallStatus DialCallStatus)).
    unfold Webhooks2.voice_outbound. walk refs_leaf.
  - intros db H. exact H.
  - intros db H. exact H.
  - intros db H. unfold Crm.analytics, route, try_catch.
    destruct (Crm.map_outcome _ _); exact H.
  - change (preserves calls_have_contacts (Crm.contact_sync e hubspotContactId)).
    unfold Crm.contact_sync, route, Webhooks.syncContact,
      Contacts.validate. walk refs_leaf.
  - change (preserves calls_have_contacts (Crm.onDialNumber e now phoneNumber objectId)).
    unfold Crm.onDialNumber, route, Webhooks.syncContact,
      Contacts.validate. walk refs_leaf.
  - change (preserves calls_have_contacts (Crm.webhooks e b)).
    unfold Crm.webhooks, Crm.sync_object, Webhooks.syncContact,
      Contacts.validate. walk refs_leaf.
Qed.

Lemma refs_run rs db : calls_have_contacts db -> calls_have_contacts (run_any rs db).
Proof.
  revert db. induction rs as [|r rs IH]; intros db H; [exact H|].
  cbn [run_any fold_left]. apply IH. destruct r as [r|r].
  - apply refs_step. exact H.
  - apply refs_step_other. exact H.
Qed.

Lemma recent_entries_ok db l :
  calls_have_contacts db -> (forall c, In c l -> In c (calls db)) ->
  exists recent, Crm.map_outcome (Crm.recent_entry db) l = Ok recent
                 /\ length recent = length l.
Proof.
  intros Hrefs Hl. apply map_outcome_ok. intros c Hc.
  specialize (Hrefs c (Hl c Hc)). unfold contact_by_id in Hrefs. unfold Crm.recent_entry.
  destruct (find _ (contacts db)) as [k|]; [eexists; reflexivity | contradiction].
Qed.

Lemma get_status_answers getCall sid db :
  calls_have_contacts db ->
  fst (Api.get_status getCall sid db) = Ok (mkResp 200 "status")
  \/ fst (Api.get_status getCall sid db) = Ok (mkResp 404 "Call not found").
Proof.
  intros Hrefs.
  unfold Api.get_status, try_catch, bind, Calls.findOne_twilioCallSid.
  destruct (find _ (calls db)) as [c|] eqn:Hc; [|right; reflexivity].
  left. apply find_some in Hc. destruct Hc as [Hin _].
  specialize (Hrefs c Hin). unfold contact_by_id in Hrefs.
  unfold Contacts.findByPk, Calls.update, await, ret.
  destruct getCall as [tw|err].
  - destruct (negb _); cbn [fst snd Calls.write contacts];
      destruct (find _ (contacts db)); [reflexivity | contradiction
                                       | reflexivity | contradiction].
  - cbn [fst snd]. destruct (find _ (contacts db)); [reflexivity | contradiction].
Qed.

(** X19: every call belongs to a stored contact, in every state the
    server reaches from one where that holds.  There the dashboard route
    always answers with figures, and [GET /status/:callSid] answers 200 or,
    for a sid the server does not hold, 404: neither fails for a call
    whose contact is missing. *)
Theorem calls_keep_their_contacts rs db :
  calls_have_contacts db ->
  let db' := run_any rs db in
  calls_have_contacts db'
  /\ (forall startDate endDate contactId,
         exists a, Crm.analytics startDate endDate contactId db' = (Ok (Json a), db'))
  /\ (forall getCall sid,
         fst (Api.get_status getCall sid db') = Ok (mkResp 200 "status")
         \/ fst (Api.get_status getCall sid db') = Ok (mkResp 404 "Call not found")).
Proof.
  intros H db'. pose proof (refs_run rs db H) as H'. fold db' in H'. clearbody db'.
  split; [exact H'|]. split.
  - intros startDate endDate contactId.
    destruct (recent_entries_ok db'
                (firstn 10 (Order.sort Order.startTime_desc
                              (filter (Crm.in_scope startDate endDate contactId)
                                 (calls db')))) H') as (recent & Hrecent & _).
    { intros c Hc. apply in_firstn, sort_in, filter_In in Hc. tauto. }
    eexists. unfold Crm.analytics, route, try_catch. rewrite Hrecent. reflexivity.
  - intros getCall sid. apply get_status_answers. exact H'.
Qed.

Lemma calls_keep_their_contacts_witness :
  calls_have_contacts
    (run_any [Core (ReqVoiceInbound (Sample.inbound_env "call-7") (Sample.inbound_body "CA7"));
              Other (ReqWebhooks Cases.sync_env (Cases.deletion "hs-101"))]
       Sample.db_completed).
Proof.
  apply (calls_keep_their_contacts
           [Core (ReqVoiceInbound (Sample.inbound_env "call-7") (Sample.inbound_body "CA7"));
            Other (ReqWebhooks Cases.sync_env (Cases.deletion "hs-101"))]
           Sample.db_completed).
  intros c [<-|[]]. discriminate.
Defined.

(** ** What the CRM is told about permissions, and what [/outbound] does *)

Lemma usable_iff now p : Crm.usable now p = CallPermission.canMakeCall now p.
Proof.
  unfold Crm.usable, CallPermission.canMakeCall.
  destruct (CallPermission.status p =? "approved")%string; reflexivity.
Qed.

Lemma permissions_of_in k db p :
  In p (Crm.permissions_of k db) <-> In p (permissions db) /\ CallPermission.contactId p = k.
Proof.
  unfold Crm.permissions_of. rewrite sort_in, filter_In, String.eqb_eq. reflexivity.
Qed.

Lemma active_permission_iff now k db :
  is_some (find (Crm.usable now) (Crm.permissions_of k db)) = true
  <-> exists p, In p (permissions db) /\ CallPermission.contactId p = k
                /\ CallPermission.canMakeCall now p = true.
Proof.
  split.
  - destruct (find _ _) as [p|] eqn:E; [intros _|discriminate].
    apply find_some in E. destruct E as [Hin Hu].
    apply permissions_of_in in Hin. rewrite usable_iff in Hu. exists p. tauto.
  - intros (p & Hin & Hk & Hcan).
    destruct (find _ _) as [q|] eqn:E; [reflexivity|]. exfalso.
    assert (Hp : In p (Crm.permissions_of k db)) by (apply permissions_of_in; auto).
    pose proof (find_none _ _ E p Hp) as Hu. rewrite usable_iff in Hu. congruence.
Qed.

(** X20: [GET /contacts/:contactId/permissions] always answers and writes
    nothing.  [hasPermission] is true exactly when the contact has a
    permission that can make a call at that time; [canMakeCall] agrees with
    it unless the clock passes the expiry date between the two readings;
    at most five permissions are listed.  When [hasPermission] is false,
    [/outbound] for this contact at the same time places no call, whatever
    the number: it answers 403, or 404 when the contact is not stored. *)
Theorem permissions_view_agrees_with_outbound now now' k db :
  exists v,
    Crm.contact_permissions now now' k db = (Ok (Json v), db)
    /\ (PermissionsView.hasPermission v = true
        <-> exists p, In p (permissions db) /\ CallPermission.contactId p = k
                      /\ CallPermission.canMakeCall now p = true)
    /\ (now' = now -> PermissionsView.canMakeCall v = PermissionsView.hasPermission v)
    /\ (PermissionsView.canMakeCall v = true -> PermissionsView.hasPermission v = true)
    /\ (length (PermissionsView.recentPermissions v) <= 5)%nat
    /\ (PermissionsView.hasPermission v = false ->
        forall e b,
          OutboundBody.contactId b = k -> OutboundEnv.now_check e = now ->
          Api.outbound e b db = (Ok (mkResp 403 "Call permission required"), db)
          \/ Api.outbound e b db = (Ok (mkResp 404 "Contact not found"), db)).
Proof.
  eexists. split; [reflexivity|].
  cbn [PermissionsView.hasPermission PermissionsView.canMakeCall
       PermissionsView.recentPermissions].
  split; [apply active_permission_iff|]. split; [|split; [|split]].
  - intros ->. destruct (find _ _) as [p|] eqn:E; [|reflexivity].
    apply find_some in E. destruct E as [_ Hu]. rewrite usable_iff in Hu.
    rewrite Hu. reflexivity.
  - destruct (find _ _); [reflexivity | discriminate].
  - rewrite length_firstn. lia.
  - intros Hnone e b Hk Hnow. rewrite outbound_cases.
    destruct (contact_by_id (OutboundBody.contactId b) db); [left | right; reflexivity].
    destruct (outbound_permission b db) as [p|] eqn:Hp; [|reflexivity].
    unfold outbound_permission in Hp. apply latest_in, filter_In in Hp.
    destruct Hp as [Hin Hw]. unfold Api.approved_for_pair in Hw.
    rewrite !andb_true_iff, !String.eqb_eq in Hw. destruct Hw as [[Hc _] _].
    destruct (CallPermission.canMakeCall (OutboundEnv.now_check e) p) eqn:Hcan;
      [|reflexivity].
    exfalso. rewrite Hnow in Hcan.
    assert (Hsome : is_some (find (Crm.usable now) (Crm.permissions_of k db)) = true).
    { apply active_permission_iff. exists p. rewrite <- Hk. auto. }
    rewrite Hsome in Hnone. discriminate.
Qed.

(** ** The dial event of the CRM and [/outbound] *)

(** The number [onDialNumber] hands back for [phoneNumber]. *)
Lemma dial_number_prefixed phoneNumber :
  JS.startsWith
    (if JS.startsWith phoneNumber "whatsapp:" then phoneNumber
     else "whatsapp:" ++ Text.digits_only phoneNumber) "whatsapp:" = true.
Proof.
  destruct (JS.startsWith phoneNumber "whatsapp:") eqn:E; [exact E|].
  unfold JS.startsWith. destruct (Text.digits_only phoneNumber); reflexivity.
Qed.

Lemma onDialNumber_cases e now phoneNumber objectId db :
  Crm.onDialNumber e now phoneNumber objectId db =
  match (match contact_by_hubspot_id objectId db with
         | Some c => (Ok c, db)
         | None => Webhooks.syncContact e objectId db
         end) with
  | (Throw _, db1) => (Ok (Failed 500 "Failed to process event"), db1)
  | (Ok contact, db1) =>
      let number := if JS.startsWith phoneNumber "whatsapp:" then phoneNumber
                    else "whatsapp:" ++ Text.digits_only phoneNumber in
      if Text.includes phoneNumber "whatsapp"
         || match HubSpotContact.whatsappNumber contact with
            | Some n => (n =? Text.digits_only phoneNumber)%string
            | None => false
            end
      then
        match Permissions.latest
                (filter (Api.approved_for_pair (HubSpotContact.id contact)
                           (JS.replace "whatsapp:" "" number)) (permissions db1)) with
        | Some p =>
            if CallPermission.canMakeCall now p
            then (Ok (Json (initiateCall (HubSpotContact.id contact) number)), db1)
            else (Ok (Json (requestPermission (HubSpotContact.id contact) number)), db1)
        | None => (Ok (Json (requestPermission (HubSpotContact.id contact) number)), db1)
        end
      else (Ok (Json unsupported), db1)
  end.
Proof.
  unfold Crm.onDialNumber, route, try_catch, bind, contact_by_hubspot_id,
    Contacts.findOne_hubspotContactId, Permissions.findOne.
  destruct (find _ (contacts db)) as [c|].
  - cbn [ret]. destruct (_ || _); [|reflexivity].
    destruct (Permissions.latest _) as [p|]; [|reflexivity].
    destruct (CallPermission.canMakeCall now p); reflexivity.
  - destruct (Webhooks.syncContact e objectId db) as [[c|err] db1]; [|reflexivity].
    destruct (_ || _); [|reflexivity].
    destruct (Permissions.latest _) as [p|]; [|reflexivity].
    destruct (CallPermission.canMakeCall now p); reflexivity.
Qed.

(** X21: the answer to the CRM's dial event agrees with [/outbound].  When
    [onDialNumber] answers [initiateCall] with a contact and a number,
    [/outbound] for that contact and number at the same time is not
    refused: it places the call, or fails with 500 on the provider or on a
    key; when it answers [requestPermission], [/outbound] is refused with
    403 and writes nothing.  The event itself writes no call and no
    permission. *)
Theorem dial_event_agrees_with_outbound e now phoneNumber objectId db :
  let answer := fst (Crm.onDialNumber e now phoneNumber objectId db) in
  let db' := snd (Crm.onDialNumber e now phoneNumber objectId db) in
  calls db' = calls db
  /\ permissions db' = permissions db
  /\ (forall k n e' a notes,
         answer = Ok (Json (initiateCall k n)) ->
         OutboundEnv.now_check e' = now ->
         fst (Api.outbound e' (OutboundBody.mk k n a notes) db')
         = Ok (mkResp 200 "initiated")
         \/ fst (Api.outbound e' (OutboundBody.mk k n a notes) db')
            = Ok (mkResp 500 "Failed to initiate call"))
  /\ (forall k n e' a notes,
         answer = Ok (Json (requestPermission k n)) ->
         OutboundEnv.now_check e' = now ->
         Api.outbound e' (OutboundBody.mk k n a notes) db'
         = (Ok (mkResp 403 "Call permission required"), db')).
Proof.
  cbn zeta. rewrite onDialNumber_cases.
  set (number := if JS.startsWith phoneNumber "whatsapp:" then phoneNumber
                 else "whatsapp:" ++ Text.digits_only phoneNumber).
  assert (Hnumber : JS.startsWith number "whatsapp:" = true)
    by apply dial_number_prefixed.
  assert (Hfound :
            exists o db1,
              match contact_by_hubspot_id objectId db with
              | Some c => (Ok c, db)
              | None => Webhooks.syncContact e objectId db
              end = (o, db1)
              /\ calls db1 = calls db /\ permissions db1 = permissions db
              /\ forall c, o = Ok c -> contact_by_id (HubSpotContact.id c) db1 <> None).
  { destruct (contact_by_hubspot_id objectId db) as [c|] eqn:Hc.
    - exists (Ok c), db. repeat split. intros c' E. injection E as <-.
      unfold contact_by_hubspot_id in Hc. apply find_some in Hc.
      apply known_in. tauto.
    - destruct (syncContact_known e objectId db) as (H1 & H2 & _ & H3).
      destruct (Webhooks.syncContact e objectId db) as [o db1].
      exists o, db1. cbn [fst snd] in *. auto. }
  destruct Hfound as (o & db1 & -> & Hcalls & Hperms & Hknown).
  destruct o as [contact|err]; cbv zeta.
  2:{ cbn [fst snd]. repeat split; auto; intros; discriminate. }
  specialize (Hknown contact eq_refl).
  assert (Hout : forall e' a notes,
             Api.outbound e' (OutboundBody.mk (HubSpotContact.id contact) number a notes) db1
             = match Permissions.latest
                       (filter (Api.approved_for_pair (HubSpotContact.id contact)
                                  (JS.replace "whatsapp:" "" number)) (permissions db1)) with
               | None => (Ok (mkResp 403 "Call permission required"), db1)
               | Some p =>
                   if negb (CallPermission.canMakeCall (OutboundEnv.now_check e') p)
                   then (Ok (mkResp 403 "Call permission required"), db1)
                   else (Ok (mkResp 500 "Failed to initiate call"), db1)
               end).
  { intros e' a notes. rewrite outbound_cases. cbn [OutboundBody.contactId].
    destruct (contact_by_id (HubSpotContact.id contact) db1); [|contradiction].
    unfold outbound_permission, Api.outbound_number.
    cbn [OutboundBody.contactId OutboundBody.toNumber]. rewrite Hnumber.
    destruct (Permissions.latest _) as [p|]; [|reflexivity].
    destruct (negb _); reflexivity. }
  destruct (_ || _).
  2:{ cbn [fst snd]. repeat split; auto; intros; discriminate. }
  destruct (Permissions.latest _) as [p|] eqn:Hp.
  2:{ cbn [fst snd]. repeat split; auto; [intros; discriminate|].
      intros k n e' a notes E _. injection E as <- <-. rewrite Hout. reflexivity. }
  destruct (CallPermission.canMakeCall now p) eqn:Hcan; cbn [fst snd].
  - repeat split; auto; [|intros; discriminate].
    intros k n e' a notes E Hnow. injection E as <- <-.
    rewrite outbound_cases. cbn [OutboundBody.contactId].
    destruct (contact_by_id (HubSpotContact.id contact) db1); [|contradiction].
    unfold outbound_permission, Api.outbound_number.
    cbn [OutboundBody.contactId OutboundBody.toNumber]. rewrite Hnumber, Hp, Hnow, Hcan.
    cbn [negb]. right. reflexivity.
  - repeat split; auto; [intros; discriminate|].
    intros k n e' a notes E Hnow. injection E as <- <-.
    rewrite Hout, Hnow, Hcan. reflexivity.
Qed.

(** ** The call events of the CRM *)

Lemma onCallEnded_cases now k h db :
  Api.onCallEnded now k h db =
  match call_by_id k db with
  | None => (Ok (mkResp 200 "acknowledged"), db)
  | Some c =>
      if existsb (fun c' => negb (Call.id c' =? Call.id c)%string
                            && Calls.hubspotCallId_clash (JS.stored h) c') (calls db)
      then (Ok (mkResp 500 "Failed to process event"), db)
      else (Ok (mkResp 200 "acknowledged"),
            mkDB (contacts db)
                 (on_call (Call.id c)
                    (fun r => Call.set_endTime (Some now)
                                (Call.set_hubspotCallId
                                   (JS.updated h (Call.hubspotCallId r)) r))
                    (calls db))
                 (permissions db) (logs db))
  end.
Proof.
  unfold Api.onCallEnded, try_catch, bind, Calls.findByPk, call_by_id.
  destruct (find _ (calls db)) as [c|]; [|reflexivity].
  unfold Calls.update_hubspotCallId. destruct (existsb _ (calls db)); reflexivity.
Qed.

Lemma onCallCompleted_cases k notes outcome db :
  Api.onCallCompleted k notes outcome db =
  (Ok (mkResp 200 "acknowledged"),
   match call_by_id k db with
   | None => db
   | Some c =>
       mkDB (contacts db)
            (on_call (Call.id c)
               (fun r => Call.set_outcome (JS.stored outcome)
                           (Call.set_notes (JS.updated notes (Call.notes r)) r))
               (calls db))
            (permissions db) (logs db)
   end).
Proof.
  unfold Api.onCallCompleted, try_catch, bind, Calls.findByPk, call_by_id.
  destruct (find _ (calls db)) as [c|]; reflexivity.
Qed.

Lemma map_on_call {B} (g : Call.t -> B) k f l :
  (forall r, g (f r) = g r) -> map g (on_call k f l) = map g l.
Proof.
  intros Hf. unfold on_call. rewrite map_map. apply map_ext. intros r.
  destruct (Call.id r =? k)%string; [apply Hf | reflexivity].
Qed.

Lemma call_by_id_on_call k f db c :
  (forall r, Call.id (f r) = Call.id r) ->
  call_by_id k db = Some c ->
  find (fun r => (Call.id r =? k)%string) (on_call k f (calls db)) = Some (f c).
Proof.
  intros Hf Hc. unfold call_by_id in Hc. unfold on_call. rewrite find_map_stable.
  - rewrite Hc. cbn [option_map].
    apply find_some in Hc. destruct Hc as [_ Hk]. rewrite Hk. reflexivity.
  - intros r. destruct (Call.id r =? k)%string eqn:E; [rewrite Hf|]; exact E.
Qed.

(** X22: the call events of the CRM never touch the status of a call, nor
    its duration, nor any permission.  [onCallEnded] for a stored call
    writes the end time, over one already there, and the engagement id of
    the payload: a payload without one leaves the engagement id the call
    has, a null one clears it; when another call holds the engagement id
    of the payload it answers 500 and writes nothing.  [onCallCompleted]
    writes the notes of the payload, keeping those of the call when the
    payload has none, and the outcome, which a payload without one erases.
    So a call ended from the CRM keeps the status it had, a ringing call
    stays ringing. *)
Theorem crm_call_events_keep_status db :
  (forall now k h,
      let db' := step (ReqOnCallEnded now k h) db in
      map Call.status (calls db') = map Call.status (calls db)
      /\ map Call.duration (calls db') = map Call.duration (calls db)
      /\ permissions db' = permissions db)
  /\ (forall k notes outcome,
         let db' := step (ReqOnCallCompleted k notes outcome) db in
         map Call.status (calls db') = map Call.status (calls db)
         /\ map Call.endTime (calls db') = map Call.endTime (calls db)
         /\ permissions db' = permissions db)
  /\ (forall now k h c,
         call_by_id k db = Some c ->
         existsb (fun c' => negb (Call.id c' =? k)%string
                            && Calls.hubspotCallId_clash (JS.stored h) c') (calls db)
         = false ->
         fst (Api.onCallEnded now k h db) = Ok (mkResp 200 "acknowledged")
         /\ call_by_id k (step (ReqOnCallEnded now k h) db)
            = Some (Call.set_endTime (Some now)
                      (Call.set_hubspotCallId
                         (match h with
                          | JS.undefined => Call.hubspotCallId c
                          | JS.null => None
                          | JS.value v => Some v
                          end) c)))
  /\ (forall now k v c,
         call_by_id k db = Some c ->
         existsb (fun c' => negb (Call.id c' =? k)%string
                            && Calls.hubspotCallId_clash (Some v) c') (calls db) = true ->
         Api.onCallEnded now k (JS.value v) db
         = (Ok (mkResp 500 "Failed to process event"), db))
  /\ (forall k notes outcome c,
         call_by_id k db = Some c ->
         call_by_id k (step (ReqOnCallCompleted k notes outcome) db)
         = Some (Call.set_outcome
                   (match outcome with
                    | JS.value v => Some v
                    | JS.undefined | JS.null => None
                    end)
                   (Call.set_notes
                      (match notes with
                       | JS.undefined => Call.notes c
                       | JS.null => None
                       | JS.value v => Some v
                       end) c))).
Proof.
  split; [|split; [|split; [|split]]].
  - intros now k h. cbv zeta. unfold step, handle. rewrite onCallEnded_cases.
    destruct (call_by_id k db) as [c|]; [|repeat split].
    destruct (existsb _ (calls db)); [repeat split|]. cbn [snd calls permissions].
    rewrite !map_on_call by reflexivity. repeat split.
  - intros k notes outcome. cbv zeta. unfold step, handle. rewrite onCallCompleted_cases.
    destruct (call_by_id k db) as [c|]; [|repeat split]. cbn [snd calls permissions].
    rewrite !map_on_call by reflexivity. repeat split.
  - intros now k h c Hc Hfree. unfold step, handle. rewrite onCallEnded_cases, Hc.
    assert (Hk : Call.id c = k).
    { unfold call_by_id in Hc. apply find_some in Hc. apply String.eqb_eq. tauto. }
    rewrite Hk, Hfree. split; [reflexivity|].
    unfold call_by_id at 1. cbn [snd calls].
    rewrite (call_by_id_on_call k _ db c) by (try exact Hc; intros; reflexivity).
    destruct h; reflexivity.
  - intros now k v c Hc Hheld. rewrite onCallEnded_cases, Hc.
    assert (Hk : Call.id c = k).
    { unfold call_by_id in Hc. apply find_some in Hc. apply String.eqb_eq. tauto. }
    rewrite Hk. cbn [JS.stored]. rewrite Hheld. reflexivity.
  - intros k notes outcome c Hc. unfold step, handle.
    rewrite onCallCompleted_cases, Hc.
    assert (Hk : Call.id c = k).
    { unfold call_by_id in Hc. apply find_some in Hc. apply String.eqb_eq. tauto. }
    rewrite Hk. unfold call_by_id at 1. cbn [snd calls].
    rewrite (call_by_id_on_call k _ db c) by (try exact Hc; intros; reflexivity).
    destruct notes, outcome; reflexivity.
Qed.

Lemma crm_call_events_keep_status_witness :
  let held := Call.set_hubspotCallId (Some "eng-0") Sample.ringing_call in
  let db := mkDB [Sample.ada] [held] [Sample.perm 0] [] in
  option_map (fun c => (Call.status c, Call.endTime c, Call.hubspotCallId c))
    (call_by_id "call-1" (step (ReqOnCallEnded 5000 "call-1" (JS.value "eng-1")) db))
  = Some ("ringing", Some 5000, Some "eng-1")
  /\ option_map (fun c => (Call.status c, Call.endTime c, Call.hubspotCallId c))
       (call_by_id "call-1" (step (ReqOnCallEnded 5000 "call-1" JS.undefined) db))
     = Some ("ringing", Some 5000, Some "eng-0").
Proof.
  cbv zeta.
  destruct (crm_call_events_keep_status
              (mkDB [Sample.ada] [Call.set_hubspotCallId (Some "eng-0") Sample.ringing_call]
                 [Sample.perm 0] [])) as (_ & _ & H & _).
  split.
  - destruct (H 5000 "call-1" (JS.value "eng-1")
                (Call.set_hubspotCallId (Some "eng-0") Sample.ringing_call)
                eq_refl eq_refl) as [_ E].
    rewrite E. reflexivity.
  - destruct (H 5000 "call-1" JS.undefined
                (Call.set_hubspotCallId (Some "eng-0") Sample.ringing_call)
                eq_refl eq_refl) as [_ E].
    rewrite E. reflexivity.
Defined.

(** ** The CRM delivering twice *)

Lemma find_app_none {A} (P : A -> bool) l x :
  find P l = None -> find P (l ++ [x]) = if P x then Some x else None.
Proof.
  induction l as [|y l IH]; intros H; [reflexivity|].
  cbn [find app] in *. destruct (P y); [discriminate | apply IH; exact H].
Qed.

Lemma syncFromHubSpot_again p t t' r :
  Webhooks.syncFromHubSpot p t' (Webhooks.syncFromHubSpot p t r)
  = HubSpotContact.set_lastSyncedAt t' (Webhooks.syncFromHubSpot p t r).
Proof.
  unfold Webhooks.syncFromHubSpot, HubSpotContact.set_lastSyncedAt.
  cbn [HubSpotContact.id HubSpotContact.hubspotContactId HubSpotContact.email
       HubSpotContact.phone HubSpotContact.whatsappNumber HubSpotContact.firstName
       HubSpotContact.lastName HubSpotContact.company HubSpotContact.hubspotProperties
       HubSpotContact.deleted].
  destruct (HubSpotProps.email p), (HubSpotProps.phone p), (Webhooks.synced_number p),
    (HubSpotProps.firstname p), (HubSpotProps.lastname p), (HubSpotProps.company p);
    reflexivity.
Qed.

Lemma syncFromHubSpot_new e h p t' :
  Webhooks.syncFromHubSpot p t' (Webhooks.new_synced_contact e h p)
  = HubSpotContact.set_lastSyncedAt t' (Webhooks.new_synced_contact e h p).
Proof.
  unfold Webhooks.syncFromHubSpot, Webhooks.new_synced_contact,
    HubSpotContact.set_lastSyncedAt.
  cbn [HubSpotContact.id HubSpotContact.hubspotContactId HubSpotContact.email
       HubSpotContact.phone HubSpotContact.whatsappNumber HubSpotContact.firstName
       HubSpotContact.lastName HubSpotContact.company HubSpotContact.hubspotProperties
       HubSpotContact.deleted].
  destruct (HubSpotProps.email p), (HubSpotProps.phone p), (Webhooks.synced_number p),
    (HubSpotProps.firstname p), (HubSpotProps.lastname p), (HubSpotProps.company p);
    reflexivity.
Qed.

Lemma validate_cases isEmail email db :
  Contacts.validate isEmail email db = (Ok tt, db)
  \/ Contacts.validate isEmail email db = (Throw SequelizeValidationError, db).
Proof.
  unfold Contacts.validate, ret, throw. destruct email as [| |s]; auto.
  destruct (isEmail s); auto.
Qed.

Lemma validate_state isEmail email db db' :
  fst (Contacts.validate isEmail email db') = fst (Contacts.validate isEmail email db).
Proof.
  unfold Contacts.validate, ret, throw. destruct email as [| |s]; auto.
  destruct (isEmail s); auto.
Qed.

(** Syncing a contact again, with the CRM giving the same data: a sync
    that failed fails again and writes nothing; one that succeeded
    succeeds again, and the second writes the clock to [lastSyncedAt] and
    nothing else. *)
Lemma syncContact_again e e' h db :
  InboundEnv.getContact e' = InboundEnv.getContact e ->
  InboundEnv.isEmail e' = InboundEnv.isEmail e ->
  contact_by_id (InboundEnv.contact_uuid e) db = None ->
  Webhooks.syncContact e' h (snd (Webhooks.syncContact e h db))
  = match fst (Webhooks.syncContact e h db) with
    | Ok c =>
        (Ok (HubSpotContact.set_lastSyncedAt (InboundEnv.now_synced e') c),
         synced_at (InboundEnv.now_synced e') (HubSpotContact.id c)
           (snd (Webhooks.syncContact e h db)))
    | Throw err => (Throw err, snd (Webhooks.syncContact e h db))
    end.
Proof.
  intros Hsame Hmail Hfresh.
  unfold Webhooks.syncContact, bind, await, Contacts.findOne_hubspotContactId,
    Contacts.update, Contacts.create, ret.
  rewrite Hsame, Hmail.
  destruct (InboundEnv.getContact e) as [props|err]; [|reflexivity].
  destruct (find _ (contacts db)) as [c0|] eqn:Hfind.
  - destruct (validate_cases (InboundEnv.isEmail e) (HubSpotProps.email props) db)
      as [Hv|Hv]; rewrite Hv; cbn [fst snd]; [|rewrite Hfind, Hv; reflexivity].
    + cbn [contacts calls permissions logs].
      rewrite find_map_stable
        by (intros r; destruct (HubSpotContact.id r =? HubSpotContact.id c0)%string;
            reflexivity).
      rewrite Hfind. cbn [option_map]. rewrite String.eqb_refl.
      pose proof (validate_state (InboundEnv.isEmail e) (HubSpotProps.email props) db
                    (mkDB (map (fun c => if (HubSpotContact.id c =? HubSpotContact.id c0)%string
                                         then Webhooks.syncFromHubSpot props
                                                (InboundEnv.now_synced e) c
                                         else c) (contacts db))
                          (calls db) (permissions db) (logs db))) as Hv'.
      rewrite Hv in Hv'. cbn [fst] in Hv'.
      destruct (validate_cases (InboundEnv.isEmail e) (HubSpotProps.email props)
                  (mkDB (map (fun c => if (HubSpotContact.id c =? HubSpotContact.id c0)%string
                                       then Webhooks.syncFromHubSpot props
                                              (InboundEnv.now_synced e) c
                                       else c) (contacts db))
                        (calls db) (permissions db) (logs db))) as [Hv2|Hv2];
        rewrite Hv2 in Hv'; cbn [fst] in Hv'; [|discriminate].
      rewrite Hv2. rewrite syncFromHubSpot_again.
      unfold synced_at. cbn [contacts calls permissions logs HubSpotContact.id
                             Webhooks.syncFromHubSpot].
      f_equal. f_equal. rewrite !map_map. apply map_ext. intros r.
      destruct (HubSpotContact.id r =? HubSpotContact.id c0)%string eqn:E.
      * cbn [HubSpotContact.id Webhooks.syncFromHubSpot]. rewrite E.
        apply syncFromHubSpot_again.
      * rewrite E. reflexivity.
  - assert (Hclash : existsb
                       (fun c' => (HubSpotContact.id c' =? InboundEnv.contact_uuid e)%string
                                  || (HubSpotContact.hubspotContactId c' =? h)%string)
                       (contacts db) = false).
    { apply Bool.not_true_iff_false. intros Hex. apply existsb_exists in Hex.
      destruct Hex as (r & Hin & Hr). unfold contact_by_id in Hfresh.
      rewrite (find_none _ _ Hfresh r Hin), (find_none _ _ Hfind r Hin) in Hr.
      discriminate. }
    destruct (validate_cases (InboundEnv.isEmail e) (HubSpotProps.email props) db)
      as [Hv|Hv]; rewrite Hv; cbn [fst snd]; [|rewrite Hfind, Hv; reflexivity].
    + cbn [HubSpotContact.id HubSpotContact.hubspotContactId Webhooks.new_synced_contact].
      rewrite Hclash. cbn [fst snd contacts calls permissions logs].
      rewrite (find_app_none _ _ _ Hfind).
      cbn [HubSpotContact.hubspotContactId Webhooks.new_synced_contact].
      rewrite String.eqb_refl.
      pose proof (validate_state (InboundEnv.isEmail e) (HubSpotProps.email props) db
                    (mkDB (contacts db ++ [Webhooks.new_synced_contact e h props])
                          (calls db) (permissions db) (logs db))) as Hv'.
      rewrite Hv in Hv'. cbn [fst] in Hv'.
      destruct (validate_cases (InboundEnv.isEmail e) (HubSpotProps.email props)
                  (mkDB (contacts db ++ [Webhooks.new_synced_contact e h props])
                        (calls db) (permissions db) (logs db))) as [Hv2|Hv2];
        rewrite Hv2 in Hv'; cbn [fst] in Hv'; [|discriminate].
      fold (Webhooks.new_synced_contact e h props). rewrite Hv2.
      rewrite syncFromHubSpot_new.
      unfold synced_at. cbn [contacts calls permissions logs].
      f_equal. f_equal. rewrite !map_app. cbn [map]. f_equal.
      * apply map_ext_in. intros r Hin. unfold contact_by_id in Hfresh.
        pose proof (find_none _ _ Hfresh r Hin) as Hr. cbv beta in Hr.
        cbn [HubSpotContact.id Webhooks.new_synced_contact]. rewrite Hr. reflexivity.
      * cbn [HubSpotContact.id Webhooks.new_synced_contact]. rewrite String.eqb_refl.
        rewrite syncFromHubSpot_new. reflexivity.
Qed.

Lemma same_but_sync_time_refl db : same_but_sync_time db db.
Proof. repeat split. Qed.

Lemma synced_at_same now k db : same_but_sync_time db (synced_at now k db).
Proof.
  unfold same_but_sync_time, synced_at. cbn [contacts calls permissions logs].
  repeat split. rewrite map_map. apply map_ext. intros r.
  destruct (HubSpotContact.id r =? k)%string; reflexivity.
Qed.

Lemma synced_at_same_clock e h db c :
  fst (Webhooks.syncContact e h db) = Ok c ->
  synced_at (InboundEnv.now_synced e) (HubSpotContact.id c)
    (snd (Webhooks.syncContact e h db))
  = snd (Webhooks.syncContact e h db)
  /\ HubSpotContact.set_lastSyncedAt (InboundEnv.now_synced e) c = c.
Proof.
  unfold Webhooks.syncContact, bind, await, Contacts.findOne_hubspotContactId,
    Contacts.update, Contacts.create, ret.
  destruct (InboundEnv.getContact e) as [props|err]; [|discriminate].
  destruct (find _ (contacts db)) as [c0|] eqn:Hfind.
  - destruct (validate_cases (InboundEnv.isEmail e) (HubSpotProps.email props) db)
      as [Hv|Hv]; rewrite Hv; cbn [fst snd]; [|discriminate].
    intros H. injection H as <-. split; [|reflexivity].
    unfold synced_at. cbn [contacts calls permissions logs]. f_equal.
    rewrite map_map. apply map_ext. intros r.
    cbn [HubSpotContact.id Webhooks.syncFromHubSpot].
    destruct (HubSpotContact.id r =? HubSpotContact.id c0)%string eqn:E.
    + cbn [HubSpotContact.id Webhooks.syncFromHubSpot]. rewrite E. reflexivity.
    + rewrite E. reflexivity.
  - destruct (validate_cases (InboundEnv.isEmail e) (HubSpotProps.email props) db)
      as [Hv|Hv]; rewrite Hv; cbn [fst snd]; [|discriminate].
    destruct (existsb _ (contacts db)) eqn:Hclash; cbn [fst snd]; [discriminate|].
    intros H. injection H as <-. split; [|reflexivity].
    unfold synced_at. cbn [contacts calls permissions logs]. f_equal.
    rewrite map_app. cbn [map]. f_equal.
    + rewrite <- (map_id (contacts db)) at 2. apply map_ext_in. intros r Hin.
      pose proof (existsb_false_in _ _ Hclash r Hin) as Hr. cbv beta in Hr.
      apply orb_false_iff in Hr. destruct Hr as [Hr _].
      cbn [HubSpotContact.id Webhooks.new_synced_contact] in Hr |- *.
      rewrite Hr. reflexivity.
    + cbn [HubSpotContact.id Webhooks.new_synced_contact]. rewrite String.eqb_refl.
      reflexivity.
Qed.

Lemma expire_pending_twice k l :
  Crm.expire_pending k (Crm.expire_pending k l) = Crm.expire_pending k l.
Proof.
  unfold Crm.expire_pending. rewrite map_map. apply map_ext. intros p.
  destruct ((CallPermission.contactId p =? k)%string
            && (CallPermission.status p =? "pending")%string) eqn:E; [|rewrite E; reflexivity].
  cbn. rewrite andb_false_r. reflexivity.
Qed.

Lemma property_change_action (name : option string) :
  exists t : bool,
    forall A (x y : A),
      match name with
      | Some "whatsapp_number" => x
      | _ => y
      end = if t then x else y.
Proof.
  destruct name as [s|]; [|exists false; reflexivity].
  repeat match goal with
         | |- context [match ?x with _ => _ end] =>
             destruct x; try (exists false; reflexivity)
         end.
  exists true. reflexivity.
Qed.

(** A webhook that syncs its object, delivered again. *)
Lemma sync_webhook_again e e' o db :
  InboundEnv.getContact e' = InboundEnv.getContact e ->
  InboundEnv.isEmail e' = InboundEnv.isEmail e ->
  contact_by_id (InboundEnv.contact_uuid e) db = None ->
  let deliver := fun e0 =>
    try_catch (Crm.sync_object e0 o ;;; ret (mkResp 200 "processed"))
      (fun _ => ret (mkResp 500 "Failed to process webhook")) in
  fst (deliver e' (snd (deliver e db))) = fst (deliver e db)
  /\ same_but_sync_time (snd (deliver e db)) (snd (deliver e' (snd (deliver e db))))
  /\ (InboundEnv.now_synced e' = InboundEnv.now_synced e ->
      snd (deliver e' (snd (deliver e db))) = snd (deliver e db)).
Proof.
  intros Hsame Hmail Hfresh. cbv zeta. unfold Crm.sync_object. destruct o as [h|].
  - pose proof (syncContact_again e e' h db Hsame Hmail Hfresh) as H.
    pose proof (synced_at_same_clock e h db) as Hclock.
    unfold try_catch, bind, ret in *.
    destruct (Webhooks.syncContact e h db) as [[c|err] db1]; cbn [fst snd] in *;
      rewrite H; cbn [fst snd].
    + split; [reflexivity|]. split; [apply synced_at_same|].
      intros ->. apply (Hclock c eq_refl).
    + split; [reflexivity|]. split; [apply same_but_sync_time_refl | reflexivity].
  - unfold try_catch, bind, await, throw, ret. rewrite Hsame.
    destruct (InboundEnv.getContact e); cbn [fst snd];
      (split; [reflexivity|]; split; [apply same_but_sync_time_refl | reflexivity]).
Qed.

(** X23: a delivery of the CRM made twice, the CRM giving the same contact
    data both times.  The second sync of a contact is answered as the
    first, with the contact as the first left it but for [lastSyncedAt],
    which holds the clock of the second; it writes that column of that
    contact and nothing else; a sync that failed fails again and writes
    nothing.  Every webhook is answered the second time as the first, and
    leaves what one delivery leaves but for [lastSyncedAt]: property
    change, creation, deletion, and the subscription types the handler
    ignores.  With the same clock at both deliveries nothing at all
    differs.  The key generated for a new contact is assumed fresh at the
    first delivery. *)
Theorem crm_delivery_twice e e' db :
  InboundEnv.getContact e' = InboundEnv.getContact e ->
  InboundEnv.isEmail e' = InboundEnv.isEmail e ->
  contact_by_id (InboundEnv.contact_uuid e) db = None ->
  (forall h,
      let first := Crm.contact_sync e h db in
      let second := Crm.contact_sync e' h (snd first) in
      match fst first with
      | Ok (Json c) =>
          second = (Ok (Json (HubSpotContact.set_lastSyncedAt (InboundEnv.now_synced e') c)),
                    synced_at (InboundEnv.now_synced e') (HubSpotContact.id c) (snd first))
      | _ => second = first
      end
      /\ same_but_sync_time (snd first) (snd second)
      /\ (InboundEnv.now_synced e' = InboundEnv.now_synced e -> second = first))
  /\ (forall b,
         let first := Crm.webhooks e b db in
         let second := Crm.webhooks e' b (snd first) in
         fst second = fst first
         /\ same_but_sync_time (snd first) (snd second)
         /\ (InboundEnv.now_synced e' = InboundEnv.now_synced e -> second = first)).
Proof.
  intros Hsame Hmail Hfresh. split.
  - intros h. cbv zeta. unfold Crm.contact_sync, route.
    pose proof (syncContact_again e e' h db Hsame Hmail Hfresh) as H.
    pose proof (synced_at_same_clock e h db) as Hclock.
    unfold try_catch, bind, ret in *.
    destruct (Webhooks.syncContact e h db) as [[c|err] db1]; cbn [fst snd] in *;
      rewrite H; cbn [fst snd].
    + split; [reflexivity|]. split; [apply synced_at_same|].
      intros ->. destruct (Hclock c eq_refl) as [-> ->]. reflexivity.
    + split; [reflexivity|]. split; [apply same_but_sync_time_refl | reflexivity].
  - intros b. cbv zeta. unfold Crm.webhooks.
    assert (Hpair : forall (x y : Outcome Response * DB),
               fst x = fst y /\ same_but_sync_time (snd y) (snd x)
               /\ (InboundEnv.now_synced e' = InboundEnv.now_synced e -> snd x = snd y) ->
               fst x = fst y /\ same_but_sync_time (snd y) (snd x)
               /\ (InboundEnv.now_synced e' = InboundEnv.now_synced e -> x = y)).
    { intros [x1 x2] [y1 y2] (H1 & H2 & H3). cbn [fst snd] in *.
      split; [exact H1|]. split; [exact H2|]. intros Hc. rewrite H1, (H3 Hc).
      reflexivity. }
    assert (Hsame_state : forall x : Outcome Response * DB,
               fst x = fst x /\ same_but_sync_time (snd x) (snd x)
               /\ (InboundEnv.now_synced e' = InboundEnv.now_synced e -> x = x)).
    { intros x. split; [reflexivity|]. split; [apply same_but_sync_time_refl | reflexivity]. }
    destruct (WebhookBody.subscriptionType b =? "contact.propertyChange")%string.
    { destruct (property_change_action (WebhookBody.propertyName b)) as [t Ht].
      rewrite !Ht. destruct t; [|apply Hsame_state].
      apply Hpair. apply (sync_webhook_again e e' _ db Hsame Hmail Hfresh). }
    destruct (WebhookBody.subscriptionType b =? "contact.creation")%string.
    { apply Hpair. apply (sync_webhook_again e e' _ db Hsame Hmail Hfresh). }
    destruct (WebhookBody.subscriptionType b =? "contact.deletion")%string;
      [|apply Hsame_state].
    destruct (WebhookBody.objectId b) as [h|]; [|apply Hsame_state].
    assert (Heq : forall x y : Outcome Response * DB,
               x = y ->
               fst x = fst y /\ same_but_sync_time (snd y) (snd x)
               /\ (InboundEnv.now_synced e' = InboundEnv.now_synced e -> x = y)).
    { intros x y ->. apply Hsame_state. }
    apply Heq.
    unfold try_catch, bind, Contacts.findOne_hubspotContactId, Contacts.update, ret.
    destruct (find _ (contacts db)) as [c|] eqn:Hc.
    + cbn [snd contacts calls permissions logs].
      rewrite find_map_stable
        by (intros r; destruct (HubSpotContact.id r =? HubSpotContact.id c)%string;
            reflexivity).
      rewrite Hc. cbn [option_map]. rewrite String.eqb_refl.
      cbn [HubSpotContact.id HubSpotContact.set_deleted snd contacts calls permissions
           logs].
      rewrite expire_pending_twice. f_equal. f_equal.
      rewrite map_map. apply map_ext. intros r.
      destruct (HubSpotContact.id r =? HubSpotContact.id c)%string eqn:E;
        cbn [HubSpotContact.id HubSpotContact.set_deleted]; rewrite E; reflexivity.
    + cbn [snd]. rewrite Hc. reflexivity.
Qed.

Lemma crm_delivery_twice_witness :
  let again := InboundEnv.mk 9 "" "c-other" (Throw HubSpotError)
                 (InboundEnv.getContact Cases.sync_env) (Throw HubSpotError) 8000
                 (InboundEnv.isEmail Cases.sync_env) in
  let first := Crm.contact_sync Cases.sync_env "hs-303" Sample.db_contact_only in
  option_map HubSpotContact.lastSyncedAt (contact_by_id "c-new" (snd first)) = Some 7000
  /\ option_map HubSpotContact.lastSyncedAt
       (contact_by_id "c-new" (snd (Crm.contact_sync again "hs-303" (snd first))))
     = Some 8000
  /\ same_but_sync_time (snd first) (snd (Crm.contact_sync again "hs-303" (snd first))).
Proof.
  cbv zeta.
  destruct (crm_delivery_twice Cases.sync_env
              (InboundEnv.mk 9 "" "c-other" (Throw HubSpotError)
                 (InboundEnv.getContact Cases.sync_env) (Throw HubSpotError) 8000
                 (InboundEnv.isEmail Cases.sync_env))
              Sample.db_contact_only eq_refl eq_refl eq_refl) as (H & _).
  destruct (H "hs-303") as (H1 & H2 & _).
  split; [reflexivity|]. split; [|exact H2].
  cbv zeta in H1. cbn [fst] in H1.
  change (fst (Crm.contact_sync Cases.sync_env "hs-303" Sample.db_contact_only))
    with (Ok (Json (Webhooks.new_synced_contact Cases.sync_env "hs-303" Cases.props)))
    in H1.
  cbv iota in H1. rewrite H1. reflexivity.
Defined.

(** ** The keys of the contact table *)

Lemma nodup_app_new {A} (l : list A) x : NoDup l -> ~ In x l -> NoDup (l ++ [x]).
Proof.
  intros Hl Hx. induction l as [|y l IH]; [constructor; [intros []|constructor]|].
  inversion Hl as [|? ? Hy Hl']; subst. cbn [app]. constructor.
  - intros Hin. apply in_app_or in Hin. destruct Hin as [Hin|[<-|[]]]; [auto|].
    apply Hx. left. reflexivity.
  - apply IH; [exact Hl'|]. intros Hin. apply Hx. right. exact Hin.
Qed.

Lemma nodup_unique_key {A} (key : A -> string) l x y :
  NoDup (map key l) -> In x l -> In y l -> key x = key y -> x = y.
Proof.
  induction l as [|z l IH]; intros N Hx Hy E; [contradiction|].
  cbn [map] in N. inversion N as [|? ? Hz N']; subst.
  destruct Hx as [<-|Hx], Hy as [<-|Hy]; auto.
  - exfalso. apply Hz. rewrite E. apply in_map. exact Hy.
  - exfalso. apply Hz. rewrite <- E. apply in_map. exact Hx.
Qed.

Lemma contact_keys_frame {A} (m : M A) :
  (forall db, contacts (snd (m db)) = contacts db) -> preserves contacts_keys_ok m.
Proof. intros Hm db H. unfold contacts_keys_ok in *. rewrite Hm. exact H. Qed.

Lemma contact_keys_create c : preserves contacts_keys_ok (Contacts.create c).
Proof.
  intros db [Hid Hhub]. unfold Contacts.create.
  destruct (existsb _ (contacts db)) eqn:E; [split; assumption|].
  unfold contacts_keys_ok. cbn [snd contacts]. rewrite !map_app. cbn [map].
  split; (apply nodup_app_new; [assumption|]); intros Hin; apply in_map_iff in Hin;
    destruct Hin as (r & Hr & Hin);
    assert (Hex : existsb
                    (fun c' => (HubSpotContact.id c' =? HubSpotContact.id c)%string
                               || (HubSpotContact.hubspotContactId c'
                                   =? HubSpotContact.hubspotContactId c)%string)
                    (contacts db) = true)
      by (apply existsb_exists; exists r; split; [exact Hin|]; rewrite Hr, String.eqb_refl;
          auto using orb_true_r);
    congruence.
Qed.

Lemma contact_keys_update k f :
  (forall r, HubSpotContact.id (f r) = HubSpotContact.id r) ->
  (forall r, HubSpotContact.hubspotContactId (f r) = HubSpotContact.hubspotContactId r) ->
  preserves contacts_keys_ok (Contacts.update k f).
Proof.
  intros Hid Hhub db [H1 H2]. unfold contacts_keys_ok. cbn [Contacts.update snd contacts].
  rewrite !map_map. split.
  - rewrite (map_ext _ HubSpotContact.id); [exact H1|].
    intros r. destruct (HubSpotContact.id r =? k)%string; [apply Hid | reflexivity].
  - rewrite (map_ext _ HubSpotContact.hubspotContactId); [exact H2|].
    intros r. destruct (HubSpotContact.id r =? k)%string; [apply Hhub | reflexivity].
Qed.

Ltac other_tables_only :=
  intros ?db;
  unfold Calls.create, Calls.update, Calls.update_twilioCallSid, Calls.update_hubspotCallId,
    Permissions.create, Permissions.update_status, Permissions.update,
    Permissions.incrementCallsUsed, Permissions.incrementMissedCalls,
    Permissions.resetMissedCalls, Permissions.increment, Logs.create, route, try_catch,
    ret, throw;
  repeat match goal with
         | |- context [if ?x then _ else _] => destruct x
         | |- context [match ?x with Ok _ => _ | Throw _ => _ end] => destruct x
         end;
  reflexivity.

Ltac contact_keys_leaf :=
  first
    [ apply contact_keys_create
    | apply contact_keys_update; intros; reflexivity
    | apply contact_keys_frame; other_tables_only ].

Lemma contact_keys_step r db :
  contacts_keys_ok db -> contacts_keys_ok (step_any r db).
Proof.
  revert db. destruct r as [r|r].
  - change (preserves contacts_keys_ok (handle r)). destruct r; cbn [handle].
    + unfold Webhooks.voice_inbound, Webhooks.resolve_contact, Webhooks.syncContact,
        Contacts.validate.
      walk contact_keys_leaf.
    + unfold Webhooks.call_status, Webhooks.record_no_answer, Webhooks.record_answered.
      walk contact_keys_leaf.
    + unfold Webhooks.messaging. walk contact_keys_leaf.
    + unfold Webhooks.conference. walk contact_keys_leaf.
    + unfold Webhooks.recording. walk contact_keys_leaf.
    + unfold Api.outbound. walk contact_keys_leaf.
    + unfold Api.permission_request, Api.dispatch_consent. walk contact_keys_leaf.
    + unfold Api.get_status. walk contact_keys_leaf.
    + unfold Api.hangup. walk contact_keys_leaf.
    + unfold Api.onCallEnded. walk contact_keys_leaf.
    + unfold Api.onCallCompleted. walk contact_keys_leaf.
  - destruct r; cbn [step_any].
    + change (preserves contacts_keys_ok
                (Webhooks2.voice_outbound callId CallStatus DialCallStatus)).
      unfold Webhooks2.voice_outbound. walk contact_keys_leaf.
    + intros db H. exact H.
    + intros db H. exact H.
    + intros db H. unfold Crm.analytics, route, try_catch.
      destruct (Crm.map_outcome _ _); exact H.
    + change (preserves contacts_keys_ok (Crm.contact_sync e hubspotContactId)).
      unfold Crm.contact_sync, route, Webhooks.syncContact,
        Contacts.validate. walk contact_keys_leaf.
    + change (preserves contacts_keys_ok (Crm.onDialNumber e now phoneNumber objectId)).
      unfold Crm.onDialNumber, route, Webhooks.syncContact,
        Contacts.validate. walk contact_keys_leaf.
    + change (preserves contacts_keys_ok (Crm.webhooks e b)).
      unfold Crm.webhooks, Crm.sync_object, Webhooks.syncContact,
        Contacts.validate. walk contact_keys_leaf.
Qed.

Lemma contact_keys_run rs db : contacts_keys_ok db -> contacts_keys_ok (run_any rs db).
Proof.
  revert db. induction rs as [|r rs IH]; intros db H; [exact H|].
  cbn [run_any fold_left]. apply IH. apply contact_keys_step. exact H.
Qed.

(** X24: the keys of the contact table stay unique through every run of
    requests: no two stored contacts share an id or a CRM id, so the
    contact a CRM id is resolved to is the only one that carries it. *)
Theorem contact_keys_stay_unique rs db :
  contacts_keys_ok db ->
  let db' := run_any rs db in
  contacts_keys_ok db'
  /\ (forall c c', In c (contacts db') -> In c' (contacts db') ->
                   HubSpotContact.hubspotContactId c = HubSpotContact.hubspotContactId c' ->
                   c = c')
  /\ (forall c c', In c (contacts db') -> In c' (contacts db') ->
                   HubSpotContact.id c = HubSpotContact.id c' -> c = c').
Proof.
  intros H db'. pose proof (contact_keys_run rs db H) as [H1 H2]. fold db' in H1, H2.
  split; [split; assumption|]. split.
  - intros c c'. apply (nodup_unique_key _ _ _ _ H2).
  - intros c c'. apply (nodup_unique_key _ _ _ _ H1).
Qed.

Lemma contact_keys_stay_unique_witness :
  contacts_keys_ok
    (run_any [Other (ReqContactSync Cases.sync_env "hs-303");
              Other (ReqContactSync Cases.sync_env "hs-303");
              Core (ReqVoiceInbound (Sample.inbound_env "call-7") (Sample.inbound_body "CA7"))]
       Sample.db_contact_only).
Proof.
  apply (contact_keys_stay_unique
           [Other (ReqContactSync Cases.sync_env "hs-303");
            Other (ReqContactSync Cases.sync_env "hs-303");
            Core (ReqVoiceInbound (Sample.inbound_env "call-7") (Sample.inbound_body "CA7"))]
           Sample.db_contact_only).
  split; cbn; repeat constructor; intros [].
Defined.
